(** * Chat application: sessions, search history, generation client, controller

    A shallow embedding of the TypeScript sources
      - services/chatHistoryService   (src/unnamed/part_000, first half)
      - services/geminiService        (src/unnamed/part_000, second half)
      - services/searchHistoryService (src/unnamed/part_001)
      - App.tsx                       (the conversation controller)
    followed by the properties of the specification that concern them.

    Conventions.
    - A JavaScript string is the list of its UTF-16 code units ([list N]).
      Source literals are written as ordinary string literals (UTF-8 in this
      file) and turned into code units by [js].
    - [localStorage] is a finite map from keys to strings.  [setItem] always
      stores the value: a storage quota is not modelled, so the [catch] of the
      two [save...] functions is never entered.
    - The provider (the [@google/genai] client) is the environment.  Every
      call to it takes a script that says how the provider answers: it
      fulfils, rejects, or never settles.
    - A handler of [App.tsx] is an async function.  It is run from the world
      in which it was invoked: the values it closed over ([sessions],
      [activeSessionId], [isLoading], ...) are read from that world for the
      whole run, while its writes go to the current world.  A run ends
      [Returned], [Thrown] or [Pending] (suspended for ever at an [await]). *)

From Stdlib Require Import String Ascii NArith List Lia Bool.
From stdpp Require Import base option list gmap.

Local Open Scope N_scope.

(** ** JavaScript strings *)

Abbreviation jsstring := (list N).

Module JsString.

(** Code units of a UTF-8 byte sequence (a source literal of this file). *)
Fixpoint utf16 (bytes : list N) : jsstring :=
  match bytes with
  | [] => []
  | b0 :: r0 =>
    if b0 <? 128 then b0 :: utf16 r0
    else
      match r0 with
      | [] => [65533]
      | b1 :: r1 =>
        if b0 <? 224 then (N.land b0 31 * 64 + N.land b1 63) :: utf16 r1
        else
          match r1 with
          | [] => [65533]
          | b2 :: r2 =>
            if b0 <? 240
            then (N.land b0 15 * 4096 + N.land b1 63 * 64 + N.land b2 63) :: utf16 r2
            else
              match r2 with
              | [] => [65533]
              | b3 :: r3 =>
                let cp := N.land b0 7 * 262144 + N.land b1 63 * 4096
                          + N.land b2 63 * 64 + N.land b3 63 - 65536 in
                (55296 + cp / 1024) :: (56320 + cp mod 1024) :: utf16 r3
              end
          end
      end
  end.

Definition js (s : string) : jsstring :=
  utf16 (map N_of_ascii (list_ascii_of_string s)).

(** A string is truthy when it is not empty. *)
Definition truthy (s : jsstring) : bool :=
  match s with [] => false | _ :: _ => true end.

(** [a || b] on an optional string: [undefined] and [''] are falsy. *)
Definition truthyOpt (o : option jsstring) : bool :=
  match o with Some s => truthy s | None => false end.

Fixpoint eqb (a b : jsstring) : bool :=
  match a, b with
  | [], [] => true
  | x :: a', y :: b' => (x =? y) && eqb a' b'
  | _, _ => false
  end.

Fixpoint startsWith (pat s : jsstring) : bool :=
  match pat, s with
  | [], _ => true
  | p :: pat', c :: s' => (p =? c) && startsWith pat' s'
  | _ :: _, [] => false
  end.

(** [s.includes(pat)] *)
Fixpoint includes (pat s : jsstring) : bool :=
  startsWith pat s ||
  match s with
  | [] => false
  | _ :: s' => includes pat s'
  end.

Fixpoint dropWhile (p : N -> bool) (s : jsstring) : jsstring :=
  match s with
  | [] => []
  | c :: s' => if p c then dropWhile p s' else s
  end.

Definition dropWhileEnd (p : N -> bool) (s : jsstring) : jsstring :=
  rev (dropWhile p (rev s)).

(** WhiteSpace and LineTerminator of ECMAScript: what [trim] removes and what
    [\s] matches. *)
Definition isWhiteSpace (c : N) : bool :=
  ((9 <=? c) && (c <=? 13)) || (c =? 32) || (c =? 160) || (c =? 5760)
  || ((8192 <=? c) && (c <=? 8202)) || (c =? 8232) || (c =? 8233)
  || (c =? 8239) || (c =? 8287) || (c =? 12288) || (c =? 65279).

Definition trim (s : jsstring) : jsstring :=
  dropWhileEnd isWhiteSpace (dropWhile isWhiteSpace s).

(** One pattern character under the [i] flag.  The pattern characters used
    by the source are lower-case letters of Latin-1, whose upper-case form is
    32 below; no other code unit canonicalises to them. *)
Definition matchesIgnoreCase (p c : N) : bool := (c =? p) || (c + 32 =? p).

(** The rest of [s] after a case-insensitive occurrence of [pat] at its
    start. *)
Fixpoint matchPrefixI (pat s : jsstring) : option jsstring :=
  match pat, s with
  | [], _ => Some s
  | p :: pat', c :: s' => if matchesIgnoreCase p c then matchPrefixI pat' s' else None
  | _ :: _, [] => None
  end.

(** [toLowerCase] restricted to ASCII letters: the instance used by the
    worked examples.  The development itself is parametric in
    [String.prototype.toLowerCase]. *)
Definition asciiToLowerCase (s : jsstring) : jsstring :=
  map (fun c => if (65 <=? c) && (c <=? 90) then c + 32 else c) s.

End JsString.

Import JsString.

(** ** JSON text

    [JSON.stringify] and [JSON.parse] on the values the application stores:
    strings, arrays and objects (and the literals [null], [true], [false]).
    Numbers are not modelled: a text with a number fails to parse. *)

Module JSON.

#[local] Set Warnings "-register-all".

Inductive value : Type :=
| Null
| Bool (b : bool)
| Str (s : jsstring)
| Arr (items : list value)
| Obj (members : list (jsstring * value)).

Definition hexDigit (n : N) : N := if n <? 10 then 48 + n else 87 + n.

Definition unicodeEscape (c : N) : jsstring :=
  [92; 117; hexDigit (c / 4096 mod 16); hexDigit (c / 256 mod 16);
   hexDigit (c / 16 mod 16); hexDigit (c mod 16)].

Definition isHighSurrogate (c : N) : bool := (55296 <=? c) && (c <=? 56319).
Definition isLowSurrogate (c : N) : bool := (56320 <=? c) && (c <=? 57343).

(** One code unit that is not a surrogate, as [JSON.stringify] writes it. *)
Definition quoteUnit (c : N) : jsstring :=
  if c =? 8 then [92; 98]
  else if c =? 9 then [92; 116]
  else if c =? 10 then [92; 110]
  else if c =? 12 then [92; 102]
  else if c =? 13 then [92; 114]
  else if c =? 34 then [92; 34]
  else if c =? 92 then [92; 92]
  else if c <? 32 then unicodeEscape c
  else [c].

(** A surrogate pair is written as it is, a lone surrogate is escaped. *)
Fixpoint quoteBody (s : jsstring) : jsstring :=
  match s with
  | [] => []
  | c :: s' =>
    if isHighSurrogate c then
      match s' with
      | d :: s'' =>
        if isLowSurrogate d then c :: d :: quoteBody s''
        else unicodeEscape c ++ quoteBody s'
      | [] => unicodeEscape c
      end
    else if isLowSurrogate c then unicodeEscape c ++ quoteBody s'
    else quoteUnit c ++ quoteBody s'
  end.

Definition quote (s : jsstring) : jsstring := 34 :: quoteBody s ++ [34].

(** Texts separated by commas, then the closing bracket. *)
Fixpoint join (texts : list jsstring) (closing : N) : jsstring :=
  match texts with
  | [] => [closing]
  | t :: rest =>
    t ++ match rest with
         | [] => [closing]
         | _ :: _ => 44 :: join rest closing
         end
  end.

Fixpoint stringify (v : value) : jsstring :=
  match v with
  | Null => [110; 117; 108; 108]
  | Bool true => [116; 114; 117; 101]
  | Bool false => [102; 97; 108; 115; 101]
  | Str s => quote s
  | Arr items => 91 :: join (map stringify items) 93
  | Obj members =>
    123 :: join (map (fun member => quote (fst member) ++ 58 :: stringify (snd member))
                     members) 125
  end.

Definition isJsonSpace (c : N) : bool :=
  (c =? 32) || (c =? 9) || (c =? 10) || (c =? 13).

Definition skipWs (s : jsstring) : jsstring := dropWhile isJsonSpace s.

Definition hexValue (c : N) : option N :=
  if (48 <=? c) && (c <=? 57) then Some (c - 48)
  else if (97 <=? c) && (c <=? 102) then Some (c - 87)
  else if (65 <=? c) && (c <=? 70) then Some (c - 55)
  else None.

Definition unescape (e : N) : option N :=
  if e =? 34 then Some 34
  else if e =? 92 then Some 92
  else if e =? 47 then Some 47
  else if e =? 98 then Some 8
  else if e =? 102 then Some 12
  else if e =? 110 then Some 10
  else if e =? 114 then Some 13
  else if e =? 116 then Some 9
  else None.

(** The characters of a string literal after its opening quote, and the text
    after its closing quote. *)
Fixpoint parseStringBody (s : jsstring) : option (jsstring * jsstring) :=
  match s with
  | [] => None
  | c :: r =>
    if c =? 34 then Some ([], r)
    else if c =? 92 then
      match r with
      | [] => None
      | e :: r1 =>
        if e =? 117 then
          match r1 with
          | h1 :: h2 :: h3 :: h4 :: r2 =>
            match hexValue h1, hexValue h2, hexValue h3, hexValue h4 with
            | Some a, Some b, Some c', Some d =>
              match parseStringBody r2 with
              | Some (t, rest) => Some ((a * 4096 + b * 256 + c' * 16 + d) :: t, rest)
              | None => None
              end
            | _, _, _, _ => None
            end
          | _ => None
          end
        else
          match unescape e with
          | Some u =>
            match parseStringBody r1 with
            | Some (t, rest) => Some (u :: t, rest)
            | None => None
            end
          | None => None
          end
      end
    else if c <? 32 then None
    else
      match parseStringBody r with
      | Some (t, rest) => Some (c :: t, rest)
      | None => None
      end
  end.

Definition expect (word : jsstring) (v : value) (s : jsstring)
  : option (value * jsstring) :=
  if startsWith word s then Some (v, drop (length word) s) else None.

Fixpoint parseValue (fuel : nat) (s : jsstring) : option (value * jsstring) :=
  match fuel with
  | O => None
  | S fuel' =>
    match skipWs s with
    | [] => None
    | c :: r =>
      if c =? 34 then
        match parseStringBody r with
        | Some (t, rest) => Some (Str t, rest)
        | None => None
        end
      else if c =? 91 then
        match skipWs r with
        | [] => None
        | d :: r' =>
          if d =? 93 then Some (Arr [], r')
          else
            match parseElements fuel' r with
            | Some (l, rest) => Some (Arr l, rest)
            | None => None
            end
        end
      else if c =? 123 then
        match skipWs r with
        | [] => None
        | d :: r' =>
          if d =? 125 then Some (Obj [], r')
          else
            match parseMembers fuel' r with
            | Some (l, rest) => Some (Obj l, rest)
            | None => None
            end
        end
      else if c =? 110 then expect [117; 108; 108] Null r
      else if c =? 116 then expect [114; 117; 101] (Bool true) r
      else if c =? 102 then expect [97; 108; 115; 101] (Bool false) r
      else None
    end
  end
with parseElements (fuel : nat) (s : jsstring) : option (list value * jsstring) :=
  match fuel with
  | O => None
  | S fuel' =>
    match parseValue fuel' s with
    | None => None
    | Some (v, r) =>
      match skipWs r with
      | [] => None
      | c :: r' =>
        if c =? 44 then
          match parseElements fuel' r' with
          | Some (l, rest) => Some (v :: l, rest)
          | None => None
          end
        else if c =? 93 then Some ([v], r')
        else None
      end
    end
  end
with parseMembers (fuel : nat) (s : jsstring)
  : option (list (jsstring * value) * jsstring) :=
  match fuel with
  | O => None
  | S fuel' =>
    match skipWs s with
    | [] => None
    | q :: r0 =>
      if q =? 34 then
        match parseStringBody r0 with
        | None => None
        | Some (k, r1) =>
          match skipWs r1 with
          | [] => None
          | colon :: r2 =>
            if colon =? 58 then
              match parseValue fuel' r2 with
              | None => None
              | Some (v, r3) =>
                match skipWs r3 with
                | [] => None
                | c :: r4 =>
                  if c =? 44 then
                    match parseMembers fuel' r4 with
                    | Some (l, rest) => Some ((k, v) :: l, rest)
                    | None => None
                    end
                  else if c =? 125 then Some ([(k, v)], r4)
                  else None
                end
              end
            else None
          end
        end
      else None
    end
  end.

(** [JSON.parse(text)]: [None] stands for the [SyntaxError] it throws. *)
Definition parse (text : jsstring) : option value :=
  match parseValue (S (length text)) text with
  | Some (v, rest) =>
    match skipWs rest with
    | [] => Some v
    | _ :: _ => None
    end
  | None => None
  end.

(** A number of steps that suffices for [parseValue] to read back the text
    of a value, and the notions the proof of that fact is stated with. *)
Fixpoint need (v : value) : nat :=
  match v with
  | Arr items => S (list_sum (map (fun x => S (need x)) items))
  | Obj members => S (list_sum (map (fun member => S (need (snd member))) members))
  | _ => 1
  end.

Definition needs (l : list value) : nat := list_sum (map (fun x => S (need x)) l).

Definition needsOfMembers (l : list (jsstring * value)) : nat :=
  list_sum (map (fun member => S (need (snd member))) l).

Definition memberText (member : jsstring * value) : jsstring :=
  quote (fst member) ++ 58 :: stringify (snd member).

(** The first character of a printed value: it starts a value and is no
    white space. *)
Definition opens (c : N) : Prop :=
  c = 110 \/ c = 116 \/ c = 102 \/ c = 34 \/ c = 91 \/ c = 123.

Definition Parses (v : value) : Prop :=
  forall fuel k, (need v <= fuel)%nat -> parseValue fuel (stringify v ++ k) = Some (v, k).

(** [o[key]] on a parsed object: the last member of that name. *)
Fixpoint get (key : jsstring) (members : list (jsstring * value)) : option value :=
  match members with
  | [] => None
  | (k, v) :: rest =>
    match get key rest with
    | Some v' => Some v'
    | None => if JsString.eqb k key then Some v else None
    end
  end.

End JSON.

(** ** The data model ([types.ts]) *)

(** Modelled from the spec: [types.ts] is not among the sources.  [Message]
    and [ChatSession] follow section 3 of the specification and the way the
    sources build and read them; [User] is the object [{ email }] that the
    controller builds. *)
Inductive Sender : Type := user | model.

Record Message : Type := {
  sender : Sender;
  text : jsstring;
  imageUrl : option jsstring;
  videoUrl : option jsstring
}.

Record ChatSession : Type := {
  id : jsstring;
  title : jsstring;
  messages : list Message
}.

Record User : Type := {
  email : jsstring
}.

(** What a value thrown in JavaScript offers to [handleApiError] and to the
    [catch] blocks of the controller: its class, [error.error?.message] and
    [error.message] when it is an object, or the string itself. *)
Inductive ErrorClass : Type := NotAnError | ErrorInstance | BillingErrorInstance.

Inductive Exception : Type :=
| ErrorObject (cls : ErrorClass) (nested : option jsstring) (message : option jsstring)
| StringValue (s : jsstring)
| OtherValue.

(** [new Error(message)] and [new BillingError(message)] *)
Definition newError (message : jsstring) : Exception :=
  ErrorObject ErrorInstance None (Some message).
Definition newBillingError (message : jsstring) : Exception :=
  ErrorObject BillingErrorInstance None (Some message).

Definition instanceofError (e : Exception) : bool :=
  match e with
  | ErrorObject ErrorInstance _ _ | ErrorObject BillingErrorInstance _ _ => true
  | _ => false
  end.

Definition instanceofBillingError (e : Exception) : bool :=
  match e with
  | ErrorObject BillingErrorInstance _ _ => true
  | _ => false
  end.

(** [error.message] of an [Error] instance *)
Definition errorMessageOf (e : Exception) : jsstring :=
  match e with
  | ErrorObject _ _ (Some m) => m
  | _ => []
  end.

(** How a promise of the environment ends. *)
Inductive Settled (A : Type) : Type :=
| Fulfilled (a : A)
| Rejected (e : Exception)
| NeverSettles.
Arguments Fulfilled {A} a.
Arguments Rejected {A} e.
Arguments NeverSettles {A}.

(** Modelled from the spec: [utils/fileUtils] is not among the sources.  A
    [File] picked by the user is given by what the controller asks of it:
    what [fileToBase64(file)] settles to ([base64], [mimeType]) and the URL
    that [URL.createObjectURL(file)] returns. *)
Record File : Type := {
  fileToBase64 : Settled (jsstring * jsstring);
  createObjectURL : jsstring
}.

(** Requests to the provider. *)
Inductive Part : Type :=
| TextPart (text : jsstring)
| InlineData (data mimeType : jsstring).

Record Content : Type := {
  role : Sender;
  parts : list Part
}.

Inductive ProviderCall : Type :=
| GenerateContentStream (modelId : jsstring) (contents : list Content) (systemInstruction : jsstring)
| GenerateImages (modelId prompt : jsstring)
| GenerateVideos (modelId prompt : jsstring)
| GetVideosOperation
| GenerateContent (modelId contents systemInstruction : jsstring).

(** The trace of what a run does to the outside: writes to [localStorage],
    calls to the provider, timers. *)
Inductive Effect : Type :=
| SetItem (key value : jsstring)
| Call (c : ProviderCall)
| Timeout (ms : N).

(** ** The world: the state of [App], [localStorage] and the trace *)

(** The state of the [App] component: its [useState] cells. *)
Record AppState : Type := {
  sessions : list ChatSession;
  activeSessionId : option jsstring;
  isLoading : bool;
  streamingMessage : option Message;
  isSidebarOpen : bool;
  currentUser : option User;
  isCreateImageModalOpen : bool;
  isCreateVideoModalOpen : bool;
  isStudyModalOpen : bool;
  isLearnModalOpen : bool;
  selectedImage : option File;
  isSettingsModalOpen : bool;
  isConfirmClearModalOpen : bool;
  isImageGenAvailable : bool;
  isVideoGenAvailable : bool;
  language : jsstring
}.

(** The setters: every cell but one keeps its value. *)
Definition setSessions (v : list ChatSession) (a : AppState) : AppState :=
  {| sessions := v; activeSessionId := activeSessionId a; isLoading := isLoading a;
     streamingMessage := streamingMessage a; isSidebarOpen := isSidebarOpen a;
     currentUser := currentUser a; isCreateImageModalOpen := isCreateImageModalOpen a;
     isCreateVideoModalOpen := isCreateVideoModalOpen a;
     isStudyModalOpen := isStudyModalOpen a; isLearnModalOpen := isLearnModalOpen a;
     selectedImage := selectedImage a; isSettingsModalOpen := isSettingsModalOpen a;
     isConfirmClearModalOpen := isConfirmClearModalOpen a;
     isImageGenAvailable := isImageGenAvailable a;
     isVideoGenAvailable := isVideoGenAvailable a; language := language a |}.

Definition setActiveSessionId (v : option jsstring) (a : AppState) : AppState :=
  {| sessions := sessions a; activeSessionId := v; isLoading := isLoading a;
     streamingMessage := streamingMessage a; isSidebarOpen := isSidebarOpen a;
     currentUser := currentUser a; isCreateImageModalOpen := isCreateImageModalOpen a;
     isCreateVideoModalOpen := isCreateVideoModalOpen a;
     isStudyModalOpen := isStudyModalOpen a; isLearnModalOpen := isLearnModalOpen a;
     selectedImage := selectedImage a; isSettingsModalOpen := isSettingsModalOpen a;
     isConfirmClearModalOpen := isConfirmClearModalOpen a;
     isImageGenAvailable := isImageGenAvailable a;
     isVideoGenAvailable := isVideoGenAvailable a; language := language a |}.

Definition setIsLoading (v : bool) (a : AppState) : AppState :=
  {| sessions := sessions a; activeSessionId := activeSessionId a; isLoading := v;
     streamingMessage := streamingMessage a; isSidebarOpen := isSidebarOpen a;
     currentUser := currentUser a; isCreateImageModalOpen := isCreateImageModalOpen a;
     isCreateVideoModalOpen := isCreateVideoModalOpen a;
     isStudyModalOpen := isStudyModalOpen a; isLearnModalOpen := isLearnModalOpen a;
     selectedImage := selectedImage a; isSettingsModalOpen := isSettingsModalOpen a;
     isConfirmClearModalOpen := isConfirmClearModalOpen a;
     isImageGenAvailable := isImageGenAvailable a;
     isVideoGenAvailable := isVideoGenAvailable a; language := language a |}.

Definition setStreamingMessage (v : option Message) (a : AppState) : AppState :=
  {| sessions := sessions a; activeSessionId := activeSessionId a; isLoading := isLoading a;
     streamingMessage := v; isSidebarOpen := isSidebarOpen a; currentUser := currentUser a;
     isCreateImageModalOpen := isCreateImageModalOpen a;
     isCreateVideoModalOpen := isCreateVideoModalOpen a;
     isStudyModalOpen := isStudyModalOpen a; isLearnModalOpen := isLearnModalOpen a;
     selectedImage := selectedImage a; isSettingsModalOpen := isSettingsModalOpen a;
     isConfirmClearModalOpen := isConfirmClearModalOpen a;
     isImageGenAvailable := isImageGenAvailable a;
     isVideoGenAvailable := isVideoGenAvailable a; language := language a |}.

Definition setIsSidebarOpen (v : bool) (a : AppState) : AppState :=
  {| sessions := sessions a; activeSessionId := activeSessionId a; isLoading := isLoading a;
     streamingMessage := streamingMessage a; isSidebarOpen := v;
     currentUser := currentUser a; isCreateImageModalOpen := isCreateImageModalOpen a;
     isCreateVideoModalOpen := isCreateVideoModalOpen a;
     isStudyModalOpen := isStudyModalOpen a; isLearnModalOpen := isLearnModalOpen a;
     selectedImage := selectedImage a; isSettingsModalOpen := isSettingsModalOpen a;
     isConfirmClearModalOpen := isConfirmClearModalOpen a;
     isImageGenAvailable := isImageGenAvailable a;
     isVideoGenAvailable := isVideoGenAvailable a; language := language a |}.

Definition setCurrentUser (v : option User) (a : AppState) : AppState :=
  {| sessions := sessions a; activeSessionId := activeSessionId a; isLoading := isLoading a;
     streamingMessage := streamingMessage a; isSidebarOpen := isSidebarOpen a;
     currentUser := v; isCreateImageModalOpen := isCreateImageModalOpen a;
     isCreateVideoModalOpen := isCreateVideoModalOpen a;
     isStudyModalOpen := isStudyModalOpen a; isLearnModalOpen := isLearnModalOpen a;
     selectedImage := selectedImage a; isSettingsModalOpen := isSettingsModalOpen a;
     isConfirmClearModalOpen := isConfirmClearModalOpen a;
     isImageGenAvailable := isImageGenAvailable a;
     isVideoGenAvailable := isVideoGenAvailable a; language := language a |}.

Definition setCreateImageModalOpen (v : bool) (a : AppState) : AppState :=
  {| sessions := sessions a; activeSessionId := activeSessionId a; isLoading := isLoading a;
     streamingMessage := streamingMessage a; isSidebarOpen := isSidebarOpen a;
     currentUser := currentUser a; isCreateImageModalOpen := v;
     isCreateVideoModalOpen := isCreateVideoModalOpen a;
     isStudyModalOpen := isStudyModalOpen a; isLearnModalOpen := isLearnModalOpen a;
     selectedImage := selectedImage a; isSettingsModalOpen := isSettingsModalOpen a;
     isConfirmClearModalOpen := isConfirmClearModalOpen a;
     isImageGenAvailable := isImageGenAvailable a;
     isVideoGenAvailable := isVideoGenAvailable a; language := language a |}.

Definition setCreateVideoModalOpen (v : bool) (a : AppState) : AppState :=
  {| sessions := sessions a; activeSessionId := activeSessionId a; isLoading := isLoading a;
     streamingMessage := streamingMessage a; isSidebarOpen := isSidebarOpen a;
     currentUser := currentUser a; isCreateImageModalOpen := isCreateImageModalOpen a;
     isCreateVideoModalOpen := v; isStudyModalOpen := isStudyModalOpen a;
     isLearnModalOpen := isLearnModalOpen a; selectedImage := selectedImage a;
     isSettingsModalOpen := isSettingsModalOpen a;
     isConfirmClearModalOpen := isConfirmClearModalOpen a;
     isImageGenAvailable := isImageGenAvailable a;
     isVideoGenAvailable := isVideoGenAvailable a; language := language a |}.

Definition setStudyModalOpen (v : bool) (a : AppState) : AppState :=
  {| sessions := sessions a; activeSessionId := activeSessionId a; isLoading := isLoading a;
     streamingMessage := streamingMessage a; isSidebarOpen := isSidebarOpen a;
     currentUser := currentUser a; isCreateImageModalOpen := isCreateImageModalOpen a;
     isCreateVideoModalOpen := isCreateVideoModalOpen a; isStudyModalOpen := v;
     isLearnModalOpen := isLearnModalOpen a; selectedImage := selectedImage a;
     isSettingsModalOpen := isSettingsModalOpen a;
     isConfirmClearModalOpen := isConfirmClearModalOpen a;
     isImageGenAvailable := isImageGenAvailable a;
     isVideoGenAvailable := isVideoGenAvailable a; language := language a |}.

Definition setLearnModalOpen (v : bool) (a : AppState) : AppState :=
  {| sessions := sessions a; activeSessionId := activeSessionId a; isLoading := isLoading a;
     streamingMessage := streamingMessage a; isSidebarOpen := isSidebarOpen a;
     currentUser := currentUser a; isCreateImageModalOpen := isCreateImageModalOpen a;
     isCreateVideoModalOpen := isCreateVideoModalOpen a;
     isStudyModalOpen := isStudyModalOpen a; isLearnModalOpen := v;
     selectedImage := selectedImage a; isSettingsModalOpen := isSettingsModalOpen a;
     isConfirmClearModalOpen := isConfirmClearModalOpen a;
     isImageGenAvailable := isImageGenAvailable a;
     isVideoGenAvailable := isVideoGenAvailable a; language := language a |}.

Definition setSelectedImage (v : option File) (a : AppState) : AppState :=
  {| sessions := sessions a; activeSessionId := activeSessionId a; isLoading := isLoading a;
     streamingMessage := streamingMessage a; isSidebarOpen := isSidebarOpen a;
     currentUser := currentUser a; isCreateImageModalOpen := isCreateImageModalOpen a;
     isCreateVideoModalOpen := isCreateVideoModalOpen a;
     isStudyModalOpen := isStudyModalOpen a; isLearnModalOpen := isLearnModalOpen a;
     selectedImage := v; isSettingsModalOpen := isSettingsModalOpen a;
     isConfirmClearModalOpen := isConfirmClearModalOpen a;
     isImageGenAvailable := isImageGenAvailable a;
     isVideoGenAvailable := isVideoGenAvailable a; language := language a |}.

Definition setSettingsModalOpen (v : bool) (a : AppState) : AppState :=
  {| sessions := sessions a; activeSessionId := activeSessionId a; isLoading := isLoading a;
     streamingMessage := streamingMessage a; isSidebarOpen := isSidebarOpen a;
     currentUser := currentUser a; isCreateImageModalOpen := isCreateImageModalOpen a;
     isCreateVideoModalOpen := isCreateVideoModalOpen a;
     isStudyModalOpen := isStudyModalOpen a; isLearnModalOpen := isLearnModalOpen a;
     selectedImage := selectedImage a; isSettingsModalOpen := v;
     isConfirmClearModalOpen := isConfirmClearModalOpen a;
     isImageGenAvailable := isImageGenAvailable a;
     isVideoGenAvailable := isVideoGenAvailable a; language := language a |}.

Definition setConfirmClearModalOpen (v : bool) (a : AppState) : AppState :=
  {| sessions := sessions a; activeSessionId := activeSessionId a; isLoading := isLoading a;
     streamingMessage := streamingMessage a; isSidebarOpen := isSidebarOpen a;
     currentUser := currentUser a; isCreateImageModalOpen := isCreateImageModalOpen a;
     isCreateVideoModalOpen := isCreateVideoModalOpen a;
     isStudyModalOpen := isStudyModalOpen a; isLearnModalOpen := isLearnModalOpen a;
     selectedImage := selectedImage a; isSettingsModalOpen := isSettingsModalOpen a;
     isConfirmClearModalOpen := v; isImageGenAvailable := isImageGenAvailable a;
     isVideoGenAvailable := isVideoGenAvailable a; language := language a |}.

Definition setIsImageGenAvailable (v : bool) (a : AppState) : AppState :=
  {| sessions := sessions a; activeSessionId := activeSessionId a; isLoading := isLoading a;
     streamingMessage := streamingMessage a; isSidebarOpen := isSidebarOpen a;
     currentUser := currentUser a; isCreateImageModalOpen := isCreateImageModalOpen a;
     isCreateVideoModalOpen := isCreateVideoModalOpen a;
     isStudyModalOpen := isStudyModalOpen a; isLearnModalOpen := isLearnModalOpen a;
     selectedImage := selectedImage a; isSettingsModalOpen := isSettingsModalOpen a;
     isConfirmClearModalOpen := isConfirmClearModalOpen a; isImageGenAvailable := v;
     isVideoGenAvailable := isVideoGenAvailable a; language := language a |}.

Definition setIsVideoGenAvailable (v : bool) (a : AppState) : AppState :=
  {| sessions := sessions a; activeSessionId := activeSessionId a; isLoading := isLoading a;
     streamingMessage := streamingMessage a; isSidebarOpen := isSidebarOpen a;
     currentUser := currentUser a; isCreateImageModalOpen := isCreateImageModalOpen a;
     isCreateVideoModalOpen := isCreateVideoModalOpen a;
     isStudyModalOpen := isStudyModalOpen a; isLearnModalOpen := isLearnModalOpen a;
     selectedImage := selectedImage a; isSettingsModalOpen := isSettingsModalOpen a;
     isConfirmClearModalOpen := isConfirmClearModalOpen a;
     isImageGenAvailable := isImageGenAvailable a; isVideoGenAvailable := v;
     language := language a |}.

Definition setLanguage (v : jsstring) (a : AppState) : AppState :=
  {| sessions := sessions a; activeSessionId := activeSessionId a; isLoading := isLoading a;
     streamingMessage := streamingMessage a; isSidebarOpen := isSidebarOpen a;
     currentUser := currentUser a; isCreateImageModalOpen := isCreateImageModalOpen a;
     isCreateVideoModalOpen := isCreateVideoModalOpen a;
     isStudyModalOpen := isStudyModalOpen a; isLearnModalOpen := isLearnModalOpen a;
     selectedImage := selectedImage a; isSettingsModalOpen := isSettingsModalOpen a;
     isConfirmClearModalOpen := isConfirmClearModalOpen a;
     isImageGenAvailable := isImageGenAvailable a;
     isVideoGenAvailable := isVideoGenAvailable a; language := v |}.

Record World : Type := {
  state : AppState;
  localStorage : gmap jsstring jsstring;
  log : list Effect
}.

Definition withState (v : AppState) (w : World) : World :=
  {| state := v; localStorage := localStorage w; log := log w |}.

Definition withLocalStorage (v : gmap jsstring jsstring) (w : World) : World :=
  {| state := state w; localStorage := v; log := log w |}.

Definition withLog (v : list Effect) (w : World) : World :=
  {| state := state w; localStorage := localStorage w; log := v |}.

(** ** Async functions *)

Inductive Outcome (A : Type) : Type :=
| Returned (a : A) (w : World)
| Thrown (e : Exception) (w : World)
| Pending (w : World).
Arguments Returned {A} a w.
Arguments Thrown {A} e w.
Arguments Pending {A} w.

Definition Async (A : Type) : Type := World -> Outcome A.

(** The world in which a run ends or stays suspended. *)
Definition worldOf {A : Type} (o : Outcome A) : World :=
  match o with
  | Returned _ w | Thrown _ w | Pending w => w
  end.

Definition ret {A : Type} (a : A) : Async A := fun w => Returned a w.

Definition throw {A : Type} (e : Exception) : Async A := fun w => Thrown e w.

Definition bind {A B : Type} (m : Async A) (k : A -> Async B) : Async B :=
  fun w =>
    match m w with
    | Returned a w' => k a w'
    | Thrown e w' => Thrown e w'
    | Pending w' => Pending w'
    end.

Declare Scope async_scope.
Delimit Scope async_scope with async.
Bind Scope async_scope with Async.
Notation "x <- m ;; k" := (bind m (fun x => k))
  (at level 100, m at next level, k at level 200, right associativity) : async_scope.
Notation "m ;; k" := (bind m (fun _ => k))
  (at level 100, k at level 200, right associativity) : async_scope.
Local Open Scope async_scope.

(** [try { body } catch (error) { handler }] *)
Definition tryCatch {A : Type} (body : Async A) (handler : Exception -> Async A) : Async A :=
  fun w =>
    match body w with
    | Thrown e w' => handler e w'
    | o => o
    end.

(** [try { body } finally { cleanup }] *)
Definition tryFinally {A : Type} (body : Async A) (cleanup : Async unit) : Async A :=
  fun w =>
    match body w with
    | Returned a w' => (cleanup ;; ret a) w'
    | Thrown e w' => (cleanup ;; throw e) w'
    | Pending w' => Pending w'
    end.

(** [await promise] *)
Definition await {A : Type} (promise : Settled A) : Async A :=
  match promise with
  | Fulfilled a => ret a
  | Rejected e => throw e
  | NeverSettles => fun w => Pending w
  end.

Definition modify (f : World -> World) : Async unit := fun w => Returned tt (f w).

(** A state setter of the component, [setX(v)]. *)
Definition setState (f : AppState -> AppState) : Async unit :=
  modify (fun w => withState (f (state w)) w).

(** The world after one more entry of the trace. *)
Definition logged (e : Effect) (w : World) : World := withLog (log w ++ [e]) w.

Definition emit (e : Effect) : Async unit := modify (logged e).

(** A call to the provider: the request leaves, the script says how it ends. *)
Definition call {A : Type} (c : ProviderCall) (answer : Settled A) : Async A :=
  emit (Call c) ;; await answer.

(** [localStorage.getItem], [localStorage.setItem] *)
Definition getItem (key : jsstring) : Async (option jsstring) :=
  fun w => Returned (localStorage w !! key) w.

(** The world after [localStorage.setItem(key, value)]. *)
Definition stored (key value : jsstring) (w : World) : World :=
  logged (SetItem key value) (withLocalStorage (<[key := value]> (localStorage w)) w).

Definition setItem (key value : jsstring) : Async unit := modify (stored key value).

(** ** Stored values

    What [JSON.stringify] writes for a collection and what the application
    reads back from [JSON.parse].  A property whose value is [undefined] is
    not written. *)

Definition senderString (s : Sender) : jsstring :=
  match s with
  | user => js "user"
  | model => js "model"
  end.

Definition optionalMember (key : jsstring) (o : option jsstring)
  : list (jsstring * JSON.value) :=
  match o with
  | Some s => [(key, JSON.Str s)]
  | None => []
  end.

Definition messageToJson (m : Message) : JSON.value :=
  JSON.Obj ([(js "sender", JSON.Str (senderString (sender m)));
             (js "text", JSON.Str (text m))]
            ++ optionalMember (js "imageUrl") (imageUrl m)
            ++ optionalMember (js "videoUrl") (videoUrl m)).

Definition sessionToJson (s : ChatSession) : JSON.value :=
  JSON.Obj [(js "id", JSON.Str (id s));
            (js "title", JSON.Str (title s));
            (js "messages", JSON.Arr (map messageToJson (messages s)))].

Definition sessionsToJson (history : list ChatSession) : JSON.value :=
  JSON.Arr (map sessionToJson history).

Definition stringsToJson (history : list jsstring) : JSON.value :=
  JSON.Arr (map JSON.Str history).

Definition senderOfString (s : jsstring) : option Sender :=
  if JsString.eqb s (js "user") then Some user
  else if JsString.eqb s (js "model") then Some model
  else None.

Definition stringMember (key : jsstring) (members : list (jsstring * JSON.value))
  : option jsstring :=
  match JSON.get key members with
  | Some (JSON.Str s) => Some s
  | _ => None
  end.

(** An optional string property: absent, or a string. *)
Definition optionalStringMember (key : jsstring) (members : list (jsstring * JSON.value))
  : option (option jsstring) :=
  match JSON.get key members with
  | None => Some None
  | Some (JSON.Str s) => Some (Some s)
  | Some _ => None
  end.

Definition messageOfJson (v : JSON.value) : option Message :=
  match v with
  | JSON.Obj members =>
    match stringMember (js "sender") members with
    | Some s =>
      match senderOfString s, stringMember (js "text") members,
            optionalStringMember (js "imageUrl") members,
            optionalStringMember (js "videoUrl") members with
      | Some who, Some t, Some image, Some video =>
        Some {| sender := who; text := t; imageUrl := image; videoUrl := video |}
      | _, _, _, _ => None
      end
    | None => None
    end
  | _ => None
  end.

Fixpoint allOf {A B : Type} (f : A -> option B) (l : list A) : option (list B) :=
  match l with
  | [] => Some []
  | a :: l' =>
    match f a, allOf f l' with
    | Some b, Some bs => Some (b :: bs)
    | _, _ => None
    end
  end.

Definition sessionOfJson (v : JSON.value) : option ChatSession :=
  match v with
  | JSON.Obj members =>
    match stringMember (js "id") members, stringMember (js "title") members,
          JSON.get (js "messages") members with
    | Some i, Some t, Some (JSON.Arr ms) =>
      match allOf messageOfJson ms with
      | Some l => Some {| id := i; title := t; messages := l |}
      | None => None
      end
    | _, _, _ => None
    end
  | _ => None
  end.

(** [JSON.parse(historyJson)] is returned under the type [ChatSession[]]
    without a check.  The model holds well-typed collections only: a parsed
    value of another shape is read as the empty collection. *)
Definition sessionsOfJson (v : JSON.value) : list ChatSession :=
  match v with
  | JSON.Arr items => default [] (allOf sessionOfJson items)
  | _ => []
  end.

Definition stringOfJson (v : JSON.value) : option jsstring :=
  match v with
  | JSON.Str s => Some s
  | _ => None
  end.

(** The same for [string[]]. *)
Definition stringsOfJson (v : JSON.value) : list jsstring :=
  match v with
  | JSON.Arr items => default [] (allOf stringOfJson items)
  | _ => []
  end.

(** ** services/chatHistoryService *)

Module chatHistoryService.

Definition CHAT_HISTORY_KEY : jsstring := js "gemini_chat_history_v2".

Definition getChatHistory : Async (list ChatSession) :=
  historyJson <- getItem CHAT_HISTORY_KEY ;;
  match historyJson with
  | Some json =>
    if truthy json then
      match JSON.parse json with
      | Some v => ret (sessionsOfJson v)
      | None => ret []
      end
    else ret []
  | None => ret []
  end.

Definition saveChatHistory (history : list ChatSession) : Async unit :=
  setItem CHAT_HISTORY_KEY (JSON.stringify (sessionsToJson history)).

(** [now] is what [new Date().toISOString()] returns at the call. *)
Definition createNewSession (now : jsstring) : Async ChatSession :=
  let newSession := {| id := now; title := js "Novo Chat"; messages := [] |} in
  history <- getChatHistory ;;
  let history := newSession :: history in
  saveChatHistory history ;;
  ret newSession.

(** [session.title = title] on the first session of that id. *)
Fixpoint assignTitle (sessionId title' : jsstring) (history : list ChatSession)
  : list ChatSession :=
  match history with
  | [] => []
  | s :: rest =>
    if JsString.eqb (id s) sessionId
    then {| id := id s; title := title'; messages := messages s |} :: rest
    else s :: assignTitle sessionId title' rest
  end.

Definition updateSessionTitle (sessionId title' : jsstring) : Async (list ChatSession) :=
  history <- getChatHistory ;;
  match find (fun s => JsString.eqb (id s) sessionId) history with
  | Some _ =>
    let history := assignTitle sessionId title' history in
    saveChatHistory history ;;
    ret history
  | None => ret history
  end.

Definition deleteSession (sessionId : jsstring) : Async (list ChatSession) :=
  history <- getChatHistory ;;
  let history := List.filter (fun s => negb (JsString.eqb (id s) sessionId)) history in
  saveChatHistory history ;;
  ret history.

End chatHistoryService.

(** ** services/searchHistoryService *)

Module searchHistoryService.

Definition SEARCH_HISTORY_KEY : jsstring := js "gemini_search_history".
Definition MAX_HISTORY_SIZE : nat := 100.

Definition getSearchHistory : Async (list jsstring) :=
  historyJson <- getItem SEARCH_HISTORY_KEY ;;
  match historyJson with
  | Some json =>
    if truthy json then
      match JSON.parse json with
      | Some v => ret (stringsOfJson v)
      | None => ret []
      end
    else ret []
  | None => ret []
  end.

Definition saveSearchHistory (history : list jsstring) : Async unit :=
  setItem SEARCH_HISTORY_KEY (JSON.stringify (stringsToJson history)).

Section WithToLowerCase.

(** [String.prototype.toLowerCase] *)
Variable toLowerCase : jsstring -> jsstring.

Definition addSearchHistoryEntry (query : jsstring) : Async unit :=
  if negb (truthy query) then ret tt
  else
    history <- getSearchHistory ;;
    let history :=
      List.filter (fun item => negb (JsString.eqb (toLowerCase item) (toLowerCase query)))
             history in
    let history := query :: history in
    let history :=
      if (MAX_HISTORY_SIZE <? length history)%nat
      then take MAX_HISTORY_SIZE history
      else history in
    saveSearchHistory history.

End WithToLowerCase.

Definition deleteSearchHistoryEntry (query : jsstring) : Async (list jsstring) :=
  history <- getSearchHistory ;;
  let history := List.filter (fun item => negb (JsString.eqb item query)) history in
  saveSearchHistory history ;;
  ret history.

Definition clearSearchHistory : Async unit := saveSearchHistory [].

End searchHistoryService.

(** ** services/geminiService *)

Module geminiService.

(** [handleApiError]: the centralized classifier.  [console.error] is not
    modelled.  [extractMessage] is the computation of its [errorMessage];
    the four texts it answers with are named. *)
Definition extractMessage (error : Exception) : jsstring :=
  match error with
  | ErrorObject _ nested message =>
    if truthyOpt nested then default [] nested
    else if truthyOpt message then default [] message
    else js "An unknown error occurred."
  | StringValue s => s
  | OtherValue => js "An unknown error occurred."
  end.

Definition billingMessage (context : jsstring) : jsstring :=
  let featureName :=
    if includes (js "imagem") context then js "geração de imagens"
    else if includes (js "vídeo") context then js "geração de vídeo"
    else js "esta funcionalidade" in
  js "A " ++ featureName ++
  js " está indisponível. A API do Google requer que o faturamento esteja ativado para este recurso.".

Definition invalidKeyMessage : jsstring :=
  js "Sua chave de API é inválida. Por favor, verifique-a nas configurações e tente novamente.".

Definition quotaMessage : jsstring :=
  js "Você atingiu sua cota de uso da API. Por favor, verifique seu plano ou tente novamente mais tarde.".

Definition unexpectedMessage (context : jsstring) : jsstring :=
  js "Desculpe, ocorreu um erro inesperado durante a " ++ context ++
  js ". Por favor, tente novamente.".

Definition handleApiError (error : Exception) (context : jsstring) : Exception :=
  let errorMessage := extractMessage error in
  if includes (js "billed users") errorMessage then newBillingError (billingMessage context)
  else if includes (js "API key not valid") errorMessage then newError invalidKeyMessage
  else if includes (js "quota") errorMessage then newError quotaMessage
  else newError (unexpectedMessage context).

Definition messageToGemini (message : Message) : Content :=
  {| role := sender message; parts := [TextPart (text message)] |}.

(** What the provider does with a streamed chat request: the [text] of each
    chunk it delivers ([None] for a chunk without text), and how the stream
    ends after them. *)
Record ChatScript : Type := {
  chunks : list (option jsstring);
  ending : Settled unit
}.

(** The fragments the generator yields for the delivered chunks. *)
Fixpoint yielded (delivered : list (option jsstring)) : list jsstring :=
  match delivered with
  | [] => []
  | Some t :: rest => if truthy t then t :: yielded rest else yielded rest
  | None :: rest => yielded rest
  end.

(** [generateContentStream], an async generator: the request it sends when
    it is first resumed, the fragments it yields in order, and how it ends.
    A failure of the provider ends it with the classified error. *)
Definition generateContentStream (prompt : jsstring) (history : list Message)
    (imagePart : option Part) (language : jsstring) (script : ChatScript)
  : ProviderCall * list jsstring * Settled unit :=
  let modelId := js "gemini-2.5-flash" in
  let geminiHistory := map messageToGemini (take (length history - 1)%nat history) in
  let currentUserMessageParts :=
    match imagePart with
    | Some part => [part]
    | None => []
    end ++ [TextPart prompt] in
  let contents := geminiHistory ++ [{| role := user; parts := currentUserMessageParts |}] in
  let systemInstruction :=
    if JsString.eqb language (js "pt-BR")
    then js "Responda em português do Brasil."
    else js "Respond in English." in
  (GenerateContentStream modelId contents systemInstruction,
   yielded (chunks script),
   match ending script with
   | Rejected error => Rejected (handleApiError error (js "resposta do chat"))
   | other => other
   end).

(** [response.generatedImages?.[0]?.image?.imageBytes] is what the script
    of [generateImage] fulfils with. *)
Definition generateImage (prompt : jsstring) (script : Settled (option jsstring))
  : Async jsstring :=
  tryCatch
    (imageBytes <- call (GenerateImages (js "imagen-4.0-generate-001") prompt) script ;;
     if truthyOpt imageBytes then ret (default [] imageBytes)
     else throw (newError (js "A API não retornou uma imagem válida.")))
    (fun error => throw (handleApiError error (js "geração de imagem"))).

(** A long-running operation as the client sees it: [operation.done] and
    [operation.response?.generatedVideos?.[0]?.video?.uri]. *)
Record Operation : Type := {
  done : bool;
  uri : option jsstring
}.

(** How the provider answers a video request: the operation it starts, and
    its answer to each status check, in order.  When the answers run out the
    next check never settles. *)
Record VideoScript : Type := {
  started : Settled Operation;
  checks : list (Settled Operation)
}.

(** [while (!operation.done) { await timeout; operation = await get(...) }] *)
Fixpoint poll (operation : Operation) (answers : list (Settled Operation))
  : Async Operation :=
  if done operation then ret operation
  else
    emit (Timeout 10000) ;;
    match answers with
    | [] => call GetVideosOperation NeverSettles
    | answer :: rest =>
      operation' <- call GetVideosOperation answer ;;
      poll operation' rest
    end.

Section WithApiKey.

(** [process.env.API_KEY] *)
Variable API_KEY : jsstring.

Definition generateVideo (prompt : jsstring) (script : VideoScript) : Async jsstring :=
  tryCatch
    (operation <- call (GenerateVideos (js "veo-2.0-generate-001") prompt) (started script) ;;
     operation <- poll operation (checks script) ;;
     let downloadLink := uri operation in
     if truthyOpt downloadLink
     then ret (default [] downloadLink ++ js "&key=" ++ API_KEY)
     else throw (newError (js "A API não retornou um link de vídeo válido.")))
    (fun error => throw (handleApiError error (js "geração de vídeo"))).

End WithApiKey.

(** The first [title.replace]: at the start, ignoring case, the word
    título or title, an optional colon, then white space. *)
Definition stripTitlePrefix (s : jsstring) : jsstring :=
  let afterWord :=
    match matchPrefixI (js "título") s with
    | Some rest => Some rest
    | None => matchPrefixI (js "title") s
    end in
  match afterWord with
  | Some rest =>
    dropWhile isWhiteSpace
      match rest with
      | c :: rest' => if c =? 58 then rest' else rest
      | [] => rest
      end
  | None => s
  end.

(** The character class of the second pattern: double quote, single
    quote, asterisk, hash, white space. *)
Definition isQuoteOrMarkup (c : N) : bool :=
  (c =? 34) || (c =? 39) || (c =? 42) || (c =? 35) || isWhiteSpace c.

(** The second [title.replace]: a run of that class at the start, and one
    at the end, are removed. *)
Definition stripSurrounding (s : jsstring) : jsstring :=
  dropWhileEnd isQuoteOrMarkup (dropWhile isQuoteOrMarkup s).

Definition fallbackTitle (language : jsstring) : jsstring :=
  if JsString.eqb language (js "pt-BR") then js "Novo Chat" else js "New Chat".

(** [response.text] is what the script of [generateChatTitle] fulfils with;
    [undefined.trim()] throws a [TypeError]. *)
Definition generateChatTitle (firstMessage language : jsstring)
    (script : Settled (option jsstring)) : Async jsstring :=
  tryCatch
    (let systemInstruction :=
       if JsString.eqb language (js "pt-BR")
       then js "Você é um gerador de títulos para chats. Sua tarefa é criar um título curto e conciso (máximo 4 palavras) para a conversa, baseado na primeira mensagem do usuário. Responda *apenas* com o título, sem formatação extra, aspas, ou palavras como "
            ++ [34] ++ js "Título:" ++ [34] ++ js "."
       else js "You are a chat title generator. Your task is to create a short and concise title (maximum 4 words) for the conversation, based on the user's first message. Respond with *only* the title, without extra formatting, quotes, or words like "
            ++ [34] ++ js "Title:" ++ [34] ++ js "." in
     let userPrompt :=
       js "Generate a title for a chat starting with: " ++ [34] ++ firstMessage ++ [34] in
     responseText <- call (GenerateContent (js "gemini-2.5-flash") userPrompt systemInstruction)
                          script ;;
     match responseText with
     | None => throw (ErrorObject ErrorInstance None
                        (Some (js "Cannot read properties of undefined (reading 'trim')")))
     | Some t =>
       let title := trim t in
       let title := stripTitlePrefix title in
       let title := stripSurrounding title in
       let fallbackTitle := fallbackTitle language in
       ret (if truthy title then title else fallbackTitle)
     end)
    (fun error => ret (fallbackTitle language)).

End geminiService.

(** ** App.tsx: the conversation controller *)

Module App.

Import chatHistoryService searchHistoryService geminiService.

(** The state of the first render ([useState] defaults) over a given
    [localStorage]. *)
Definition initialState : AppState :=
  {| sessions := [];
     activeSessionId := None;
     isLoading := false;
     streamingMessage := None;
     isSidebarOpen := false;
     currentUser := None;
     isCreateImageModalOpen := false;
     isCreateVideoModalOpen := false;
     isStudyModalOpen := false;
     isLearnModalOpen := false;
     selectedImage := None;
     isSettingsModalOpen := false;
     isConfirmClearModalOpen := false;
     isImageGenAvailable := true;
     isVideoGenAvailable := true;
     language := js "pt-BR" |}.

Definition initialWorld (stored : gmap jsstring jsstring) : World :=
  {| state := initialState; localStorage := stored; log := [] |}.

(** [sessions.find(s => s.id === activeSessionId)] *)
Definition activeSession (w : World) : option ChatSession :=
  match activeSessionId (state w) with
  | Some activeId => find (fun s => JsString.eqb (id s) activeId) (sessions (state w))
  | None => None
  end.

(** [updateMessages] closes over the [sessions] of the render that made it:
    [sessions0]. *)
Definition updatedSessions (sessions0 : list ChatSession) (sessionId : jsstring)
    (newMessages : list Message) : list ChatSession :=
  map (fun session =>
         if JsString.eqb (id session) sessionId
         then {| id := id session; title := title session; messages := newMessages |}
         else session)
      sessions0.

Definition updateMessages (sessions0 : list ChatSession) (sessionId : jsstring)
    (newMessages : list Message) : Async unit :=
  let updatedSessions := updatedSessions sessions0 sessionId newMessages in
  setState (setSessions updatedSessions) ;;
  saveChatHistory updatedSessions.

Definition modelMessage (t : jsstring) : Message :=
  {| sender := model; text := t; imageUrl := None; videoUrl := None |}.

(** The [⚠️ **Erro:** ...] message of the three [catch] blocks. *)
Definition errorMessage (errorMessageText : jsstring) : Message :=
  modelMessage (js "⚠️ **Erro:** " ++ errorMessageText).

Definition waitingMessage : Message :=
  modelMessage (js "Criando seu vídeo... 🎬 Isso pode levar alguns minutos. Vou te avisar assim que estiver pronto!").

(** The body of [for await (const chunk of stream)]. *)
Fixpoint consume (fragments : list jsstring) (fullResponse : jsstring) : Async jsstring :=
  match fragments with
  | [] => ret fullResponse
  | chunk :: rest =>
    let fullResponse := fullResponse ++ chunk in
    setState (setStreamingMessage (Some (modelMessage fullResponse))) ;;
    consume rest fullResponse
  end.

Section Controller.

Variable toLowerCase : jsstring -> jsstring.
Variable API_KEY : jsstring.

Definition handleSendMessage (messageText : jsstring) (imageFile : option File)
    (titleScript : Settled (option jsstring)) (chatScript : ChatScript) : Async unit :=
  fun w0 =>
    match activeSessionId (state w0) with
    | None => Returned tt w0
    | Some activeSessionId0 =>
      if isLoading (state w0) || negb (truthy activeSessionId0) then Returned tt w0
      else
        (prepared <-
           match imageFile with
           | Some file =>
             read <- await (fileToBase64 file) ;;
             ret (Some (InlineData (fst read) (snd read)),
                  if truthy messageText then messageText else js "Descreva esta imagem.")
           | None => ret (None, messageText)
           end ;;
         let imagePart := fst prepared in
         let userMessageText := snd prepared in
         if negb (truthy userMessageText) then ret tt
         else
           addSearchHistoryEntry toLowerCase userMessageText ;;
           let userMessage :=
             {| sender := user; text := userMessageText;
                imageUrl := option_map createObjectURL imageFile; videoUrl := None |} in
           let currentMessages :=
             match activeSession w0 with
             | Some s => messages s ++ [userMessage]
             | None => [userMessage]
             end in
           updateMessages (sessions (state w0)) activeSessionId0 currentMessages ;;
           setState (setSelectedImage None) ;;
           setState (setIsLoading true) ;;
           setState (setStreamingMessage (Some (modelMessage []))) ;;
           (if (length currentMessages =? 1)%nat then
              title <- generateChatTitle userMessageText (language (state w0)) titleScript ;;
              updatedSessions <- updateSessionTitle activeSessionId0 title ;;
              setState (setSessions updatedSessions)
            else ret tt) ;;
           tryFinally
             (tryCatch
                (let stream :=
                   generateContentStream userMessageText currentMessages imagePart
                                         (language (state w0)) chatScript in
                 emit (Call (fst (fst stream))) ;;
                 fullResponse <- consume (snd (fst stream)) [] ;;
                 await (snd stream) ;;
                 if truthy fullResponse then
                   let finalModelMessage := modelMessage fullResponse in
                   updateMessages (sessions (state w0)) activeSessionId0
                                  (currentMessages ++ [finalModelMessage])
                 else ret tt)
                (fun error =>
                   let errorMessageText :=
                     if instanceofError error then errorMessageOf error
                     else js "Ocorreu um erro desconhecido." in
                   updateMessages (sessions (state w0)) activeSessionId0
                                  (currentMessages ++ [errorMessage errorMessageText])))
             (setState (setIsLoading false) ;;
              setState (setStreamingMessage None))) w0
    end.

Definition handleGenerateImage (prompt : jsstring) (script : Settled (option jsstring))
  : Async unit :=
  fun w0 =>
    match activeSessionId (state w0) with
    | None => Returned tt w0
    | Some activeSessionId0 =>
      if isLoading (state w0) || negb (truthy activeSessionId0)
         || negb (isImageGenAvailable (state w0))
      then Returned tt w0
      else
        (setState (setCreateImageModalOpen false) ;;
         let userMessage :=
           {| sender := user; text := js "Gerar imagem: " ++ [34] ++ prompt ++ [34];
              imageUrl := None; videoUrl := None |} in
         addSearchHistoryEntry toLowerCase (text userMessage) ;;
         let currentMessages :=
           match activeSession w0 with
           | Some s => messages s ++ [userMessage]
           | None => [userMessage]
           end in
         updateMessages (sessions (state w0)) activeSessionId0 currentMessages ;;
         setState (setIsLoading true) ;;
         tryFinally
           (tryCatch
              (base64Image <- generateImage prompt script ;;
               let imageUrl' := js "data:image/png;base64," ++ base64Image in
               let modelMessage' :=
                 {| sender := model;
                    text := js "Imagem gerada para: " ++ [34] ++ prompt ++ [34];
                    imageUrl := Some imageUrl'; videoUrl := None |} in
               updateMessages (sessions (state w0)) activeSessionId0
                              (currentMessages ++ [modelMessage']))
              (fun error =>
                 (if instanceofBillingError error
                  then setState (setIsImageGenAvailable false)
                  else ret tt) ;;
                 let errorMessageText :=
                   if instanceofError error then errorMessageOf error
                   else js "Desculpe, não foi possível gerar a imagem." in
                 updateMessages (sessions (state w0)) activeSessionId0
                                (currentMessages ++ [errorMessage errorMessageText])))
           (setState (setIsLoading false))) w0
    end.

Definition handleGenerateVideo (prompt : jsstring) (script : VideoScript) : Async unit :=
  fun w0 =>
    match activeSessionId (state w0) with
    | None => Returned tt w0
    | Some activeSessionId0 =>
      if isLoading (state w0) || negb (truthy activeSessionId0)
         || negb (isVideoGenAvailable (state w0))
      then Returned tt w0
      else
        (setState (setCreateVideoModalOpen false) ;;
         let userMessage :=
           {| sender := user; text := js "Gerar vídeo: " ++ [34] ++ prompt ++ [34];
              imageUrl := None; videoUrl := None |} in
         addSearchHistoryEntry toLowerCase (text userMessage) ;;
         let currentMessages :=
           match activeSession w0 with
           | Some s => messages s ++ [userMessage]
           | None => [userMessage]
           end in
         updateMessages (sessions (state w0)) activeSessionId0 currentMessages ;;
         updateMessages (sessions (state w0)) activeSessionId0 (currentMessages ++ [waitingMessage]) ;;
         setState (setIsLoading true) ;;
         tryFinally
           (tryCatch
              (videoUrl' <- generateVideo API_KEY prompt script ;;
               let modelMessage' :=
                 {| sender := model;
                    text := js "Aqui está o vídeo que você pediu: " ++ [34] ++ prompt ++ [34];
                    imageUrl := None; videoUrl := Some videoUrl' |} in
               (* Replace waiting message with the final result *)
               updateMessages (sessions (state w0)) activeSessionId0
                              (currentMessages ++ [modelMessage']))
              (fun error =>
                 (if instanceofBillingError error
                  then setState (setIsVideoGenAvailable false)
                  else ret tt) ;;
                 let errorMessageText :=
                   if instanceofError error then errorMessageOf error
                   else js "Desculpe, não foi possível gerar o vídeo." in
                 (* Replace waiting message with an error message *)
                 updateMessages (sessions (state w0)) activeSessionId0
                                (currentMessages ++ [errorMessage errorMessageText])))
           (setState (setIsLoading false))) w0
    end.

Definition handleStudy (content : jsstring) (titleScript : Settled (option jsstring))
    (chatScript : ChatScript) : Async unit :=
  setState (setStudyModalOpen false) ;;
  let prompt :=
    js "Por favor, estude o seguinte texto e me diga o que você aprendeu ou resuma-o:"
    ++ [10; 10] ++ js "---" ++ [10] ++ content ++ [10] ++ js "---" in
  handleSendMessage prompt None titleScript chatScript.

Definition handleLearn (content : jsstring) (titleScript : Settled (option jsstring))
    (chatScript : ChatScript) : Async unit :=
  setState (setLearnModalOpen false) ;;
  let prompt :=
    js "Por favor, aprenda a seguinte informação para usar em nossa conversa:"
    ++ [10; 10] ++ js "---" ++ [10] ++ content ++ [10] ++ js "---" in
  handleSendMessage prompt None titleScript chatScript.

End Controller.

Definition handleNewSession (now : jsstring) : Async unit :=
  newSession <- createNewSession now ;;
  setState (fun a => setSessions (newSession :: sessions a) a) ;;
  setState (setActiveSessionId (Some (id newSession))) ;;
  setState (setIsSidebarOpen false).

Definition handleDeleteSession (id' now : jsstring) : Async unit :=
  fun w0 =>
    (updatedSessions <- deleteSession id' ;;
     setState (setSessions updatedSessions) ;;
     if match activeSessionId (state w0) with
        | Some activeId => JsString.eqb activeId id'
        | None => false
        end
     then
       setState (setActiveSessionId (option_map id (head updatedSessions))) ;;
       if (length updatedSessions =? 0)%nat then handleNewSession now else ret tt
     else ret tt) w0.

Definition handleClearAllHistory (now : jsstring) : Async unit :=
  let emptyHistory : list ChatSession := [] in
  setState (setSessions emptyHistory) ;;
  saveChatHistory emptyHistory ;;
  newSession <- createNewSession now ;;
  setState (setSessions [newSession]) ;;
  setState (setActiveSessionId (Some (id newSession))) ;;
  setState (setConfirmClearModalOpen false) ;;
  setState (setSettingsModalOpen false).

Section Accounts.

Variable toLowerCase : jsstring -> jsstring.

(** The simulated account calls: each promise settles when its timer of one
    second fires. *)
Definition handleLogin (email' : jsstring) : Async User :=
  emit (Timeout 1000) ;;
  if JsString.eqb (toLowerCase email') (js "error@example.com")
  then throw (newError (js "Credenciais inválidas. Verifique seu e-mail e senha."))
  else
    let user0 := {| email := email' |} in
    setState (setCurrentUser (Some user0)) ;;
    ret user0.

Definition handleSignup (email' : jsstring) : Async User :=
  emit (Timeout 1000) ;;
  if JsString.eqb (toLowerCase email') (js "error@example.com")
  then throw (newError (js "Este e-mail já está em uso."))
  else
    let user0 := {| email := email' |} in
    setState (setCurrentUser (Some user0)) ;;
    ret user0.

End Accounts.

Definition handleGoogleLogin : Async User :=
  emit (Timeout 1000) ;;
  let user0 := {| email := js "user.google@example.com" |} in
  setState (setCurrentUser (Some user0)) ;;
  ret user0.

Definition handleLogout : Async unit := setState (setCurrentUser None).

Definition onSelectSession (id' : jsstring) : Async unit :=
  setState (setActiveSessionId (Some id')) ;;
  setState (setIsSidebarOpen false).

Definition handleLanguageChange (lang : jsstring) : Async unit :=
  setState (setLanguage lang) ;;
  setItem (js "app_language") lang.

(** [onMenuClick] of the header: [setIsSidebarOpen(!isSidebarOpen)]. *)
Definition onMenuClick : Async unit :=
  fun w0 => setState (setIsSidebarOpen (negb (isSidebarOpen (state w0)))) w0.

(** The effect run once after the first render. *)
Definition mount (now : jsstring) : Async unit :=
  history <- getChatHistory ;;
  setState (setSessions history) ;;
  match history with
  | first :: _ => setState (setActiveSessionId (Some (id first)))
  | [] => handleNewSession now
  end ;;
  savedLang <- getItem (js "app_language") ;;
  if truthyOpt savedLang then setState (setLanguage (default [] savedLang)) else ret tt.

(** What the user can ask of the controller, with the answers of the
    environment that the request will meet: the handlers, and the callbacks
    that the render passes to the components (opening and closing the
    sidebar and the modals, picking or removing an image). *)
Inductive Action : Type :=
| SendMessage (messageText : jsstring) (imageFile : option File)
              (titleScript : Settled (option jsstring)) (chatScript : ChatScript)
| GenerateImage (prompt : jsstring) (script : Settled (option jsstring))
| GenerateVideo (prompt : jsstring) (script : VideoScript)
| Study (content : jsstring) (titleScript : Settled (option jsstring)) (chatScript : ChatScript)
| Learn (content : jsstring) (titleScript : Settled (option jsstring)) (chatScript : ChatScript)
| NewSession (now : jsstring)
| DeleteSession (id' now : jsstring)
| ClearAllHistory (now : jsstring)
| SelectSession (id' : jsstring)
| ChangeLanguage (lang : jsstring)
| Login (email' : jsstring)
| Signup (email' : jsstring)
| GoogleLogin
| Logout
| MenuClick
| SidebarOpen (v : bool)
| SettingsModalOpen (v : bool)
| ConfirmClearModalOpen (v : bool)
| CreateImageModalOpen (v : bool)
| CreateVideoModalOpen (v : bool)
| StudyModalOpen (v : bool)
| LearnModalOpen (v : bool)
| ImageSelect (file : option File).

Section Actions.

Variable toLowerCase : jsstring -> jsstring.
Variable API_KEY : jsstring.

Definition perform (a : Action) : Async unit :=
  match a with
  | SendMessage messageText imageFile titleScript chatScript =>
    handleSendMessage toLowerCase messageText imageFile titleScript chatScript
  | GenerateImage prompt script => handleGenerateImage toLowerCase prompt script
  | GenerateVideo prompt script => handleGenerateVideo toLowerCase API_KEY prompt script
  | Study content titleScript chatScript => handleStudy toLowerCase content titleScript chatScript
  | Learn content titleScript chatScript => handleLearn toLowerCase content titleScript chatScript
  | NewSession now => handleNewSession now
  | DeleteSession id' now => handleDeleteSession id' now
  | ClearAllHistory now => handleClearAllHistory now
  | SelectSession id' => onSelectSession id'
  | ChangeLanguage lang => handleLanguageChange lang
  | Login email' => handleLogin toLowerCase email' ;; ret tt
  | Signup email' => handleSignup toLowerCase email' ;; ret tt
  | GoogleLogin => handleGoogleLogin ;; ret tt
  | Logout => handleLogout
  | MenuClick => onMenuClick
  | SidebarOpen v => setState (setIsSidebarOpen v)
  | SettingsModalOpen v => setState (setSettingsModalOpen v)
  | ConfirmClearModalOpen v => setState (setConfirmClearModalOpen v)
  | CreateImageModalOpen v => setState (setCreateImageModalOpen v)
  | CreateVideoModalOpen v => setState (setCreateVideoModalOpen v)
  | StudyModalOpen v => setState (setStudyModalOpen v)
  | LearnModalOpen v => setState (setLearnModalOpen v)
  | ImageSelect file => setState (setSelectedImage file)
  end.

(** Actions one after the other, each invoked from the render that follows
    the one before. *)
Fixpoint performAll (actions : list Action) (w : World) : World :=
  match actions with
  | [] => w
  | a :: rest => performAll rest (worldOf (perform a w))
  end.

End Actions.

End App.

(** ** components/MessageInput: the suggestions under the input *)

Module MessageInput.

Section WithToLowerCase.

Variable toLowerCase : jsstring -> jsstring.

(** [filteredHistory], the [useMemo] over [input] and [searchHistory]. *)
Definition filteredHistory (input : jsstring) (searchHistory : list jsstring)
  : list jsstring :=
  if negb (truthy input) then searchHistory
  else List.filter (fun item => includes (toLowerCase input) (toLowerCase item))
                   searchHistory.

End WithToLowerCase.

End MessageInput.

(** ** components/ActionModal: the dialogs of the four actions *)

Module ActionModal.

(** [handleSubmit] of the dialog, with the [content] typed so far and the
    [onSubmit] that the controller passed. *)
Definition handleSubmit (content : jsstring) (onSubmit : jsstring -> Async unit)
  : Async unit :=
  if truthy (trim content) then onSubmit content else ret tt.

End ActionModal.

(** ** Observations

    What the statements below read off a world or a run. *)

Import chatHistoryService searchHistoryService geminiService App.

(** The collection that [getChatHistory()] returns in a world. *)
Definition persistedSessions (w : World) : list ChatSession :=
  match getChatHistory w with
  | Returned history _ => history
  | _ => []
  end.

(** The list that [getSearchHistory()] returns in a world. *)
Definition persistedSearchHistory (w : World) : list jsstring :=
  match getSearchHistory w with
  | Returned history _ => history
  | _ => []
  end.

(** The storage holds the collection [history] under the key of the chat
    history: nothing was saved yet and the collection is empty, or the text
    under the key is the one that [saveChatHistory] writes for it. *)
Definition storesSessions (history : list ChatSession) (w : World) : Prop :=
  match localStorage w !! CHAT_HISTORY_KEY with
  | None => history = []
  | Some json => json = JSON.stringify (sessionsToJson history)
  end.

(** The same for the search history and [saveSearchHistory]. *)
Definition storesSearchHistory (history : list jsstring) (w : World) : Prop :=
  match localStorage w !! SEARCH_HISTORY_KEY with
  | None => history = []
  | Some json => json = JSON.stringify (stringsToJson history)
  end.

Definition isImageCall (e : Effect) : bool :=
  match e with
  | Call (GenerateImages _ _) => true
  | _ => false
  end.

Definition isVideoCall (e : Effect) : bool :=
  match e with
  | Call (GenerateVideos _ _) | Call GetVideosOperation => true
  | _ => false
  end.

Definition isStreamCall (e : Effect) : bool :=
  match e with
  | Call (GenerateContentStream _ _ _) => true
  | _ => false
  end.

Definition isTitleCall (e : Effect) : bool :=
  match e with
  | Call (GenerateContent _ _ _) => true
  | _ => false
  end.

(** [userMessageText] and [userMessage] of [handleSendMessage]. *)
Definition outgoingText (messageText : jsstring) (imageFile : option File) : jsstring :=
  match imageFile with
  | Some _ => if truthy messageText then messageText else js "Descreva esta imagem."
  | None => messageText
  end.

Definition outgoingMessage (messageText : jsstring) (imageFile : option File) : Message :=
  {| sender := user; text := outgoingText messageText imageFile;
     imageUrl := option_map createObjectURL imageFile; videoUrl := None |}.

Definition userRequest (t : jsstring) : Message :=
  {| sender := user; text := t; imageUrl := None; videoUrl := None |}.

(** [currentMessages] of the three turn handlers. *)
Definition currentMessages (w0 : World) (userMessage : Message) : list Message :=
  match activeSession w0 with
  | Some s => messages s ++ [userMessage]
  | None => [userMessage]
  end.

(** The turn is the first of its session: [currentMessages.length === 1]. *)
Definition startsSession (w0 : World) : bool :=
  match activeSession w0 with
  | Some s => (length (messages s) =? 0)%nat
  | None => true
  end.

(** The final message of a video turn. *)
Definition videoMessage (prompt url : jsstring) : Message :=
  {| sender := model;
     text := js "Aqui está o vídeo que você pediu: " ++ [34] ++ prompt ++ [34];
     imageUrl := None; videoUrl := Some url |}.

(** The transcripts of the sessions of a given id. *)
Definition transcripts (sessionId : jsstring) (l : list ChatSession) : list (list Message) :=
  map messages (List.filter (fun s => JsString.eqb (id s) sessionId) l).

(** ** Frames

    [steps R m]: every run of [m] takes a world to one related by [R]. *)

Definition steps (R : World -> World -> Prop) {A : Type} (m : Async A) : Prop :=
  forall w, R w (worldOf (m w)).

Definition unchangedImage (w w' : World) : Prop :=
  isImageGenAvailable (state w') = isImageGenAvailable (state w)
  /\ List.filter isImageCall (log w') = List.filter isImageCall (log w).

Definition unchangedVideo (w w' : World) : Prop :=
  isVideoGenAvailable (state w') = isVideoGenAvailable (state w)
  /\ List.filter isVideoCall (log w') = List.filter isVideoCall (log w).

(** The trace only grows. *)
Definition grows (w w' : World) : Prop := exists later, log w' = log w ++ later.

(** Once the flag is off, it stays off and no request of that kind leaves. *)
Definition staysOffImage (w w' : World) : Prop :=
  isImageGenAvailable (state w) = false -> unchangedImage w w'.

Definition staysOffVideo (w w' : World) : Prop :=
  isVideoGenAvailable (state w) = false -> unchangedVideo w w'.

(** What the poll loop of [generateVideo] adds to the trace. *)
Definition isPollingEffect (e : Effect) : bool :=
  match e with
  | Timeout 10000 | Call GetVideosOperation => true
  | _ => false
  end.

(** What the poll loop asks for the operations it has seen that were not
    done: for each one a timer of ten seconds and a status request. *)
Definition rounds (waiting : list Operation) : list Effect :=
  flat_map (fun _ => [Timeout 10000; Call GetVideosOperation]) waiting.

(** The state shows the stored sessions. *)
Definition mirrorsStorage (w : World) : Prop := persistedSessions w = sessions (state w).

(** A run that leaves the state showing the stored sessions when it started
    so. *)
Definition staysMirrored (w w' : World) : Prop := mirrorsStorage w -> mirrorsStorage w'.

(** ** Worked examples *)

Module Example.

(** A clock reading. *)
Definition stamp : jsstring := js "2024-01-01T00:00:00.000Z".

Definition key : jsstring := js "KEY".

(** The application just started on an empty [localStorage]: one empty
    session, active. *)
Definition fresh : World := worldOf (mount stamp (initialWorld ∅)).

(** The chat stream of the streaming scenario, with an empty chunk and a
    chunk without text in between. *)
Definition hiThere : ChatScript :=
  {| chunks := [Some (js "Hi"); None; Some []; Some (js " there")];
     ending := Fulfilled tt |}.

Definition running : Operation := {| done := false; uri := None |}.

Definition finished (resultUri : jsstring) : Operation :=
  {| done := true; uri := Some resultUri |}.

(** The video scenario: not done twice, then done with a result. *)
Definition twoChecks (resultUri : jsstring) : VideoScript :=
  {| started := Fulfilled running;
     checks := [Fulfilled running; Fulfilled (finished resultUri)] |}.

Definition resultUri : jsstring := js "https://example.test/video?alt=media".

(** A provider error about billing, one about the quota, and one whose
    message holds two of the patterns. *)
Definition billedOnly : Exception :=
  ErrorObject ErrorInstance None
    (Some (js "Imagen API is only accessible to billed users at this time.")).

Definition quotaExhausted : Exception :=
  ErrorObject NotAnError (Some (js "You exceeded your current quota.")) None.

Definition keyAndBilling : Exception :=
  StringValue (js "API key not valid for billed users of this model.").

(** A stored collection that already holds a session made at [stamp]. *)
Definition crowded : World :=
  worldOf (saveChatHistory
             [{| id := stamp; title := js "Trip to Japan";
                 messages := [userRequest (js "Plan a trip to Japan")] |}]
             (initialWorld ∅)).

(** A search history with one entry. *)
Definition searched : World :=
  worldOf (addSearchHistoryEntry asciiToLowerCase (js "Cat") (initialWorld ∅)).

(** A chat stream that fails after its first fragment. *)
Definition dropped : ChatScript :=
  {| chunks := [Some (js "Hi")]; ending := Rejected quotaExhausted |}.

(** A file that cannot be read. *)
Definition unreadable : File :=
  {| fileToBase64 := Rejected (newError (js "The file could not be read."));
     createObjectURL := js "blob:1" |}.

(** The application while a turn is running. *)
Definition busy : World := withState (setIsLoading true (state fresh)) fresh.

End Example.

(** * Facts: JSON text is read back as the value it was written from *)

Section JSONFacts.
Import JSON.

Lemma hexValue_hexDigit n : n < 16 -> hexValue (hexDigit n) = Some n.
Proof.
  intros H. unfold hexValue, hexDigit.
  destruct (n <? 10) eqn:E.
  - apply N.ltb_lt in E.
    replace ((48 <=? 48 + n) && (48 + n <=? 57)) with true.
    + f_equal. lia.
    + symmetry. apply andb_true_iff. split; apply N.leb_le; lia.
  - apply N.ltb_ge in E.
    replace ((48 <=? 87 + n) && (87 + n <=? 57)) with false.
    + replace ((97 <=? 87 + n) && (87 + n <=? 102)) with true.
      * f_equal. lia.
      * symmetry. apply andb_true_iff. split; apply N.leb_le; lia.
    + symmetry. apply andb_false_iff. right. apply N.leb_gt. lia.
Qed.

Lemma hex_digits_sum c : c < 65536 ->
  c / 4096 mod 16 * 4096 + c / 256 mod 16 * 256 + c / 16 mod 16 * 16 + c mod 16 = c.
Proof.
  intros H.
  pose proof (N.div_mod c 16 ltac:(lia)).
  pose proof (N.div_mod (c / 16) 16 ltac:(lia)).
  pose proof (N.div_mod (c / 16 / 16) 16 ltac:(lia)).
  rewrite !N.Div0.div_div in *.
  change (16 * 16) with 256 in *. change (256 * 16) with 4096 in *.
  assert (c / 4096 < 16) by (apply N.Div0.div_lt_upper_bound; lia).
  rewrite (N.mod_small (c / 4096) 16) by lia.
  pose proof (N.div_mod (c / 4096) 16 ltac:(lia)).
  pose proof (N.mod_lt c 16 ltac:(lia)).
  pose proof (N.mod_lt (c/16) 16 ltac:(lia)).
  pose proof (N.mod_lt (c/256) 16 ltac:(lia)).
  lia.
Qed.

Lemma parse_unicodeEscape c k : c < 65536 ->
  parseStringBody (unicodeEscape c ++ k) =
  match parseStringBody k with
  | Some (t, rest) => Some (c :: t, rest)
  | None => None
  end.
Proof.
  intros H. unfold unicodeEscape.
  cbn [app parseStringBody].
  change (92 =? 34) with false. change (92 =? 92) with true.
  change (117 =? 117) with true. cbn iota.
  rewrite !hexValue_hexDigit by (apply N.mod_lt; lia).
  rewrite hex_digits_sum by exact H. reflexivity.
Qed.

Lemma parse_verbatim c k : (c =? 34) = false -> (c =? 92) = false -> (c <? 32) = false ->
  parseStringBody (c :: k) =
  match parseStringBody k with
  | Some (t, rest) => Some (c :: t, rest)
  | None => None
  end.
Proof. intros H1 H2 H3. cbn [parseStringBody]. rewrite H1, H2, H3. reflexivity. Qed.

Lemma parse_quoteUnit c k :
  parseStringBody (quoteUnit c ++ k) =
  match parseStringBody k with
  | Some (t, rest) => Some (c :: t, rest)
  | None => None
  end.
Proof.
  unfold quoteUnit.
  repeat match goal with
  | |- context [if ?x =? ?n then _ else _] =>
    destruct (N.eqb_spec x n) as [->|?]; [reflexivity|]
  end.
  destruct (c <? 32) eqn:E.
  - apply parse_unicodeEscape. apply N.ltb_lt in E. lia.
  - apply parse_verbatim; [apply N.eqb_neq; assumption .. | exact E].
Qed.

Lemma surrogate_bounds c :
  isHighSurrogate c || isLowSurrogate c = true ->
  c < 65536 /\ (c =? 34) = false /\ (c =? 92) = false /\ (c <? 32) = false.
Proof.
  unfold isHighSurrogate, isLowSurrogate. intros H.
  apply orb_true_iff in H.
  assert (55296 <= c <= 57343) as B.
  { destruct H as [H|H]; apply andb_true_iff in H; destruct H as [H1 H2];
      apply N.leb_le in H1, H2; lia. }
  repeat split; [lia | apply N.eqb_neq; lia | apply N.eqb_neq; lia | apply N.ltb_ge; lia].
Qed.

Lemma parse_quoteBody_bounded n : forall s k, (length s <= n)%nat ->
  parseStringBody (quoteBody s ++ 34 :: k) = Some (s, k).
Proof.
  induction n as [|n IH]; intros s k Hn.
  - destruct s; [reflexivity | simpl in Hn; lia].
  - destruct s as [|c s']; [reflexivity|].
    simpl in Hn. cbn [quoteBody].
    destruct (isHighSurrogate c) eqn:Hh.
    + destruct (surrogate_bounds c) as (Hc & H1 & H2 & H3); [rewrite Hh; reflexivity|].
      destruct s' as [|d s''].
      * rewrite parse_unicodeEscape by exact Hc. reflexivity.
      * destruct (isLowSurrogate d) eqn:Hl.
        -- destruct (surrogate_bounds d) as (Hd & G1 & G2 & G3);
             [rewrite Hl; apply orb_true_r|].
           cbn [app]. rewrite parse_verbatim by assumption.
           rewrite parse_verbatim by assumption.
           rewrite IH by (simpl in Hn; lia). reflexivity.
        -- rewrite <- app_assoc, parse_unicodeEscape by exact Hc.
           rewrite IH by lia. reflexivity.
    + destruct (isLowSurrogate c) eqn:Hl.
      * destruct (surrogate_bounds c) as (Hc & _); [rewrite Hl; apply orb_true_r|].
        rewrite <- app_assoc, parse_unicodeEscape by exact Hc.
        rewrite IH by lia. reflexivity.
      * rewrite <- app_assoc, parse_quoteUnit. rewrite IH by lia. reflexivity.
Qed.

Lemma parse_quoteBody s k : parseStringBody (quoteBody s ++ 34 :: k) = Some (s, k).
Proof. apply (parse_quoteBody_bounded (length s)). lia. Qed.

Lemma value_ind' (P : value -> Prop) :
  P Null -> (forall b, P (Bool b)) -> (forall s, P (Str s)) ->
  (forall items, Forall P items -> P (Arr items)) ->
  (forall members, Forall (fun member => P (snd member)) members -> P (Obj members)) ->
  forall v, P v.
Proof.
  intros HN HB HS HA HO.
  fix IH 1. intros [ | b | s | items | members ].
  - exact HN.
  - apply HB.
  - apply HS.
  - apply HA. induction items as [|v items IHitems]; constructor; [apply IH | exact IHitems].
  - apply HO. induction members as [|[k v] members IHm]; constructor; [apply IH | exact IHm].
Qed.

Lemma stringify_opens v : exists c t, stringify v = c :: t /\ opens c.
Proof.
  unfold opens. destruct v as [ | [|] | s | items | members ]; cbn; eauto 10.
Qed.

Lemma skipWs_opens c t : opens c -> skipWs (c :: t) = c :: t.
Proof.
  intros H. unfold opens in H.
  destruct H as [->|[->|[->|[->|[->| ->]]]]]; reflexivity.
Qed.

Lemma skipWs_stringify v k : skipWs (stringify v ++ k) = stringify v ++ k.
Proof.
  destruct (stringify_opens v) as (c & t & -> & H). apply skipWs_opens, H.
Qed.

Lemma join_one t closing : join [t] closing = t ++ [closing].
Proof. reflexivity. Qed.

Lemma join_more t t' rest closing :
  join (t :: t' :: rest) closing = t ++ 44 :: join (t' :: rest) closing.
Proof. reflexivity. Qed.

Lemma parseElements_join v l : Forall Parses (v :: l) ->
  forall fuel k, (needs (v :: l) <= fuel)%nat ->
  parseElements fuel (join (map stringify (v :: l)) 93 ++ k) = Some (v :: l, k).
Proof.
  revert v. induction l as [|v' l IH]; intros v HF fuel k Hfuel.
  - apply Forall_cons in HF as [Hv _].
    unfold needs in Hfuel. simpl in Hfuel.
    destruct fuel as [|fuel]; [lia|].
    cbn [map]. rewrite join_one, <- app_assoc. cbn [parseElements].
    rewrite Hv by lia. reflexivity.
  - apply Forall_cons in HF as [Hv HF].
    unfold needs in Hfuel. simpl in Hfuel.
    destruct fuel as [|fuel]; [lia|].
    cbn [map]. rewrite join_more, <- app_assoc. cbn [parseElements].
    rewrite Hv by lia.
    change (skipWs ((44 :: join (stringify v' :: map stringify l) 93) ++ k))
      with (44 :: join (map stringify (v' :: l)) 93 ++ k).
    change (44 =? 44) with true. cbn iota.
    rewrite IH; [reflexivity | exact HF | unfold needs; simpl; lia].
Qed.

Lemma parseMembers_join m l : Forall (fun member => Parses (snd member)) (m :: l) ->
  forall fuel k, (needsOfMembers (m :: l) <= fuel)%nat ->
  parseMembers fuel (join (map memberText (m :: l)) 125 ++ k) = Some (m :: l, k).
Proof.
  revert m. induction l as [|m' l IH]; intros [key v] HF fuel k Hfuel.
  - apply Forall_cons in HF as [Hv _]. cbn [snd] in Hv.
    unfold needsOfMembers in Hfuel. simpl in Hfuel.
    destruct fuel as [|fuel]; [lia|].
    cbn [map]. rewrite join_one. unfold memberText, quote. cbn [fst snd].
    cbn [app parseMembers skipWs dropWhile].
    change (isJsonSpace 34) with false. cbn iota.
    change (34 =? 34) with true. cbn iota.
    rewrite <- !app_assoc. cbn [app].
    rewrite parse_quoteBody.
    cbn [skipWs dropWhile]. change (isJsonSpace 58) with false. cbn iota.
    change (58 =? 58) with true. cbn iota.
    rewrite Hv by lia. reflexivity.
  - apply Forall_cons in HF as [Hv HF]. cbn [snd] in Hv.
    unfold needsOfMembers in Hfuel. simpl in Hfuel.
    destruct fuel as [|fuel]; [lia|].
    cbn [map]. rewrite join_more. unfold memberText at 1, quote. cbn [fst snd].
    cbn [app parseMembers skipWs dropWhile].
    change (isJsonSpace 34) with false. cbn iota.
    change (34 =? 34) with true. cbn iota.
    rewrite <- !app_assoc. cbn [app].
    rewrite parse_quoteBody.
    cbn [skipWs dropWhile]. change (isJsonSpace 58) with false. cbn iota.
    change (58 =? 58) with true. cbn iota.
    rewrite Hv by lia.
    cbn [skipWs dropWhile]. change (isJsonSpace 44) with false. cbn iota.
    change (44 =? 44) with true. cbn iota.
    change (memberText m' :: map memberText l) with (map memberText (m' :: l)).
    rewrite IH; [reflexivity | exact HF | unfold needsOfMembers; simpl; lia].
Qed.

Lemma stringify_Obj members :
  stringify (Obj members) = 123 :: join (map memberText members) 125.
Proof. reflexivity. Qed.

Lemma parseValue_stringify v : Parses v.
Proof.
  induction v as [ | b | s | items IH | members IH ] using value_ind';
    intros fuel k Hfuel; (destruct fuel as [|fuel]; [simpl in Hfuel; lia|]).
  - reflexivity.
  - destruct b; reflexivity.
  - cbn [stringify]. unfold quote. cbn [app parseValue skipWs dropWhile].
    change (isJsonSpace 34) with false. cbn iota.
    change (34 =? 34) with true. cbn iota.
    rewrite <- app_assoc. cbn [app]. rewrite parse_quoteBody. reflexivity.
  - destruct items as [|v items]; [reflexivity|].
    cbn [stringify app parseValue skipWs dropWhile].
    change (isJsonSpace 91) with false. cbn iota.
    change (91 =? 34) with false. change (91 =? 91) with true. cbn iota.
    cbn [map]. 
    destruct (stringify_opens v) as (c & t & Hc & Ho).
    assert (skipWs (join (stringify v :: map stringify items) 93 ++ k)
            = c :: (t ++ match map stringify items with
                         | [] => [93]
                         | _ :: _ => 44 :: join (map stringify items) 93
                         end ++ k)) as ->.
    { cbn [join]. rewrite Hc. rewrite <- app_assoc. cbn [app].
      apply skipWs_opens, Ho. }
    assert ((c =? 93) = false) as ->.
    { apply N.eqb_neq. unfold opens in Ho. lia. }
    change (stringify v :: map stringify items) with (map stringify (v :: items)).
    rewrite parseElements_join; [reflexivity | exact IH | simpl in Hfuel; unfold needs; simpl; lia].
  - destruct members as [|m members]; [reflexivity|].
    rewrite stringify_Obj.
    cbn [app parseValue skipWs dropWhile].
    change (isJsonSpace 123) with false. cbn iota.
    change (123 =? 34) with false. change (123 =? 91) with false.
    change (123 =? 123) with true. cbn iota.
    assert (exists t, join (map memberText (m :: members)) 125 ++ k = 34 :: t)
      as [t Ht].
    { cbn [map join]. unfold memberText at 1, quote. cbn [app]. eauto. }
    rewrite Ht, skipWs_opens by (unfold opens; auto).
    change (34 =? 125) with false. cbn iota. rewrite <- Ht.
    rewrite parseMembers_join;
      [reflexivity | exact IH | simpl in Hfuel; unfold needsOfMembers; simpl; lia].
Qed.

Lemma length_join texts closing :
  (list_sum (map (fun t => S (length t)) texts) <= length (join texts closing))%nat.
Proof.
  induction texts as [|t [|t' rest] IH].
  - simpl. lia.
  - rewrite join_one, length_app. simpl. lia.
  - rewrite join_more, length_app. unfold list_sum in *. cbn [length map fold_right] in *. lia.
Qed.

Lemma list_sum_le {A : Type} (f g : A -> nat) (l : list A) :
  Forall (fun x => (f x <= g x)%nat) l ->
  (list_sum (map f l) <= list_sum (map g l))%nat.
Proof. induction 1; simpl; lia. Qed.

Lemma need_le_length v : (need v <= length (stringify v))%nat.
Proof.
  induction v as [ | b | s | items IH | members IH ] using value_ind'.
  - simpl. lia.
  - destruct b; simpl; lia.
  - simpl. lia.
  - cbn [need stringify length].
    pose proof (length_join (map stringify items) 93) as L.
    rewrite map_map in L.
    pose proof (list_sum_le (fun x => S (need x)) (fun x => S (length (stringify x))) items) as M.
    assert (Forall (fun x => (S (need x) <= S (length (stringify x)))%nat) items) as F.
    { eapply Forall_impl; [exact IH|]. simpl. intros. lia. }
    specialize (M F). lia.
  - rewrite stringify_Obj. cbn [need length].
    pose proof (length_join (map memberText members) 125) as L.
    rewrite map_map in L.
    pose proof (list_sum_le (fun m => S (need (snd m))) (fun m => S (length (memberText m)))
                            members) as M.
    assert (Forall (fun m : jsstring * value => (S (need (snd m)) <= S (length (memberText m)))%nat)
                   members) as F.
    { eapply Forall_impl; [exact IH|]. simpl. intros m Hm.
      unfold memberText. rewrite length_app. simpl. lia. }
    specialize (M F). lia.
Qed.

Theorem parse_stringify v : parse (stringify v) = Some v.
Proof.
  unfold parse.
  rewrite <- (app_nil_r (stringify v)) at 2.
  rewrite parseValue_stringify; [reflexivity|].
  pose proof (need_le_length v). lia.
Qed.

Lemma truthy_stringify v : truthy (stringify v) = true.
Proof. destruct (stringify_opens v) as (c & t & -> & _). reflexivity. Qed.
End JSONFacts.

#[global] Arguments js : simpl never.
#[global] Arguments JSON.stringify : simpl never.
#[global] Arguments JSON.parse : simpl never.
#[global] Arguments geminiService.handleApiError : simpl never.
#[global] Arguments stored : simpl never.
#[global] Arguments logged : simpl never.

Lemma eqb_eq a b : JsString.eqb a b = true <-> a = b.
Proof.
  revert b; induction a as [|x a IH]; intros [|y b]; simpl; split; intros H;
    try reflexivity; try discriminate.
  - apply andb_true_iff in H as [H1 H2]. apply N.eqb_eq in H1. apply IH in H2. congruence.
  - injection H as -> ->. rewrite N.eqb_refl. apply IH. reflexivity.
Qed.

Lemma eqb_refl a : JsString.eqb a a = true.
Proof. apply eqb_eq. reflexivity. Qed.

Lemma eqb_neq a b : JsString.eqb a b = false <-> a <> b.
Proof.
  split.
  - intros H E. apply eqb_eq in E. congruence.
  - intros H. destruct (JsString.eqb a b) eqn:E; [|reflexivity].
    apply eqb_eq in E. contradiction.
Qed.

Lemma allOf_map {A B : Type} (f : A -> option B) (g : B -> A) (l : list B) :
  (forall x, f (g x) = Some x) -> allOf f (map g l) = Some l.
Proof.
  intros H. induction l as [|x l IH]; [reflexivity|].
  simpl. rewrite H, IH. reflexivity.
Qed.

Lemma messageOfJson_messageToJson m : messageOfJson (messageToJson m) = Some m.
Proof.
  destruct m as [who t image video].
  destruct who, image, video; vm_compute; reflexivity.
Qed.

Lemma sessionOfJson_sessionToJson s : sessionOfJson (sessionToJson s) = Some s.
Proof.
  destruct s as [i t ms]. unfold sessionToJson, sessionOfJson. cbn [id title messages].
  change (stringMember (js "id") _) with (Some i).
  change (stringMember (js "title") _) with (Some t).
  change (JSON.get (js "messages") _) with (Some (JSON.Arr (map messageToJson ms))).
  cbn iota. rewrite allOf_map by apply messageOfJson_messageToJson. reflexivity.
Qed.

Lemma sessionsOfJson_sessionsToJson history :
  sessionsOfJson (sessionsToJson history) = history.
Proof.
  unfold sessionsOfJson, sessionsToJson.
  rewrite allOf_map by apply sessionOfJson_sessionToJson. reflexivity.
Qed.

Lemma stringsOfJson_stringsToJson history :
  stringsOfJson (stringsToJson history) = history.
Proof.
  unfold stringsOfJson, stringsToJson.
  rewrite allOf_map by reflexivity. reflexivity.
Qed.

(** * Facts: the two stores *)

Section StorageFacts.

Lemma keys_distinct : CHAT_HISTORY_KEY <> SEARCH_HISTORY_KEY.
Proof. vm_compute. discriminate. Qed.

Lemma getChatHistory_returns w : getChatHistory w = Returned (persistedSessions w) w.
Proof.
  unfold persistedSessions, getChatHistory, bind, getItem.
  destruct (localStorage w !! CHAT_HISTORY_KEY) as [json|]; [|reflexivity].
  destruct (truthy json); [|reflexivity].
  destruct (JSON.parse json); reflexivity.
Qed.

Lemma persistedSessions_lookup w1 w2 :
  localStorage w1 !! CHAT_HISTORY_KEY = localStorage w2 !! CHAT_HISTORY_KEY ->
  persistedSessions w1 = persistedSessions w2.
Proof.
  intros H. unfold persistedSessions, getChatHistory, bind, getItem. rewrite H.
  destruct (localStorage w2 !! CHAT_HISTORY_KEY) as [json|]; [|reflexivity].
  destruct (truthy json); [|reflexivity].
  destruct (JSON.parse json); reflexivity.
Qed.

Lemma persistedSessions_saved w history :
  localStorage w !! CHAT_HISTORY_KEY = Some (JSON.stringify (sessionsToJson history)) ->
  persistedSessions w = history.
Proof.
  intros H. unfold persistedSessions, getChatHistory, bind, getItem. rewrite H.
  rewrite truthy_stringify, parse_stringify. cbn [ret]. f_equal; apply sessionsOfJson_sessionsToJson.
Qed.

Lemma getSearchHistory_returns w : getSearchHistory w = Returned (persistedSearchHistory w) w.
Proof.
  unfold persistedSearchHistory, getSearchHistory, bind, getItem.
  destruct (localStorage w !! SEARCH_HISTORY_KEY) as [json|]; [|reflexivity].
  destruct (truthy json); [|reflexivity].
  destruct (JSON.parse json); reflexivity.
Qed.

Lemma persistedSearchHistory_lookup w1 w2 :
  localStorage w1 !! SEARCH_HISTORY_KEY = localStorage w2 !! SEARCH_HISTORY_KEY ->
  persistedSearchHistory w1 = persistedSearchHistory w2.
Proof.
  intros H. unfold persistedSearchHistory, getSearchHistory, bind, getItem. rewrite H.
  destruct (localStorage w2 !! SEARCH_HISTORY_KEY) as [json|]; [|reflexivity].
  destruct (truthy json); [|reflexivity].
  destruct (JSON.parse json); reflexivity.
Qed.

Lemma persistedSearchHistory_saved w history :
  localStorage w !! SEARCH_HISTORY_KEY = Some (JSON.stringify (stringsToJson history)) ->
  persistedSearchHistory w = history.
Proof.
  intros H. unfold persistedSearchHistory, getSearchHistory, bind, getItem. rewrite H.
  rewrite truthy_stringify, parse_stringify. cbn [ret]. f_equal; apply stringsOfJson_stringsToJson.
Qed.

Lemma saveChatHistory_returns history w :
  saveChatHistory history w =
  Returned tt (stored CHAT_HISTORY_KEY (JSON.stringify (sessionsToJson history)) w).
Proof. reflexivity. Qed.

Lemma saveSearchHistory_returns history w :
  saveSearchHistory history w =
  Returned tt (stored SEARCH_HISTORY_KEY (JSON.stringify (stringsToJson history)) w).
Proof. reflexivity. Qed.

Lemma lookup_stored key value w key' :
  localStorage (stored key value w) !! key' =
  if decide (key = key') then Some value else localStorage w !! key'.
Proof. apply lookup_insert. Qed.

Lemma localStorage_stored key value w :
  localStorage (stored key value w) = <[key := value]> (localStorage w).
Proof. reflexivity. Qed.

Lemma persistedSessions_stored_chat history w :
  persistedSessions (stored CHAT_HISTORY_KEY (JSON.stringify (sessionsToJson history)) w)
  = history.
Proof. apply persistedSessions_saved. rewrite lookup_stored, decide_True; reflexivity. Qed.

Lemma persistedSessions_storesSessions history w :
  storesSessions history w -> persistedSessions w = history.
Proof.
  unfold storesSessions. destruct (localStorage w !! CHAT_HISTORY_KEY) as [json|] eqn:E.
  - intros ->. apply persistedSessions_saved, E.
  - intros ->. unfold persistedSessions, getChatHistory, bind, getItem. rewrite E.
    reflexivity.
Qed.

Lemma persistedSearchHistory_storesSearchHistory history w :
  storesSearchHistory history w -> persistedSearchHistory w = history.
Proof.
  unfold storesSearchHistory.
  destruct (localStorage w !! SEARCH_HISTORY_KEY) as [json|] eqn:E.
  - intros ->. apply persistedSearchHistory_saved, E.
  - intros ->. unfold persistedSearchHistory, getSearchHistory, bind, getItem. rewrite E.
    reflexivity.
Qed.

End StorageFacts.

(** C9 (save then load).  For every collection of sessions and every world,
    [saveChatHistory history] followed by [getChatHistory] returns [history]
    itself, in the same order and with the same content.  Loading and saving
    back leaves the persisted collection as it was; and when the stored text
    is one that [saveChatHistory] wrote, the whole of [localStorage] is left
    as it was. *)
Theorem saveChatHistory_getChatHistory_roundtrip :
  (forall (history : list ChatSession) (w : World),
     (saveChatHistory history ;; getChatHistory) w
     = Returned history (worldOf (saveChatHistory history w)))
  /\ (forall w : World,
        persistedSessions (worldOf ((history <- getChatHistory ;; saveChatHistory history) w))
        = persistedSessions w)
  /\ (forall (history : list ChatSession) (w : World),
        localStorage w !! CHAT_HISTORY_KEY = Some (JSON.stringify (sessionsToJson history)) ->
        localStorage (worldOf ((history <- getChatHistory ;; saveChatHistory history) w))
        = localStorage w).
Proof.
  split; [|split].
  - intros history w. unfold bind at 1. rewrite saveChatHistory_returns.
    rewrite getChatHistory_returns, persistedSessions_stored_chat. reflexivity.
  - intros w. unfold bind. rewrite getChatHistory_returns, saveChatHistory_returns.
    apply persistedSessions_stored_chat.
  - intros history w H. unfold bind. rewrite getChatHistory_returns, saveChatHistory_returns.
    rewrite (persistedSessions_saved w history H).
    cbn [worldOf]. rewrite localStorage_stored. apply insert_id, H.
Qed.

(** C5 (amended).  Over a storage that holds a collection of sessions saved
    by the application, or none yet: [createNewSession], run at the clock
    reading [now], returns the session with id [now], the title "Novo Chat"
    and an empty transcript; the persisted collection afterwards is that
    session at index 0 followed by the earlier ones, written at once by one
    [setItem]; the controller's state is untouched.  The id of the new
    session differs from the id of every stored session when no stored
    session carries [now] as its id, and is the id of a stored session
    otherwise: when the ids of the stored sessions are distinct, the ids of
    the persisted collection afterwards are distinct exactly when no stored
    session carries [now]. *)
Theorem createNewSession_inserts_at_head
    (now : jsstring) (existing : list ChatSession) (w : World) :
  storesSessions existing w ->
  let newSession := {| id := now; title := js "Novo Chat"; messages := [] |} in
  exists w',
    createNewSession now w = Returned newSession w'
    /\ storesSessions (newSession :: existing) w'
    /\ persistedSessions w' = newSession :: existing
    /\ log w' = log w ++ [SetItem CHAT_HISTORY_KEY
                            (JSON.stringify (sessionsToJson (newSession :: existing)))]
    /\ state w' = state w
    /\ (~ In now (map id existing) ->
        Forall (fun s => id s <> id newSession) existing)
    /\ (In now (map id existing) ->
        exists s, In s existing /\ id s = id newSession)
    /\ (List.NoDup (map id existing) ->
        (List.NoDup (map id (persistedSessions w')) <-> ~ In now (map id existing))).
Proof.
  intros Hstored. cbv zeta. apply persistedSessions_storesSessions in Hstored.
  eexists. unfold createNewSession, bind.
  rewrite getChatHistory_returns, saveChatHistory_returns, Hstored. cbn [ret].
  split; [reflexivity|]. split; [|split; [|split; [|split; [|split; [|split]]]]].
  - unfold storesSessions. rewrite lookup_stored, decide_True; reflexivity.
  - apply persistedSessions_stored_chat.
  - reflexivity.
  - reflexivity.
  - intros Hfresh. apply List.Forall_forall. intros s Hin Heq. apply Hfresh.
    cbn [id] in Heq. rewrite <- Heq. apply in_map, Hin.
  - intros Hin. apply in_map_iff in Hin as (s & Hs & Hin). exists s. split; assumption.
  - intros Hdistinct. rewrite persistedSessions_stored_chat. cbn [map id]. split.
    + intros Hnodup. inversion Hnodup; assumption.
    + intros Hfresh. constructor; assumption.
Qed.

Section SearchHistoryFacts.

Variable toLowerCase : jsstring -> jsstring.

Lemma addSearchHistoryEntry_returns query w :
  truthy query = true ->
  addSearchHistoryEntry toLowerCase query w =
  Returned tt
    (stored SEARCH_HISTORY_KEY
       (JSON.stringify
          (stringsToJson
             (take MAX_HISTORY_SIZE
                (query :: List.filter
                            (fun item => negb (JsString.eqb (toLowerCase item)
                                                            (toLowerCase query)))
                            (persistedSearchHistory w)))))
       w).
Proof.
  intros H. unfold addSearchHistoryEntry. rewrite H. cbn [negb].
  unfold bind. rewrite getSearchHistory_returns, saveSearchHistory_returns.
  do 4 f_equal.
  destruct (Nat.ltb_spec MAX_HISTORY_SIZE
              (length (query :: List.filter
                         (fun item => negb (JsString.eqb (toLowerCase item) (toLowerCase query)))
                         (persistedSearchHistory w)))) as [Hlt|Hle].
  - reflexivity.
  - symmetry. apply take_ge. exact Hle.
Qed.

Lemma addSearchHistoryEntry_empty w :
  addSearchHistoryEntry toLowerCase [] w = Returned tt w.
Proof. reflexivity. Qed.

(** C6 (adding a search-history entry).  For every non-empty [query] and
    every earlier history, [addSearchHistoryEntry query] persists [query]
    followed by the earlier entries that differ from it when both are
    lower-cased, cut to the first 100 entries, so at most 100 entries are
    kept; with the empty query it returns without touching anything. *)
Theorem addSearchHistoryEntry_moves_to_front (w : World) :
  (forall query : jsstring, query <> [] ->
     exists w',
       addSearchHistoryEntry toLowerCase query w = Returned tt w'
       /\ persistedSearchHistory w' =
          take 100 (query :: List.filter
                               (fun item => negb (JsString.eqb (toLowerCase item)
                                                               (toLowerCase query)))
                               (persistedSearchHistory w))
       /\ (length (persistedSearchHistory w') <= 100)%nat)
  /\ (exists w', addSearchHistoryEntry toLowerCase [] w = Returned tt w'
                 /\ persistedSearchHistory w' = persistedSearchHistory w
                 /\ w' = w).
Proof.
  split.
  - intros query Hq. eexists.
    rewrite addSearchHistoryEntry_returns by (destruct query; [contradiction|reflexivity]).
    split; [reflexivity|].
    rewrite (persistedSearchHistory_saved _ _ (eq_trans (lookup_stored _ _ _ _)
                                                       (decide_True _ _ eq_refl))).
    split; [reflexivity|]. rewrite length_take. unfold MAX_HISTORY_SIZE. lia.
  - exists w. rewrite addSearchHistoryEntry_empty. auto.
Qed.

End SearchHistoryFacts.

(** * Facts: the error classifier and the title generator *)

Section ClassifierFacts.

Lemma instanceofError_handleApiError error context :
  instanceofError (handleApiError error context) = true.
Proof.
  unfold handleApiError.
  repeat match goal with |- context [if ?b then _ else _] => destruct b end; reflexivity.
Qed.

Lemma head_billingMessage context : head (billingMessage context) = Some 65.
Proof. reflexivity. Qed.

Lemma head_unexpectedMessage context : head (unexpectedMessage context) = Some 68.
Proof. reflexivity. Qed.

Lemma generateImage_throws_classified prompt script w e w' :
  generateImage prompt script w = Thrown e w' ->
  exists raw, e = handleApiError raw (js "geração de imagem").
Proof.
  unfold generateImage, tryCatch, call, bind, emit, modify, await.
  destruct script as [[bytes|]|raw|]; cbn.
  - destruct (truthy bytes); cbn; [discriminate|].
    intros H. injection H as <- _. eauto.
  - intros H. injection H as <- _. eauto.
  - intros H. injection H as <- _. eauto.
  - discriminate.
Qed.

Lemma tryCatch_rethrow {A : Type} (body : Async A) (f : Exception -> Exception) w e w' :
  tryCatch body (fun error => throw (f error)) w = Thrown e w' ->
  exists raw, e = f raw.
Proof.
  unfold tryCatch, throw. destruct (body w) as [a w1|raw w1|w1]; try discriminate.
  intros H. injection H as <- _. eauto.
Qed.

End ClassifierFacts.

(** C8 (amended).  [handleApiError] decides by the extracted message alone,
    and the first pattern that occurs wins: "billed users" gives a
    [BillingError]; otherwise "API key not valid" gives the invalid-key
    error; otherwise "quota" gives the quota error; otherwise the generic
    error.  The four results are told apart by class and message, and what
    [generateImage], [generateVideo] and [generateContentStream] throw is
    always a result of [handleApiError]. *)
Theorem handleApiError_first_match (error : Exception) (context : jsstring) :
  let errorMessage := extractMessage error in
  let billing := includes (js "billed users") errorMessage in
  let credential := includes (js "API key not valid") errorMessage in
  let quota := includes (js "quota") errorMessage in
  (billing = true ->
   handleApiError error context = newBillingError (billingMessage context))
  /\ (billing = false -> credential = true ->
      handleApiError error context = newError invalidKeyMessage)
  /\ (billing = false -> credential = false -> quota = true ->
      handleApiError error context = newError quotaMessage)
  /\ (billing = false -> credential = false -> quota = false ->
      handleApiError error context = newError (unexpectedMessage context))
  /\ (instanceofBillingError (newBillingError (billingMessage context)) = true
      /\ instanceofBillingError (newError invalidKeyMessage) = false
      /\ invalidKeyMessage <> quotaMessage
      /\ invalidKeyMessage <> unexpectedMessage context
      /\ quotaMessage <> unexpectedMessage context)
  /\ (forall prompt script w e w',
        generateImage prompt script w = Thrown e w' ->
        exists raw, e = handleApiError raw (js "geração de imagem"))
  /\ (forall key prompt script w e w',
        generateVideo key prompt script w = Thrown e w' ->
        exists raw, e = handleApiError raw (js "geração de vídeo"))
  /\ (forall prompt history imagePart language script e,
        snd (generateContentStream prompt history imagePart language script) = Rejected e ->
        exists raw, e = handleApiError raw (js "resposta do chat")).
Proof.
  cbv zeta. unfold handleApiError.
  repeat split.
  - intros ->. reflexivity.
  - intros -> ->. reflexivity.
  - intros -> -> ->. reflexivity.
  - intros -> -> ->. reflexivity.
  - vm_compute. discriminate.
  - intros H. apply (f_equal head) in H. vm_compute in H. discriminate.
  - intros H. apply (f_equal head) in H. vm_compute in H. discriminate.
  - intros prompt script w e w'. apply generateImage_throws_classified.
  - intros key prompt script w e w'. unfold generateVideo. apply tryCatch_rethrow.
  - intros prompt history imagePart language script e.
    unfold generateContentStream. cbn [snd].
    destruct (ending script) as [u|raw|]; try discriminate.
    intros H. injection H as <-. eauto.
Qed.

Section TitleFacts.















Lemma generateChatTitle_run firstMessage language script :
  exists c, isTitleCall (Call c) = true /\
    forall w,
    generateChatTitle firstMessage language script w =
    match script with
    | Fulfilled (Some t) =>
      let cleaned := stripSurrounding (stripTitlePrefix (trim t)) in
      Returned (if truthy cleaned then cleaned else fallbackTitle language)
               (logged (Call c) w)
    | Fulfilled None | Rejected _ => Returned (fallbackTitle language) (logged (Call c) w)
    | NeverSettles => Pending (logged (Call c) w)
    end.
Proof.
  eexists. split; [|intros w; destruct script as [[t|]|e|]; reflexivity]. reflexivity.
Qed.

Lemma generateChatTitle_settles firstMessage language script :
  script <> NeverSettles ->
  exists t c, isTitleCall (Call c) = true /\
    forall w, generateChatTitle firstMessage language script w
              = Returned t (logged (Call c) w).
Proof.
  intros Hs. destruct (generateChatTitle_run firstMessage language script) as (c & Hc & Hrun).
  destruct script as [[t|]|e|]; [eexists; exists c; split; [exact Hc|exact Hrun] .. |].
  contradiction.
Qed.

End TitleFacts.


(** * Facts: the guards of a chat turn *)

(** C10 (empty send).  In every world, [handleSendMessage] with empty text
    and no attachment returns at once and leaves the world as it was: the
    sessions, what is persisted under both keys, the loading and streaming
    state, and the log of effects (nothing is stored, no provider call). *)
Theorem handleSendMessage_empty_is_noop (toLowerCase : jsstring -> jsstring)
    (titleScript : Settled (option jsstring)) (chatScript : ChatScript) (w : World) :
  handleSendMessage toLowerCase [] None titleScript chatScript w = Returned tt w.
Proof.
  unfold handleSendMessage.
  destruct (activeSessionId (state w)) as [j|]; [|reflexivity].
  destruct (isLoading (state w) || negb (truthy j)); reflexivity.
Qed.

(** * Facts: properties kept by every step of a handler *)

Section Steps.

Variable R : World -> World -> Prop.
Hypothesis R_refl : forall w, R w w.
Hypothesis R_trans : forall w1 w2 w3, R w1 w2 -> R w2 w3 -> R w1 w3.

Lemma steps_ret {A : Type} (a : A) : steps R (ret a).
Proof using R_refl R_trans. intros w. apply R_refl. Qed.

Lemma steps_throw {A : Type} (e : Exception) : steps R (@throw A e).
Proof using R_refl R_trans. intros w. apply R_refl. Qed.

Lemma steps_await {A : Type} (p : Settled A) : steps R (await p).
Proof using R_refl R_trans. intros w. destruct p; apply R_refl. Qed.

Lemma steps_getItem key : steps R (getItem key).
Proof using R_refl R_trans. intros w. apply R_refl. Qed.

Lemma steps_modify (f : World -> World) : (forall w, R w (f w)) -> steps R (modify f).
Proof using R_refl R_trans. intros H w. apply H. Qed.

Lemma steps_bind {A B : Type} (m : Async A) (k : A -> Async B) :
  steps R m -> (forall a, steps R (k a)) -> steps R (bind m k).
Proof using R_refl R_trans.
  intros Hm Hk w. unfold bind. specialize (Hm w).
  destruct (m w) as [a w1|e w1|w1]; cbn in *; [|exact Hm|exact Hm].
  eapply R_trans; [exact Hm | apply Hk].
Qed.

Lemma steps_tryCatch {A : Type} (body : Async A) (handler : Exception -> Async A) :
  steps R body -> (forall e, steps R (handler e)) -> steps R (tryCatch body handler).
Proof using R_refl R_trans.
  intros Hb Hh w. unfold tryCatch. specialize (Hb w).
  destruct (body w) as [a w1|e w1|w1]; cbn in *; [exact Hb| |exact Hb].
  eapply R_trans; [exact Hb | apply Hh].
Qed.

Lemma steps_tryFinally {A : Type} (body : Async A) (cleanup : Async unit) :
  steps R body -> steps R cleanup -> steps R (tryFinally body cleanup).
Proof using R_refl R_trans.
  intros Hb Hc w. unfold tryFinally. specialize (Hb w).
  destruct (body w) as [a w1|e w1|w1]; cbn [worldOf] in *; [| |exact Hb].
  - eapply R_trans; [exact Hb|]. apply (steps_bind cleanup (fun _ => ret a) Hc).
    intros _. apply steps_ret.
  - eapply R_trans; [exact Hb|]. apply (steps_bind cleanup (fun _ => throw e) Hc).
    intros _. apply steps_throw.
Qed.

Lemma steps_closure {A : Type} (body : World -> Async A) :
  (forall w0, steps R (body w0)) -> steps R (fun w0 => body w0 w0).
Proof using R_refl R_trans. intros H w. apply H. Qed.

End Steps.

Ltac head_of t :=
  lazymatch t with
  | ?f _ => head_of f
  | _ => t
  end.

(** [steps R m] by the structure of [m]: [prim] closes the goals about one
    primitive step, [rec] those about the loops and about handlers already
    covered. *)
Ltac frame_with rf tr prim rec :=
  repeat (cbv beta zeta;
    lazymatch goal with
    | |- forall _, _ => intro
    | |- steps _ (ret _) => apply (steps_ret _ rf tr)
    | |- steps _ (throw _) => apply (steps_throw _ rf tr)
    | |- steps _ (await _) => apply (steps_await _ rf tr)
    | |- steps _ (getItem _) => apply (steps_getItem _ rf tr)
    | |- steps _ (modify _) => apply (steps_modify _ rf tr); intro; cbv beta; prim
    | |- steps _ (bind _ _) => apply (steps_bind _ rf tr)
    | |- steps _ (tryCatch _ _) => apply (steps_tryCatch _ rf tr)
    | |- steps _ (tryFinally _ _) => apply (steps_tryFinally _ rf tr)
    | |- steps _ (match ?x with _ => _ end) => destruct x
    | |- steps _ (consume _ _) => rec
    | |- steps _ (poll _ _) => rec
    | |- steps _ (handleSendMessage _ _ _ _ _) => rec
    | |- steps _ (handleNewSession _) => rec
    | |- steps _ ?m => let h := head_of m in unfold h
    end).

(** A handler: the guard returns the world as it is, or the body runs. *)
Ltac handler rf :=
  intros ?w0; cbv beta;
  repeat lazymatch goal with
  | |- ?R ?w (worldOf (match ?x with _ => _ end)) => destruct x
  | |- ?R ?w (worldOf (Returned _ ?w)) => apply rf
  | |- ?R ?w (worldOf (?m ?w)) =>
    let H := fresh in enough (steps R m) as H by exact (H w)
  end.

Section Frames.

Variable toLowerCase : jsstring -> jsstring.
Variable API_KEY : jsstring.

Variable R : World -> World -> Prop.
Hypothesis R_refl : forall w, R w w.
Hypothesis R_trans : forall w1 w2 w3, R w1 w2 -> R w2 w3 -> R w1 w3.
Hypothesis R_setState : forall (a : AppState) w,
  isImageGenAvailable a = isImageGenAvailable (state w) ->
  isVideoGenAvailable a = isVideoGenAvailable (state w) ->
  R w (withState a w).
Hypothesis R_stored : forall key value w, R w (stored key value w).
Hypothesis R_logged : forall e w,
  isImageCall e = false -> isVideoCall e = false -> R w (logged e w).

Ltac prim :=
  idtac;
  lazymatch goal with
  | |- R ?w ?w => apply R_refl
  | |- R ?w (stored _ _ ?w) => apply R_stored
  | |- R ?w (logged _ ?w) => apply R_logged; reflexivity
  | |- R ?w (withState _ ?w) => apply R_setState; reflexivity
  end.

Lemma frame_consume fragments : forall fullResponse, steps R (consume fragments fullResponse).
Proof using R_refl R_trans R_setState.
  induction fragments as [|chunk rest IH]; intro; cbn [consume];
    frame_with R_refl R_trans prim ltac:(apply IH).
Qed.

Lemma frame_handleSendMessage messageText imageFile titleScript chatScript :
  steps R (handleSendMessage toLowerCase messageText imageFile titleScript chatScript).
Proof using R_refl R_trans R_setState R_stored R_logged.
  unfold handleSendMessage. handler R_refl.
  frame_with R_refl R_trans prim ltac:(apply frame_consume).
Qed.

Lemma frame_handleNewSession now : steps R (handleNewSession now).
Proof using R_refl R_trans R_setState R_stored R_logged.
  unfold handleNewSession. frame_with R_refl R_trans prim fail.
Qed.

Ltac frame :=
  frame_with R_refl R_trans prim
    ltac:(first [apply frame_consume | apply frame_handleSendMessage
                | apply frame_handleNewSession]).

Lemma frame_handleStudy content titleScript chatScript :
  steps R (handleStudy toLowerCase content titleScript chatScript).
Proof using R_refl R_trans R_setState R_stored R_logged. unfold handleStudy. frame. Qed.

Lemma frame_handleLearn content titleScript chatScript :
  steps R (handleLearn toLowerCase content titleScript chatScript).
Proof using R_refl R_trans R_setState R_stored R_logged. unfold handleLearn. frame. Qed.

Lemma frame_handleDeleteSession sessionId now : steps R (handleDeleteSession sessionId now).
Proof using R_refl R_trans R_setState R_stored R_logged.
  unfold handleDeleteSession. handler R_refl. frame.
Qed.

Lemma frame_handleClearAllHistory now : steps R (handleClearAllHistory now).
Proof using R_refl R_trans R_setState R_stored R_logged.
  unfold handleClearAllHistory. frame.
Qed.

Lemma frame_onSelectSession sessionId : steps R (onSelectSession sessionId).
Proof using R_refl R_trans R_setState R_stored R_logged. unfold onSelectSession. frame. Qed.

Lemma frame_handleLanguageChange lang : steps R (handleLanguageChange lang).
Proof using R_refl R_trans R_setState R_stored R_logged.
  unfold handleLanguageChange. frame.
Qed.

Lemma frame_handleLogin email' : steps R (handleLogin toLowerCase email').
Proof using R_refl R_trans R_setState R_stored R_logged. unfold handleLogin. frame. Qed.

Lemma frame_handleSignup email' : steps R (handleSignup toLowerCase email').
Proof using R_refl R_trans R_setState R_stored R_logged. unfold handleSignup. frame. Qed.

Lemma frame_handleGoogleLogin : steps R handleGoogleLogin.
Proof using R_refl R_trans R_setState R_stored R_logged. unfold handleGoogleLogin. frame. Qed.

Lemma frame_handleLogout : steps R handleLogout.
Proof using R_refl R_trans R_setState R_stored R_logged. unfold handleLogout. frame. Qed.

Lemma frame_onMenuClick : steps R onMenuClick.
Proof using R_refl R_trans R_setState R_stored R_logged.
  unfold onMenuClick. handler R_refl. frame.
Qed.

(** Setting a cell other than the two availability switches. *)
Lemma frame_setState (f : AppState -> AppState) :
  (forall a, isImageGenAvailable (f a) = isImageGenAvailable a) ->
  (forall a, isVideoGenAvailable (f a) = isVideoGenAvailable a) ->
  steps R (setState f).
Proof using R_refl R_trans R_setState R_stored R_logged.
  intros Hi Hv w. unfold setState, modify. cbn [worldOf]. apply R_setState; [apply Hi|apply Hv].
Qed.

(** An action that is none of the two generation turns. *)
Lemma frame_perform a :
  (forall prompt script, a <> GenerateImage prompt script) ->
  (forall prompt script, a <> GenerateVideo prompt script) ->
  steps R (perform toLowerCase API_KEY a).
Proof using R_refl R_trans R_setState R_stored R_logged.
  intros Hi Hv. destruct a; cbn [perform];
    lazymatch goal with
    | |- steps _ (handleGenerateImage _ _ _) => exfalso; eapply Hi; reflexivity
    | |- steps _ (handleGenerateVideo _ _ _ _) => exfalso; eapply Hv; reflexivity
    | |- steps _ (handleSendMessage _ _ _ _ _) => apply frame_handleSendMessage
    | |- steps _ (handleStudy _ _ _ _) => apply frame_handleStudy
    | |- steps _ (handleLearn _ _ _ _) => apply frame_handleLearn
    | |- steps _ (handleNewSession _) => apply frame_handleNewSession
    | |- steps _ (handleDeleteSession _ _) => apply frame_handleDeleteSession
    | |- steps _ (handleClearAllHistory _) => apply frame_handleClearAllHistory
    | |- steps _ (onSelectSession _) => apply frame_onSelectSession
    | |- steps _ (handleLanguageChange _) => apply frame_handleLanguageChange
    | |- steps _ handleLogout => apply frame_handleLogout
    | |- steps _ onMenuClick => apply frame_onMenuClick
    | |- steps _ (setState _) => apply frame_setState; reflexivity
    | |- steps _ (bind (handleLogin _ _) _) =>
      apply (steps_bind _ R_refl R_trans); [apply frame_handleLogin|intro; frame]
    | |- steps _ (bind (handleSignup _ _) _) =>
      apply (steps_bind _ R_refl R_trans); [apply frame_handleSignup|intro; frame]
    | |- steps _ (bind handleGoogleLogin _) =>
      apply (steps_bind _ R_refl R_trans); [apply frame_handleGoogleLogin|intro; frame]
    end.
Qed.

Section ImageTurn.

Hypothesis R_imageFlag : forall v w, R w (withState (setIsImageGenAvailable v (state w)) w).
Hypothesis R_imageCall : forall m p w, R w (logged (Call (GenerateImages m p)) w).

Ltac primImage :=
  idtac;
  lazymatch goal with
  | |- R ?w (withState (setIsImageGenAvailable _ _) ?w) => apply R_imageFlag
  | |- R ?w (logged (Call (GenerateImages _ _)) ?w) => apply R_imageCall
  | |- _ => prim
  end.

Lemma frame_handleGenerateImage prompt script :
  steps R (handleGenerateImage toLowerCase prompt script).
Proof using R_refl R_trans R_setState R_stored R_logged R_imageFlag R_imageCall.
  unfold handleGenerateImage. handler R_refl.
  frame_with R_refl R_trans primImage fail.
Qed.

End ImageTurn.

Section VideoTurn.

Hypothesis R_videoFlag : forall v w, R w (withState (setIsVideoGenAvailable v (state w)) w).
Hypothesis R_videoCall : forall e w, isVideoCall e = true -> R w (logged e w).

Ltac primVideo :=
  idtac;
  lazymatch goal with
  | |- R ?w (withState (setIsVideoGenAvailable _ _) ?w) => apply R_videoFlag
  | |- R ?w (logged (Call (GenerateVideos _ _)) ?w) => apply R_videoCall; reflexivity
  | |- R ?w (logged (Call GetVideosOperation) ?w) => apply R_videoCall; reflexivity
  | |- _ => prim
  end.

Lemma frame_poll answers : forall operation, steps R (poll operation answers).
Proof using R_refl R_trans R_logged R_videoCall R_setState R_stored.
  induction answers as [|answer rest IH]; intro; cbn [poll];
    frame_with R_refl R_trans primVideo ltac:(apply IH).
Qed.

Lemma frame_handleGenerateVideo prompt script :
  steps R (handleGenerateVideo toLowerCase API_KEY prompt script).
Proof using R_refl R_trans R_setState R_stored R_logged R_videoFlag R_videoCall.
  unfold handleGenerateVideo. handler R_refl.
  frame_with R_refl R_trans primVideo ltac:(apply frame_poll).
Qed.

End VideoTurn.

End Frames.

(** * Facts: the availability switches *)

Section WorldFacts.

Lemma state_stored key value w : state (stored key value w) = state w.
Proof. reflexivity. Qed.

Lemma state_logged e w : state (logged e w) = state w.
Proof. reflexivity. Qed.

Lemma log_logged e w : log (logged e w) = log w ++ [e].
Proof. reflexivity. Qed.

Lemma log_stored key value w : log (stored key value w) = log w ++ [SetItem key value].
Proof. reflexivity. Qed.

Lemma log_withState a w : log (withState a w) = log w.
Proof. reflexivity. Qed.

Lemma log_withLog l w : log (withLog l w) = l.
Proof. reflexivity. Qed.

Lemma localStorage_logged e w : localStorage (logged e w) = localStorage w.
Proof. reflexivity. Qed.

Lemma localStorage_withState a w : localStorage (withState a w) = localStorage w.
Proof. reflexivity. Qed.

Lemma grows_refl w : grows w w.
Proof. exists []. symmetry. apply app_nil_r. Qed.

Lemma grows_trans w1 w2 w3 : grows w1 w2 -> grows w2 w3 -> grows w1 w3.
Proof.
  intros [l1 H1] [l2 H2]. exists (l1 ++ l2). rewrite H2, H1. symmetry. apply app_assoc.
Qed.

Lemma grows_setState a w : grows w (withState a w).
Proof. exists []. rewrite log_withState. symmetry. apply app_nil_r. Qed.

Lemma grows_stored key value w : grows w (stored key value w).
Proof. eexists. apply log_stored. Qed.

Lemma grows_logged e w : grows w (logged e w).
Proof. eexists. apply log_logged. Qed.

Lemma unchangedImage_refl w : unchangedImage w w.
Proof. split; reflexivity. Qed.

Lemma unchangedImage_trans w1 w2 w3 :
  unchangedImage w1 w2 -> unchangedImage w2 w3 -> unchangedImage w1 w3.
Proof. intros [H1 H2] [H3 H4]. split; congruence. Qed.

Lemma unchangedImage_setState a w :
  isImageGenAvailable a = isImageGenAvailable (state w) -> unchangedImage w (withState a w).
Proof. intros H. split; [exact H | reflexivity]. Qed.

Lemma unchangedImage_logged e w : isImageCall e = false -> unchangedImage w (logged e w).
Proof.
  intros H. split; [reflexivity|].
  rewrite log_logged, List.filter_app. cbn [List.filter]. rewrite H. apply app_nil_r.
Qed.

Lemma unchangedImage_stored key value w : unchangedImage w (stored key value w).
Proof.
  split; [reflexivity|].
  rewrite log_stored, List.filter_app. cbn. apply app_nil_r.
Qed.

Lemma unchangedVideo_refl w : unchangedVideo w w.
Proof. split; reflexivity. Qed.

Lemma unchangedVideo_trans w1 w2 w3 :
  unchangedVideo w1 w2 -> unchangedVideo w2 w3 -> unchangedVideo w1 w3.
Proof. intros [H1 H2] [H3 H4]. split; congruence. Qed.

Lemma unchangedVideo_setState a w :
  isVideoGenAvailable a = isVideoGenAvailable (state w) -> unchangedVideo w (withState a w).
Proof. intros H. split; [exact H | reflexivity]. Qed.

Lemma unchangedVideo_logged e w : isVideoCall e = false -> unchangedVideo w (logged e w).
Proof.
  intros H. split; [reflexivity|].
  rewrite log_logged, List.filter_app. cbn [List.filter]. rewrite H. apply app_nil_r.
Qed.

Lemma unchangedVideo_stored key value w : unchangedVideo w (stored key value w).
Proof.
  split; [reflexivity|].
  rewrite log_stored, List.filter_app. cbn. apply app_nil_r.
Qed.

Lemma video_call_is_no_image_call e : isVideoCall e = true -> isImageCall e = false.
Proof. destruct e as [k v|[]|ms]; cbn; congruence. Qed.

End WorldFacts.

(** The trace of a world built by the primitive steps. *)
Ltac traces :=
  repeat first [rewrite log_withState | rewrite log_stored | rewrite log_logged
               | rewrite log_withLog];
  rewrite <- ?app_assoc; cbn [Datatypes.app]; reflexivity.

Section ActionFrames.

Variable toLowerCase : jsstring -> jsstring.
Variable API_KEY : jsstring.

Lemma perform_grows a : steps grows (perform toLowerCase API_KEY a).
Proof.
  pose proof grows_refl as Hr. pose proof grows_trans as Ht.
  assert (forall (a : AppState) w,
            isImageGenAvailable a = isImageGenAvailable (state w) ->
            isVideoGenAvailable a = isVideoGenAvailable (state w) ->
            grows w (withState a w)) as Hs by (intros; apply grows_setState).
  assert (forall e w, isImageCall e = false -> isVideoCall e = false -> grows w (logged e w))
    as Hl by (intros; apply grows_logged).
  pose proof grows_stored as Hst.
  destruct a as [| prompt script | prompt script | | | | | | | | | | | | | | | | | | | | ].
  2: { cbn [perform]. apply frame_handleGenerateImage;
         auto using grows_stored, grows_logged, grows_setState. }
  2: { cbn [perform]. apply frame_handleGenerateVideo;
         auto using grows_stored, grows_logged, grows_setState. }
  all: apply frame_perform; try assumption; discriminate.
Qed.

Lemma handleGenerateImage_unavailable prompt script w :
  isImageGenAvailable (state w) = false ->
  handleGenerateImage toLowerCase prompt script w = Returned tt w.
Proof.
  intros H. unfold handleGenerateImage. rewrite H.
  destruct (activeSessionId (state w)); [|reflexivity].
  cbn [negb]. rewrite orb_true_r. reflexivity.
Qed.

Lemma handleGenerateVideo_unavailable prompt script w :
  isVideoGenAvailable (state w) = false ->
  handleGenerateVideo toLowerCase API_KEY prompt script w = Returned tt w.
Proof.
  intros H. unfold handleGenerateVideo. rewrite H.
  destruct (activeSessionId (state w)); [|reflexivity].
  cbn [negb]. rewrite orb_true_r. reflexivity.
Qed.

Lemma perform_staysOffImage a : steps staysOffImage (perform toLowerCase API_KEY a).
Proof.
  pose proof unchangedImage_refl as Hr. pose proof unchangedImage_trans as Ht.
  assert (forall (a : AppState) w,
            isImageGenAvailable a = isImageGenAvailable (state w) ->
            isVideoGenAvailable a = isVideoGenAvailable (state w) ->
            unchangedImage w (withState a w)) as Hs
    by (intros; apply unchangedImage_setState; assumption).
  assert (forall e w, isImageCall e = false -> isVideoCall e = false ->
                      unchangedImage w (logged e w)) as Hl
    by (intros; apply unchangedImage_logged; assumption).
  pose proof unchangedImage_stored as Hst.
  intros w Hoff.
  destruct a as [| prompt script | prompt script | | | | | | | | | | | | | | | | | | | | ].
  2: { cbn [perform]. rewrite handleGenerateImage_unavailable by exact Hoff. apply Hr. }
  2: { cbn [perform]. apply frame_handleGenerateVideo; try assumption.
       - intros. apply unchangedImage_setState. reflexivity.
       - intros. apply unchangedImage_logged, video_call_is_no_image_call. assumption. }
  all: apply frame_perform; try assumption; discriminate.
Qed.

Lemma perform_staysOffVideo a : steps staysOffVideo (perform toLowerCase API_KEY a).
Proof.
  pose proof unchangedVideo_refl as Hr. pose proof unchangedVideo_trans as Ht.
  assert (forall (a : AppState) w,
            isImageGenAvailable a = isImageGenAvailable (state w) ->
            isVideoGenAvailable a = isVideoGenAvailable (state w) ->
            unchangedVideo w (withState a w)) as Hs
    by (intros; apply unchangedVideo_setState; assumption).
  assert (forall e w, isImageCall e = false -> isVideoCall e = false ->
                      unchangedVideo w (logged e w)) as Hl
    by (intros; apply unchangedVideo_logged; assumption).
  pose proof unchangedVideo_stored as Hst.
  intros w Hoff.
  destruct a as [| prompt script | prompt script | | | | | | | | | | | | | | | | | | | | ].
  3: { cbn [perform]. rewrite handleGenerateVideo_unavailable by exact Hoff. apply Hr. }
  2: { cbn [perform]. apply frame_handleGenerateImage; try assumption.
       - intros. apply unchangedVideo_setState. reflexivity.
       - intros. apply unchangedVideo_logged. reflexivity. }
  all: apply frame_perform; try assumption; discriminate.
Qed.

Lemma performAll_staysOffImage actions : forall w,
  staysOffImage w (performAll toLowerCase API_KEY actions w).
Proof.
  induction actions as [|a rest IH]; intros w Hoff; cbn [performAll].
  - apply unchangedImage_refl.
  - pose proof (perform_staysOffImage a w Hoff) as H1.
    eapply unchangedImage_trans; [exact H1|].
    apply IH. destruct H1 as [-> _]. exact Hoff.
Qed.

Lemma performAll_staysOffVideo actions : forall w,
  staysOffVideo w (performAll toLowerCase API_KEY actions w).
Proof.
  induction actions as [|a rest IH]; intros w Hoff; cbn [performAll].
  - apply unchangedVideo_refl.
  - pose proof (perform_staysOffVideo a w Hoff) as H1.
    eapply unchangedVideo_trans; [exact H1|].
    apply IH. destruct H1 as [-> _]. exact Hoff.
Qed.

End ActionFrames.

(** * Facts: running a handler step by step *)

Ltac run :=
  cbn [bind ret throw modify setState emit call await tryCatch tryFinally updateMessages
       saveChatHistory setItem fst snd worldOf negb orb andb].

Lemma bind_run {A B : Type} (m : Async A) (k : A -> Async B) w a w1 :
  m w = Returned a w1 -> bind m k w = k a w1.
Proof. intros H. unfold bind. rewrite H. reflexivity. Qed.

Lemma bind_unfold {A B : Type} (m : Async A) (k : A -> Async B) w :
  bind m k w =
  match m w with
  | Returned a w' => k a w'
  | Thrown e w' => Thrown e w'
  | Pending w' => Pending w'
  end.
Proof. reflexivity. Qed.

Lemma tryCatch_unfold {A : Type} (body : Async A) (handler : Exception -> Async A) w :
  tryCatch body handler w =
  match body w with
  | Returned a w' => Returned a w'
  | Thrown e w' => handler e w'
  | Pending w' => Pending w'
  end.
Proof. unfold tryCatch. destruct (body w); reflexivity. Qed.

Lemma tryFinally_unfold {A : Type} (body : Async A) (cleanup : Async unit) w :
  tryFinally body cleanup w =
  match body w with
  | Returned a w' => (cleanup ;; ret a) w'
  | Thrown e w' => (cleanup ;; throw e) w'
  | Pending w' => Pending w'
  end.
Proof. reflexivity. Qed.

(** Expose the next step of a run that is applied to a world. *)
Ltac focus :=
  match goal with
  | |- context [tryFinally ?b ?c ?w] => rewrite (tryFinally_unfold b c w)
  | |- context [tryCatch ?b ?h ?w] => rewrite (tryCatch_unfold b h w)
  | |- context [bind ?m ?k ?w] => rewrite (bind_unfold m k w)
  end.

Ltac step_search :=
  match goal with
  | |- context [bind (addSearchHistoryEntry ?f ?q) ?k ?w] =>
    rewrite (bind_run (addSearchHistoryEntry f q) k w tt _
               (addSearchHistoryEntry_returns f q w eq_refl))
  end.

Ltac step_search_by H :=
  match goal with
  | |- context [bind (addSearchHistoryEntry ?f ?q) ?k ?w] =>
    rewrite (bind_run (addSearchHistoryEntry f q) k w tt _
               (addSearchHistoryEntry_returns f q w H))
  end.

Section TurnFacts.

Variable toLowerCase : jsstring -> jsstring.
Variable API_KEY : jsstring.

Lemma handleGenerateImage_billing w prompt script e sid :
  activeSessionId (state w) = Some sid ->
  truthy sid = true ->
  isLoading (state w) = false ->
  isImageGenAvailable (state w) = true ->
  (forall w1, exists w2, generateImage prompt script w1 = Thrown e w2) ->
  instanceofBillingError e = true ->
  exists w',
    handleGenerateImage toLowerCase prompt script w = Returned tt w'
    /\ isImageGenAvailable (state w') = false.
Proof.
  intros Ha Hsid Hl Hf Hthrow Hb.
  unfold handleGenerateImage. rewrite Ha, Hsid, Hl, Hf. run.
  step_search. run.
  repeat focus.
  match goal with |- context [generateImage prompt script ?w1] =>
    destruct (Hthrow w1) as [w2 ->] end.
  run. rewrite Hb. run.
  eexists. split; reflexivity.
Qed.

Lemma handleGenerateVideo_billing w prompt script e sid :
  activeSessionId (state w) = Some sid ->
  truthy sid = true ->
  isLoading (state w) = false ->
  isVideoGenAvailable (state w) = true ->
  (forall w1, exists w2, generateVideo API_KEY prompt script w1 = Thrown e w2) ->
  instanceofBillingError e = true ->
  exists w',
    handleGenerateVideo toLowerCase API_KEY prompt script w = Returned tt w'
    /\ isVideoGenAvailable (state w') = false.
Proof.
  intros Ha Hsid Hl Hf Hthrow Hb.
  unfold handleGenerateVideo. rewrite Ha, Hsid, Hl, Hf. run.
  step_search. run.
  repeat focus.
  match goal with |- context [generateVideo API_KEY prompt script ?w1] =>
    destruct (Hthrow w1) as [w2 ->] end.
  run. rewrite Hb. run.
  eexists. split; reflexivity.
Qed.

End TurnFacts.

(** C3 (availability switches go one way).  Both switches are on in the
    initial state.  An image turn whose provider call fails with a
    [BillingError] ends with [isImageGenAvailable] off, and likewise a video
    turn with [isVideoGenAvailable].  Once a switch is off, no sequence of
    operations of the controller turns it on again nor adds a call to that
    provider endpoint to the log, and a request for that feature returns at
    once leaving the world as it was. *)
Theorem availability_flags_are_one_way (toLowerCase : jsstring -> jsstring)
    (API_KEY : jsstring) :
  (forall stored, isImageGenAvailable (state (initialWorld stored)) = true
                  /\ isVideoGenAvailable (state (initialWorld stored)) = true)
  /\ (forall w prompt script e sid,
        activeSessionId (state w) = Some sid ->
        truthy sid = true ->
        isLoading (state w) = false ->
        isImageGenAvailable (state w) = true ->
        (forall w1, exists w2, generateImage prompt script w1 = Thrown e w2) ->
        instanceofBillingError e = true ->
        exists w', handleGenerateImage toLowerCase prompt script w = Returned tt w'
                   /\ isImageGenAvailable (state w') = false)
  /\ (forall w prompt script e sid,
        activeSessionId (state w) = Some sid ->
        truthy sid = true ->
        isLoading (state w) = false ->
        isVideoGenAvailable (state w) = true ->
        (forall w1, exists w2, generateVideo API_KEY prompt script w1 = Thrown e w2) ->
        instanceofBillingError e = true ->
        exists w', handleGenerateVideo toLowerCase API_KEY prompt script w = Returned tt w'
                   /\ isVideoGenAvailable (state w') = false)
  /\ (forall actions w,
        isImageGenAvailable (state w) = false ->
        let w' := performAll toLowerCase API_KEY actions w in
        isImageGenAvailable (state w') = false
        /\ List.filter isImageCall (log w') = List.filter isImageCall (log w))
  /\ (forall actions w,
        isVideoGenAvailable (state w) = false ->
        let w' := performAll toLowerCase API_KEY actions w in
        isVideoGenAvailable (state w') = false
        /\ List.filter isVideoCall (log w') = List.filter isVideoCall (log w))
  /\ (forall prompt script w,
        isImageGenAvailable (state w) = false ->
        handleGenerateImage toLowerCase prompt script w = Returned tt w)
  /\ (forall prompt script w,
        isVideoGenAvailable (state w) = false ->
        handleGenerateVideo toLowerCase API_KEY prompt script w = Returned tt w).
Proof.
  split; [|split; [|split; [|split; [|split; [|split]]]]].
  - intros stored. split; reflexivity.
  - apply handleGenerateImage_billing.
  - apply handleGenerateVideo_billing.
  - intros actions w Hoff.
    destruct (performAll_staysOffImage toLowerCase API_KEY actions w Hoff) as [H1 H2].
    cbv zeta. split; [congruence | exact H2].
  - intros actions w Hoff.
    destruct (performAll_staysOffVideo toLowerCase API_KEY actions w Hoff) as [H1 H2].
    cbv zeta. split; [congruence | exact H2].
  - apply handleGenerateImage_unavailable.
  - apply handleGenerateVideo_unavailable.
Qed.

(** * Facts: sessions, transcripts and what is persisted *)

Section SessionFacts.

Lemma persistedSessions_withState a w : persistedSessions (withState a w) = persistedSessions w.
Proof. apply persistedSessions_lookup. reflexivity. Qed.

Lemma persistedSessions_logged e w : persistedSessions (logged e w) = persistedSessions w.
Proof. apply persistedSessions_lookup. reflexivity. Qed.

Lemma persistedSessions_stored_other key value w :
  key <> CHAT_HISTORY_KEY ->
  persistedSessions (stored key value w) = persistedSessions w.
Proof.
  intros H. apply persistedSessions_lookup. rewrite lookup_stored.
  apply decide_False. exact H.
Qed.

Lemma ids_updatedSessions sessions0 sessionId newMessages :
  map id (updatedSessions sessions0 sessionId newMessages) = map id sessions0.
Proof.
  unfold updatedSessions. rewrite map_map. apply map_ext.
  intros s. destruct (JsString.eqb (id s) sessionId); reflexivity.
Qed.

Lemma transcripts_updatedSessions sessions0 sessionId newMessages :
  transcripts sessionId (updatedSessions sessions0 sessionId newMessages)
  = map (fun _ => newMessages) (transcripts sessionId sessions0).
Proof.
  unfold transcripts, updatedSessions.
  induction sessions0 as [|s rest IH]; [reflexivity|].
  cbn [map List.filter].
  destruct (JsString.eqb (id s) sessionId) eqn:E; cbn [id]; rewrite E; cbn [map messages];
    rewrite IH; reflexivity.
Qed.

Lemma ids_assignTitle sessionId t history :
  map id (assignTitle sessionId t history) = map id history.
Proof.
  induction history as [|s rest IH]; [reflexivity|]. cbn [assignTitle].
  destruct (JsString.eqb (id s) sessionId); cbn [map id]; [reflexivity|].
  rewrite IH. reflexivity.
Qed.

Lemma transcripts_assignTitle sessionId sessionId' t history :
  transcripts sessionId (assignTitle sessionId' t history) = transcripts sessionId history.
Proof.
  unfold transcripts.
  induction history as [|s rest IH]; [reflexivity|]. cbn [assignTitle].
  destruct (JsString.eqb (id s) sessionId'); cbn [List.filter id].
  - destruct (JsString.eqb (id s) sessionId); reflexivity.
  - destruct (JsString.eqb (id s) sessionId); cbn [map]; rewrite IH; reflexivity.
Qed.

Lemma assignTitle_absent sessionId t history :
  find (fun s => JsString.eqb (id s) sessionId) history = None ->
  assignTitle sessionId t history = history.
Proof.
  induction history as [|s rest IH]; [reflexivity|]. cbn [find assignTitle].
  destruct (JsString.eqb (id s) sessionId); [discriminate|].
  intros H. rewrite IH by exact H. reflexivity.
Qed.

Lemma updateSessionTitle_run sessionId t w :
  updateSessionTitle sessionId t w =
  Returned (assignTitle sessionId t (persistedSessions w))
    match find (fun s => JsString.eqb (id s) sessionId) (persistedSessions w) with
    | Some _ =>
      stored CHAT_HISTORY_KEY
        (JSON.stringify (sessionsToJson (assignTitle sessionId t (persistedSessions w)))) w
    | None => w
    end.
Proof.
  unfold updateSessionTitle. rewrite bind_unfold, getChatHistory_returns.
  destruct (find _ (persistedSessions w)) eqn:E; [reflexivity|].
  cbn [ret]. rewrite assignTitle_absent by exact E. reflexivity.
Qed.

Lemma withState_same w : withState (state w) w = w.
Proof. destruct w. reflexivity. Qed.

Lemma setStreamingMessage_same a : setStreamingMessage (streamingMessage a) a = a.
Proof. destruct a. reflexivity. Qed.

Lemma consume_run fragments : forall fullResponse w,
  exists streaming,
    consume fragments fullResponse w =
    Returned (fullResponse ++ concat fragments)
             (withState (setStreamingMessage streaming (state w)) w).
Proof.
  induction fragments as [|chunk rest IH]; intros fullResponse w.
  - exists (streamingMessage (state w)). cbn [consume concat ret].
    rewrite app_nil_r, setStreamingMessage_same, withState_same. reflexivity.
  - cbn [consume concat]. rewrite bind_unfold. cbn [setState modify].
    destruct (IH (fullResponse ++ chunk)
                 (withState (setStreamingMessage (Some (modelMessage (fullResponse ++ chunk)))
                                                 (state w)) w)) as [streaming ->].
    exists streaming. rewrite <- app_assoc. reflexivity.
Qed.

Lemma length_currentMessages w m :
  (length (currentMessages w m) =? 1)%nat = startsSession w.
Proof.
  unfold currentMessages, startsSession.
  destruct (activeSession w) as [s|]; [|reflexivity].
  rewrite length_app. cbn [length].
  destruct (length (messages s)) as [|n]; [reflexivity|].
  rewrite Nat.add_1_r. reflexivity.
Qed.

End SessionFacts.

(** * Facts: a chat turn *)

Section ChatTurn.

Variable toLowerCase : jsstring -> jsstring.

(** C2 (the committed text is the concatenation of the fragments).  A chat
    turn started in an active session that is not loading, whose stream
    yields its fragments and then completes: the transcript afterwards is
    the earlier messages, the user's message and, when the concatenation of
    the fragments in the order they were yielded is not empty, one model
    message whose text is that concatenation, with no image and no video;
    when it is empty no model message is appended.  What is persisted is
    the sessions of the state, and the loading and streaming state are
    cleared. *)
Theorem handleSendMessage_commits_concatenation
    (messageText : jsstring) (imageFile : option File)
    (titleScript : Settled (option jsstring)) (chatScript : ChatScript)
    (w : World) (sid : jsstring) :
  activeSessionId (state w) = Some sid ->
  truthy sid = true ->
  isLoading (state w) = false ->
  (forall file, imageFile = Some file -> exists read, fileToBase64 file = Fulfilled read) ->
  truthy (outgoingText messageText imageFile) = true ->
  (startsSession w = true -> titleScript <> NeverSettles) ->
  ending chatScript = Fulfilled tt ->
  let fragments := yielded (chunks chatScript) in
  let fullResponse := concat fragments in
  let committed :=
    if truthy fullResponse
    then [{| sender := model; text := fullResponse; imageUrl := None; videoUrl := None |}]
    else [] in
  let current :=
    currentMessages w
      {| sender := user; text := outgoingText messageText imageFile;
         imageUrl := option_map createObjectURL imageFile; videoUrl := None |} in
  exists w',
    handleSendMessage toLowerCase messageText imageFile titleScript chatScript w
    = Returned tt w'
    /\ transcripts sid (sessions (state w'))
       = map (fun _ => current ++ committed) (transcripts sid (sessions (state w)))
    /\ map id (sessions (state w')) = map id (sessions (state w))
    /\ persistedSessions w' = sessions (state w')
    /\ isLoading (state w') = false
    /\ streamingMessage (state w') = None.
Proof.
  intros Ha Hsid Hl Hfile Ht Htitle Hend. cbv zeta.
  unfold handleSendMessage. rewrite Ha, Hsid, Hl. cbn [negb orb].
  assert (exists imagePart,
    (match imageFile with
     | Some file =>
       read <- await (fileToBase64 file) ;;
       ret (Some (InlineData (fst read) (snd read)),
            if truthy messageText then messageText else js "Descreva esta imagem.")
     | None => ret (None, messageText)
     end) w = Returned (imagePart, outgoingText messageText imageFile) w) as [imagePart Hprep].
  { destruct imageFile as [file|]; [|eexists; reflexivity].
    destruct (Hfile file eq_refl) as [read ->]. eexists. reflexivity. }
  rewrite (bind_run _ _ _ _ _ Hprep). cbn [fst snd]. rewrite Ht. cbn [negb].
  step_search_by Ht. run.
  change (match activeSession w with
          | Some s => messages s ++ [?m]
          | None => [?m]
          end) with (currentMessages w m).
  change {| sender := user; text := outgoingText messageText imageFile;
            imageUrl := option_map createObjectURL imageFile; videoUrl := None |}
    with (outgoingMessage messageText imageFile).
  rewrite length_currentMessages.
  set (current := currentMessages w (outgoingMessage messageText imageFile)).
  set (U1 := updatedSessions (sessions (state w)) sid current).
  (* the world when the prologue is over *)
  match goal with
  | |- context [bind _ _ ?W] =>
    assert (sessions (state W) = U1) as HsW by reflexivity;
    assert (persistedSessions W = U1) as HpW
      by (rewrite !persistedSessions_withState; apply persistedSessions_stored_chat);
    set (W1 := W) in *; clearbody W1
  end.
  (* the title, when the turn is the first of its session *)
  match goal with
  | |- context [bind ?m ?k W1] =>
    assert (exists W2 U,
              m W1 = Returned tt W2
              /\ sessions (state W2) = U /\ persistedSessions W2 = U
              /\ transcripts sid U = transcripts sid U1
              /\ map id U = map id U1) as (W2 & U & Hrun & HsU & HpU & HtU & HiU);
      [|rewrite (bind_run m k W1 tt W2 Hrun); clear Hrun]
  end.
  { destruct (startsSession w) eqn:Hs.
    - destruct (generateChatTitle_settles (outgoingText messageText imageFile)
                  (language (state w)) titleScript (Htitle eq_refl))
        as (t & c & Hc & Htitled).
      rewrite bind_unfold, Htitled. rewrite bind_unfold, updateSessionTitle_run.
      cbn [setState modify]. do 2 eexists. split; [reflexivity|].
      rewrite persistedSessions_logged, HpW.
      split; [reflexivity|]. split.
      + rewrite persistedSessions_withState. destruct (find _ U1) eqn:Hfind.
        * apply persistedSessions_stored_chat.
        * rewrite persistedSessions_logged, HpW.
          cbn [state sessions withState setSessions].
          symmetry. apply assignTitle_absent, Hfind.
      + split; [apply transcripts_assignTitle | apply ids_assignTitle].
    - exists W1, U1. repeat split; assumption. }
  clear HsW HpW W1.
  (* the stream *)
  rewrite tryFinally_unfold, tryCatch_unfold. run.
  rewrite bind_unfold.
  match goal with
  | |- context [consume ?fs ?acc ?W] => destruct (consume_run fs acc W) as [streaming ->]
  end.
  unfold generateContentStream. cbn [fst snd]. rewrite Hend. run.
  cbn [Datatypes.app].
  destruct (truthy (concat (yielded (chunks chatScript)))) eqn:Hfull; run.
  - eexists. split; [reflexivity|].
    split; [apply transcripts_updatedSessions|].
    split; [apply ids_updatedSessions|].
    split; [|split; reflexivity].
    rewrite !persistedSessions_withState. apply persistedSessions_stored_chat.
  - eexists. split; [reflexivity|].
    cbn [state sessions withState setStreamingMessage setIsLoading].
    rewrite state_logged.
    split.
    { rewrite HsU, HtU. subst U1. rewrite transcripts_updatedSessions, app_nil_r. reflexivity. }
    split.
    { rewrite HsU, HiU. subst U1. apply ids_updatedSessions. }
    split; [|split; reflexivity].
    rewrite !persistedSessions_withState, persistedSessions_logged. congruence.
Qed.

End ChatTurn.

(** * Facts: a video turn *)

Section VideoFacts.

Lemma withLog_logged e w later :
  withLog (log (logged e w) ++ later) (logged e w) = withLog (log w ++ e :: later) w.
Proof. unfold logged, withLog. cbn. rewrite <- app_assoc. reflexivity. Qed.

Lemma withLog_nil w : withLog (log w ++ []) w = w.
Proof. destruct w. unfold withLog. cbn. rewrite app_nil_r. reflexivity. Qed.

Lemma logged_withLog e w : logged e w = withLog (log w ++ [e]) w.
Proof. reflexivity. Qed.

Ltac logs :=
  unfold logged, withLog; cbn [log state localStorage await ret throw Datatypes.app];
  rewrite <- ?app_assoc; reflexivity.

Lemma poll_run answers : forall operation,
  exists trace (result : Settled Operation),
    forallb isPollingEffect trace = true
    /\ forall w, poll operation answers w = await result (withLog (log w ++ trace) w).
Proof.
  induction answers as [|answer rest IH]; intros operation.
  - destruct (done operation) eqn:Hd.
    + exists [], (Fulfilled operation). split; [reflexivity|].
      intros w. cbn [poll]. rewrite Hd, withLog_nil. reflexivity.
    + exists [Timeout 10000; Call GetVideosOperation], NeverSettles. split; [reflexivity|].
      intros w. cbn [poll]. rewrite Hd. run. logs.
  - destruct (done operation) eqn:Hd.
    + exists [], (Fulfilled operation). split; [reflexivity|].
      intros w. cbn [poll]. rewrite Hd, withLog_nil. reflexivity.
    + destruct answer as [operation'|e|].
      * destruct (IH operation') as (trace & result & Htrace & Hrun).
        exists (Timeout 10000 :: Call GetVideosOperation :: trace), result.
        split; [exact Htrace|].
        intros w. cbn [poll]. rewrite Hd. run. rewrite Hrun, !withLog_logged. reflexivity.
      * exists [Timeout 10000; Call GetVideosOperation], (Rejected e). split; [reflexivity|].
        intros w. cbn [poll]. rewrite Hd. run. logs.
      * exists [Timeout 10000; Call GetVideosOperation], NeverSettles. split; [reflexivity|].
        intros w. cbn [poll]. rewrite Hd. run. logs.
Qed.

Lemma generateVideo_run API_KEY prompt script :
  exists trace (result : Settled jsstring),
    forallb isPollingEffect trace = true
    /\ forall w,
       generateVideo API_KEY prompt script w =
       await result
         (withLog (log w ++ Call (GenerateVideos (js "veo-2.0-generate-001") prompt) :: trace)
                  w).
Proof.
  unfold generateVideo.
  destruct (started script) as [operation|e|] eqn:Hs.
  - destruct (poll_run (checks script) operation) as (trace & result & Htrace & Hrun).
    destruct result as [final|e|].
    + destruct (truthyOpt (uri final)) eqn:Hu.
      * exists trace, (Fulfilled (default [] (uri final) ++ js "&key=" ++ API_KEY)).
        split; [exact Htrace|]. intros w.
        rewrite tryCatch_unfold. run. rewrite bind_unfold, Hrun. cbn [await ret].
        rewrite Hu, withLog_logged. reflexivity.
      * exists trace,
          (Rejected (handleApiError
                       (newError (js "A API não retornou um link de vídeo válido."))
                       (js "geração de vídeo"))).
        split; [exact Htrace|]. intros w.
        rewrite tryCatch_unfold. run. rewrite bind_unfold, Hrun. cbn [await ret].
        rewrite Hu, withLog_logged. reflexivity.
    + exists trace, (Rejected (handleApiError e (js "geração de vídeo"))).
      split; [exact Htrace|]. intros w.
      rewrite tryCatch_unfold. run. rewrite bind_unfold, Hrun. cbn [await throw].
      rewrite withLog_logged. reflexivity.
    + exists trace, NeverSettles.
      split; [exact Htrace|]. intros w.
      rewrite tryCatch_unfold. run. rewrite bind_unfold, Hrun. cbn [await].
      rewrite withLog_logged. reflexivity.
  - exists [], (Rejected (handleApiError e (js "geração de vídeo"))).
    split; [reflexivity|]. intros w. rewrite tryCatch_unfold. run. logs.
  - exists [], NeverSettles. split; [reflexivity|]. intros w.
    rewrite tryCatch_unfold. run. logs.
Qed.

End VideoFacts.

Section VideoTurn.

Variable toLowerCase : jsstring -> jsstring.
Variable API_KEY : jsstring.

(** C1 (amended).  A video turn that completes successfully, started in an
    active session that is not loading and has the video feature on: the
    pending placeholder is appended to the transcript and persisted before
    the provider is asked and polled, and on completion the final message
    carrying the video reference is written in its place.  The transcript
    afterwards is the earlier messages, the user's request and the final
    message; it is what is persisted; the placeholder is neither of the
    last two. *)
Theorem handleGenerateVideo_replaces_placeholder
    (prompt : jsstring) (script : VideoScript) (w : World) (sid url : jsstring) :
  activeSessionId (state w) = Some sid ->
  truthy sid = true ->
  isLoading (state w) = false ->
  isVideoGenAvailable (state w) = true ->
  (forall w1, exists w2, generateVideo API_KEY prompt script w1 = Returned url w2) ->
  let request := userRequest (js "Gerar vídeo: " ++ [34] ++ prompt ++ [34]) in
  let current := currentMessages w request in
  let written messages' :=
    SetItem CHAT_HISTORY_KEY
      (JSON.stringify (sessionsToJson (updatedSessions (sessions (state w)) sid messages'))) in
  exists w' searchValue polling,
    handleGenerateVideo toLowerCase API_KEY prompt script w = Returned tt w'
    /\ transcripts sid (sessions (state w'))
       = map (fun _ => current ++ [videoMessage prompt url])
             (transcripts sid (sessions (state w)))
    /\ persistedSessions w' = sessions (state w')
    /\ waitingMessage <> request
    /\ waitingMessage <> videoMessage prompt url
    /\ log w' = log w
                ++ [SetItem SEARCH_HISTORY_KEY searchValue;
                    written current;
                    written (current ++ [waitingMessage]);
                    Call (GenerateVideos (js "veo-2.0-generate-001") prompt)]
                ++ polling
                ++ [written (current ++ [videoMessage prompt url])]
    /\ forallb isPollingEffect polling = true
    /\ isLoading (state w') = false.
Proof.
  intros Ha Hsid Hl Hf Hok. cbv zeta.
  destruct (generateVideo_run API_KEY prompt script) as (trace & result & Htrace & Hrun).
  assert (result = Fulfilled url) as ->.
  { destruct (Hok w) as [w2 H2]. rewrite Hrun in H2.
    destruct result as [a|e|]; cbn [await ret throw] in H2;
      [injection H2 as -> _; reflexivity | discriminate H2 | discriminate H2]. }
  unfold handleGenerateVideo. rewrite Ha, Hsid, Hl, Hf. run. step_search. run.
  rewrite tryFinally_unfold, tryCatch_unfold, bind_unfold, Hrun. cbn [await ret]. run.
  eexists. eexists. exists trace. split; [reflexivity|].
  split; [apply transcripts_updatedSessions|].
  split; [rewrite !persistedSessions_withState; apply persistedSessions_stored_chat|].
  split; [discriminate|]. split; [discriminate|].
  split; [|split; [exact Htrace | reflexivity]].
  traces.
Qed.

End VideoTurn.

(** * Facts: the title request and the stream *)

Section TitleOrder.

Variable toLowerCase : jsstring -> jsstring.

Lemma tryFinally_emit {A : Type} (e : Effect) (k : unit -> Async A)
    (handler : Exception -> Async A) (cleanup : Async unit) w :
  tryFinally (tryCatch (bind (emit e) k) handler) cleanup w
  = tryFinally (tryCatch (k tt) handler) cleanup (logged e w).
Proof. rewrite !tryFinally_unfold, !tryCatch_unfold. reflexivity. Qed.

Ltac grows_prim :=
  idtac;
  lazymatch goal with
  | |- grows ?w ?w => apply grows_refl
  | |- grows ?w (stored _ _ ?w) => apply grows_stored
  | |- grows ?w (logged _ ?w) => apply grows_logged
  | |- grows ?w (withState _ ?w) => apply grows_setState
  end.

(** C4 (amended).  In a turn that is the session's first message, the title
    request comes before the stream: while it has not settled the turn is
    suspended with the loading state on and no stream requested; and once
    it settles, the log shows the title request, then the request for the
    stream, with no stream request before it. *)
Theorem handleSendMessage_awaits_title
    (messageText : jsstring) (imageFile : option File)
    (titleScript : Settled (option jsstring)) (chatScript : ChatScript)
    (w : World) (sid : jsstring) :
  activeSessionId (state w) = Some sid ->
  truthy sid = true ->
  isLoading (state w) = false ->
  (forall file, imageFile = Some file -> exists read, fileToBase64 file = Fulfilled read) ->
  truthy (outgoingText messageText imageFile) = true ->
  startsSession w = true ->
  (titleScript = NeverSettles ->
   exists w' searchValue chatValue titleCall,
     handleSendMessage toLowerCase messageText imageFile titleScript chatScript w
     = Pending w'
     /\ isTitleCall (Call titleCall) = true
     /\ log w' = log w ++ [SetItem SEARCH_HISTORY_KEY searchValue;
                           SetItem CHAT_HISTORY_KEY chatValue;
                           Call titleCall]
     /\ List.filter isStreamCall (log w') = List.filter isStreamCall (log w)
     /\ isLoading (state w') = true
     /\ streamingMessage (state w') = Some (modelMessage []))
  /\ (titleScript <> NeverSettles ->
      exists before titleCall between streamCall after,
        log (worldOf (handleSendMessage toLowerCase messageText imageFile titleScript
                                        chatScript w))
        = log w ++ before ++ Call titleCall :: between ++ Call streamCall :: after
        /\ isTitleCall (Call titleCall) = true
        /\ isStreamCall (Call streamCall) = true
        /\ List.filter isStreamCall (before ++ between) = []).
Proof.
  intros Ha Hsid Hl Hfile Ht Hfirst.
  unfold handleSendMessage. rewrite Ha, Hsid, Hl. cbn [negb orb].
  assert (exists imagePart,
    (match imageFile with
     | Some file =>
       read <- await (fileToBase64 file) ;;
       ret (Some (InlineData (fst read) (snd read)),
            if truthy messageText then messageText else js "Descreva esta imagem.")
     | None => ret (None, messageText)
     end) w = Returned (imagePart, outgoingText messageText imageFile) w) as [imagePart Hprep].
  { destruct imageFile as [file|]; [|eexists; reflexivity].
    destruct (Hfile file eq_refl) as [read ->]. eexists. reflexivity. }
  rewrite (bind_run _ _ _ _ _ Hprep). cbn [fst snd]. rewrite Ht. cbn [negb].
  step_search_by Ht. run.
  change (match activeSession w with
          | Some s => messages s ++ [?m]
          | None => [?m]
          end) with (currentMessages w m).
  rewrite length_currentMessages, Hfirst.
  destruct (generateChatTitle_run (outgoingText messageText imageFile)
              (language (state w)) titleScript) as (c & Hc & Htitled).
  split.
  - intros ->. rewrite bind_unfold, bind_unfold, Htitled.
    do 3 eexists. exists c. split; [reflexivity|]. split; [exact Hc|].
    assert (forall l : list Effect,
              l = log w ++ [SetItem SEARCH_HISTORY_KEY
                              (JSON.stringify
                                 (stringsToJson
                                    (take MAX_HISTORY_SIZE
                                       (outgoingText messageText imageFile
                                        :: List.filter
                                             (fun item =>
                                                negb (JsString.eqb (toLowerCase item)
                                                        (toLowerCase
                                                           (outgoingText messageText
                                                                         imageFile))))
                                             (persistedSearchHistory w)))));
                            SetItem CHAT_HISTORY_KEY
                              (JSON.stringify
                                 (sessionsToJson
                                    (updatedSessions (sessions (state w)) sid
                                       (currentMessages w
                                          {| sender := user;
                                             text := outgoingText messageText imageFile;
                                             imageUrl := option_map createObjectURL imageFile;
                                             videoUrl := None |}))));
                            Call c] ->
              List.filter isStreamCall l = List.filter isStreamCall (log w)) as Hnone.
    { intros l ->. rewrite List.filter_app. destruct c; try discriminate Hc.
      cbn. apply app_nil_r. }
    split; [|split; [apply Hnone|split; reflexivity]]; traces.
  - intros Hsettles. clear c Hc Htitled.
    destruct (generateChatTitle_settles (outgoingText messageText imageFile)
                (language (state w)) titleScript Hsettles) as (t & c & Hc & Htitled).
    rewrite bind_unfold, bind_unfold, Htitled. cbn beta iota.
    rewrite bind_unfold, updateSessionTitle_run. cbn beta iota.
    cbn [setState modify].
    rewrite tryFinally_emit.
    match goal with
    | |- context [worldOf (tryFinally ?b ?cl ?W)] =>
      assert (steps grows (tryFinally b cl)) as Hgrow;
        [|destruct (Hgrow W) as [after ->]]
    end.
    { frame_with grows_refl grows_trans grows_prim
        ltac:(apply (frame_consume grows grows_refl grows_trans);
              intros; apply grows_setState). }
    exists [SetItem SEARCH_HISTORY_KEY
              (JSON.stringify
                 (stringsToJson
                    (take MAX_HISTORY_SIZE
                       (outgoingText messageText imageFile
                        :: List.filter
                             (fun item =>
                                negb (JsString.eqb (toLowerCase item)
                                        (toLowerCase (outgoingText messageText imageFile))))
                             (persistedSearchHistory w)))));
            SetItem CHAT_HISTORY_KEY
              (JSON.stringify
                 (sessionsToJson
                    (updatedSessions (sessions (state w)) sid
                       (currentMessages w
                          {| sender := user;
                             text := outgoingText messageText imageFile;
                             imageUrl := option_map createObjectURL imageFile;
                             videoUrl := None |}))))],
           c.
    match goal with
    | |- context [match find ?f ?l with _ => _ end] => destruct (find f l)
    end.
    all: match goal with
         | |- context [logged (Call (fst (fst ?stream))) (withState _ (stored _ ?v _))] =>
           exists [SetItem CHAT_HISTORY_KEY v], (fst (fst stream)), after
         | |- context [logged (Call (fst (fst ?stream))) _] =>
           exists [], (fst (fst stream)), after
         end.
    all: (split; [|split; [exact Hc|split; reflexivity]]).
    all: traces.
Qed.

End TitleOrder.

(** * Scenarios *)

Import Example.

(** C1: the scenario of the specification, by the theorem. *)
Lemma video_scenario_by_theorem :
  exists w',
    handleGenerateVideo asciiToLowerCase key (js "a cat") (twoChecks resultUri) fresh
    = Returned tt w'
    /\ transcripts stamp (sessions (state w'))
       = [[userRequest (js "Gerar vídeo: " ++ [34] ++ js "a cat" ++ [34]);
           videoMessage (js "a cat") (resultUri ++ js "&key=" ++ key)]].
Proof.
  destruct (handleGenerateVideo_replaces_placeholder asciiToLowerCase key (js "a cat")
              (twoChecks resultUri) fresh stamp (resultUri ++ js "&key=" ++ key))
    as (w' & searchValue & polling & Hrun & Htranscripts & _).
  - vm_compute. reflexivity.
  - vm_compute. reflexivity.
  - vm_compute. reflexivity.
  - vm_compute. reflexivity.
  - intros w1. eexists. reflexivity.
  - exists w'. split; [exact Hrun|]. rewrite Htranscripts. vm_compute. reflexivity.
Defined.

(** C1: the placeholder is not in the transcript after a successful video
    turn. *)
Lemma video_turn_drops_placeholder :
  let w' := worldOf (handleGenerateVideo asciiToLowerCase key (js "a cat")
                                         (twoChecks resultUri) fresh) in
  handleGenerateVideo asciiToLowerCase key (js "a cat") (twoChecks resultUri) fresh
  = Returned tt w'
  /\ transcripts stamp (sessions (state w'))
     = [[userRequest (js "Gerar vídeo: " ++ [34] ++ js "a cat" ++ [34]);
         videoMessage (js "a cat") (resultUri ++ js "&key=" ++ key)]]
  /\ ~ In waitingMessage
          [userRequest (js "Gerar vídeo: " ++ [34] ++ js "a cat" ++ [34]);
           videoMessage (js "a cat") (resultUri ++ js "&key=" ++ key)].
Proof.
  cbv zeta. split; [vm_compute; reflexivity|]. split; [vm_compute; reflexivity|].
  intros [H|[H|[]]]; discriminate H.
Defined.

(** C2: the streaming scenario. *)
Lemma streaming_scenario_by_theorem :
  exists w',
    handleSendMessage asciiToLowerCase (js "Hello") None
                      (Fulfilled (Some (js "Title: Greeting"))) hiThere fresh
    = Returned tt w'
    /\ transcripts stamp (sessions (state w'))
       = [[{| sender := user; text := js "Hello"; imageUrl := None; videoUrl := None |};
           {| sender := model; text := js "Hi there"; imageUrl := None;
              videoUrl := None |}]].
Proof.
  destruct (handleSendMessage_commits_concatenation asciiToLowerCase (js "Hello") None
              (Fulfilled (Some (js "Title: Greeting"))) hiThere fresh stamp)
    as (w' & Hrun & Htranscripts & _).
  - vm_compute. reflexivity.
  - vm_compute. reflexivity.
  - vm_compute. reflexivity.
  - intros file H. discriminate H.
  - vm_compute. reflexivity.
  - intros _. discriminate.
  - reflexivity.
  - exists w'. split; [exact Hrun|]. rewrite Htranscripts. vm_compute. reflexivity.
Defined.

(** C3: after a billing failure, a later image request changes nothing. *)
Lemma image_flag_stays_off_by_theorem :
  let off := worldOf (handleGenerateImage asciiToLowerCase (js "a cat") (Rejected billedOnly)
                                          fresh) in
  let later := performAll asciiToLowerCase key
                 [GenerateImage (js "a dog") (Fulfilled (Some (js "iVBORw0KGgo=")));
                  NewSession (js "2024-01-02T00:00:00.000Z");
                  Logout; CreateImageModalOpen true;
                  GenerateImage (js "a bird") (Fulfilled (Some (js "iVBORw0KGgo=")))]
                 off in
  isImageGenAvailable (state off) = false
  /\ isImageGenAvailable (state later) = false
  /\ List.filter isImageCall (log later) = List.filter isImageCall (log off).
Proof.
  cbv zeta. split; [vm_compute; reflexivity|].
  destruct (availability_flags_are_one_way asciiToLowerCase key) as (_ & _ & _ & H & _).
  apply H. vm_compute. reflexivity.
Defined.

(** C4: when the title request settles, it is sent before the stream is
    requested. *)
Lemma title_precedes_stream_by_theorem :
  exists before titleCall between streamCall after,
    log (worldOf (handleSendMessage asciiToLowerCase (js "Hello") None
                                    (Fulfilled (Some (js "Title: Greeting"))) hiThere fresh))
    = log fresh ++ before ++ Call titleCall :: between ++ Call streamCall :: after
    /\ isTitleCall (Call titleCall) = true
    /\ isStreamCall (Call streamCall) = true
    /\ List.filter isStreamCall (before ++ between) = [].
Proof.
  destruct (handleSendMessage_awaits_title asciiToLowerCase (js "Hello") None
              (Fulfilled (Some (js "Title: Greeting"))) hiThere fresh stamp) as [_ H].
  - vm_compute. reflexivity.
  - vm_compute. reflexivity.
  - vm_compute. reflexivity.
  - intros file H. discriminate H.
  - vm_compute. reflexivity.
  - vm_compute. reflexivity.
  - apply H. discriminate.
Defined.

(** C4: while the title request is outstanding the stream is not requested
    and no fragment is consumed, whatever the provider would deliver. *)
Lemma stream_waits_for_title :
  let w' := worldOf (handleSendMessage asciiToLowerCase (js "Hello") None NeverSettles
                                       hiThere fresh) in
  handleSendMessage asciiToLowerCase (js "Hello") None NeverSettles hiThere fresh
  = Pending w'
  /\ List.filter isTitleCall (log w') <> []
  /\ List.filter isStreamCall (log w') = []
  /\ streamingMessage (state w') = Some (modelMessage [])
  /\ isLoading (state w') = true.
Proof.
  cbv zeta. split; [vm_compute; reflexivity|].
  split; [vm_compute; discriminate|].
  repeat split; vm_compute; reflexivity.
Defined.

(** C5: a clock reading that no stored session carries. *)
Lemma createNewSession_by_theorem :
  exists w',
    let existing := {| id := stamp; title := js "Trip to Japan";
                       messages := [userRequest (js "Plan a trip to Japan")] |} in
    let newSession :=
      {| id := js "2024-01-02T00:00:00.000Z"; title := js "Novo Chat"; messages := [] |} in
    createNewSession (js "2024-01-02T00:00:00.000Z") crowded = Returned newSession w'
    /\ persistedSessions w' = [newSession; existing]
    /\ Forall (fun s => id s <> id newSession) [existing].
Proof.
  destruct (createNewSession_inserts_at_head (js "2024-01-02T00:00:00.000Z")
              [{| id := stamp; title := js "Trip to Japan";
                  messages := [userRequest (js "Plan a trip to Japan")] |}] crowded)
    as (w' & Hrun & _ & Hstored & _ & _ & Hfresh & _).
  - vm_compute. reflexivity.
  - exists w'. cbv zeta. split; [exact Hrun|]. split; [exact Hstored|].
    apply Hfresh. vm_compute. intros [H|[]]. discriminate H.
Defined.

(** C5: a session created at the clock reading of a stored one takes its
    id. *)
Lemma createNewSession_repeats_id :
  let created := {| id := stamp; title := js "Novo Chat"; messages := [] |} in
  createNewSession stamp crowded
  = Returned created (worldOf (createNewSession stamp crowded))
  /\ In (id created) (map id (persistedSessions crowded)).
Proof.
  cbv zeta. split; [vm_compute; reflexivity|].
  vm_compute. left. reflexivity.
Defined.

(** C6: [add("Cat")] then [add("cat")]. *)
Lemma addSearchHistoryEntry_by_theorem :
  exists w',
    addSearchHistoryEntry asciiToLowerCase (js "cat") searched = Returned tt w'
    /\ persistedSearchHistory w' = [js "cat"].
Proof.
  destruct (proj1 (addSearchHistoryEntry_moves_to_front asciiToLowerCase searched) (js "cat"))
    as (w' & Hrun & Hhistory & _).
  - discriminate.
  - exists w'. split; [exact Hrun|]. rewrite Hhistory. vm_compute. reflexivity.
Defined.


(** C8: a quota error. *)
Lemma handleApiError_by_theorem :
  handleApiError quotaExhausted (js "resposta do chat") = newError quotaMessage.
Proof.
  pose proof (handleApiError_first_match quotaExhausted (js "resposta do chat")) as H.
  cbv zeta in H. destruct H as (_ & _ & H & _).
  apply H; vm_compute; reflexivity.
Defined.

(** C8: a message with the invalid-credential pattern and the billing
    pattern is answered with the billing error. *)
Lemma handleApiError_billing_comes_first :
  includes (js "API key not valid") (extractMessage keyAndBilling) = true
  /\ handleApiError keyAndBilling (js "resposta do chat")
     = newBillingError (billingMessage (js "resposta do chat"))
  /\ handleApiError keyAndBilling (js "resposta do chat") <> newError invalidKeyMessage.
Proof.
  split; [vm_compute; reflexivity|]. split; [vm_compute; reflexivity|].
  vm_compute. discriminate.
Defined.

(** C9: saving what was loaded writes the same text. *)
Lemma saveChatHistory_by_theorem :
  localStorage (worldOf ((history <- getChatHistory ;; saveChatHistory history) crowded))
  = localStorage crowded.
Proof.
  apply (proj2 (proj2 saveChatHistory_getChatHistory_roundtrip)
           [{| id := stamp; title := js "Trip to Japan";
               messages := [userRequest (js "Plan a trip to Japan")] |}]).
  vm_compute. reflexivity.
Defined.

(** * Further properties: the two stores *)

Section StoreFacts.

Lemma persistedSearchHistory_withState a w :
  persistedSearchHistory (withState a w) = persistedSearchHistory w.
Proof. apply persistedSearchHistory_lookup. reflexivity. Qed.

Lemma persistedSearchHistory_logged e w :
  persistedSearchHistory (logged e w) = persistedSearchHistory w.
Proof. apply persistedSearchHistory_lookup. reflexivity. Qed.

Lemma persistedSearchHistory_stored_other key value w :
  key <> SEARCH_HISTORY_KEY ->
  persistedSearchHistory (stored key value w) = persistedSearchHistory w.
Proof.
  intros H. apply persistedSearchHistory_lookup. rewrite lookup_stored.
  apply decide_False. exact H.
Qed.

Lemma persistedSearchHistory_stored_search history w :
  persistedSearchHistory
    (stored SEARCH_HISTORY_KEY (JSON.stringify (stringsToJson history)) w)
  = history.
Proof. apply persistedSearchHistory_saved. rewrite lookup_stored, decide_True; reflexivity. Qed.

Lemma persistedSessions_stored_search value w :
  persistedSessions (stored SEARCH_HISTORY_KEY value w) = persistedSessions w.
Proof. apply persistedSessions_stored_other. intros H. apply keys_distinct. symmetry. exact H. Qed.

Lemma persistedSearchHistory_stored_chat value w :
  persistedSearchHistory (stored CHAT_HISTORY_KEY value w) = persistedSearchHistory w.
Proof. apply persistedSearchHistory_stored_other. exact keys_distinct. Qed.

Lemma filter_all {A : Type} (p : A -> bool) (l : list A) :
  Forall (fun x => p x = true) l -> List.filter p l = l.
Proof.
  induction l as [|x l IH]; intros H; [reflexivity|].
  apply Forall_cons_1 in H as [Hx Hl]. cbn [List.filter]. rewrite Hx, IH by exact Hl.
  reflexivity.
Qed.

Lemma filter_kept {A : Type} (p : A -> bool) (l : list A) :
  Forall (fun x => p x = true) (List.filter p l).
Proof.
  apply List.Forall_forall. intros x Hx. apply List.filter_In in Hx. apply Hx.
Qed.

Lemma Forall_take' {A : Type} (P : A -> Prop) (n : nat) (l : list A) :
  Forall P l -> Forall P (take n l).
Proof.
  intros H. revert n. induction H as [|x l Hx Hl IH]; intros [|n]; cbn [take]; constructor;
    auto.
Qed.

Lemma deleteSession_run sessionId w :
  deleteSession sessionId w =
  let history :=
    List.filter (fun s => negb (JsString.eqb (id s) sessionId)) (persistedSessions w) in
  Returned history (stored CHAT_HISTORY_KEY (JSON.stringify (sessionsToJson history)) w).
Proof.
  unfold deleteSession. rewrite bind_unfold, getChatHistory_returns. reflexivity.
Qed.

Lemma createNewSession_run now w :
  createNewSession now w =
  let newSession := {| id := now; title := js "Novo Chat"; messages := [] |} in
  Returned newSession
    (stored CHAT_HISTORY_KEY
       (JSON.stringify (sessionsToJson (newSession :: persistedSessions w))) w).
Proof.
  unfold createNewSession. rewrite bind_unfold, getChatHistory_returns. reflexivity.
Qed.

Lemma deleteSearchHistoryEntry_run query w :
  deleteSearchHistoryEntry query w =
  let history :=
    List.filter (fun item => negb (JsString.eqb item query)) (persistedSearchHistory w) in
  Returned history (stored SEARCH_HISTORY_KEY (JSON.stringify (stringsToJson history)) w).
Proof.
  unfold deleteSearchHistoryEntry. rewrite bind_unfold, getSearchHistory_returns. reflexivity.
Qed.

Lemma differs_iff (a b : jsstring) : negb (JsString.eqb a b) = true <-> a <> b.
Proof. rewrite negb_true_iff. apply eqb_neq. Qed.

End StoreFacts.

(** X1 (search history, save then load).  For every list of strings and
    every world, [saveSearchHistory history] followed by [getSearchHistory]
    returns [history] itself, whatever code units the entries hold; loading
    and saving back leaves the stored list as it was. *)
Theorem saveSearchHistory_getSearchHistory_roundtrip :
  (forall (history : list jsstring) (w : World),
     (saveSearchHistory history ;; getSearchHistory) w
     = Returned history (worldOf (saveSearchHistory history w)))
  /\ (forall w : World,
        persistedSearchHistory
          (worldOf ((history <- getSearchHistory ;; saveSearchHistory history) w))
        = persistedSearchHistory w).
Proof.
  split.
  - intros history w. unfold bind at 1. rewrite saveSearchHistory_returns.
    rewrite getSearchHistory_returns, persistedSearchHistory_stored_search. reflexivity.
  - intros w. unfold bind. rewrite getSearchHistory_returns, saveSearchHistory_returns.
    apply persistedSearchHistory_stored_search.
Qed.

(** X2 (renaming a session).  When the stored collection holds a session of
    the given id, [updateSessionTitle] gives the new title to the first
    such session and to no other, keeps every id, every transcript and the
    order, stores the collection and returns it.  When no stored session has
    the id, it returns the collection and writes nothing. *)
Theorem updateSessionTitle_renames_first_match (sessionId title' : jsstring) (w : World) :
  (forall before s after,
     persistedSessions w = before ++ s :: after ->
     id s = sessionId ->
     Forall (fun x => id x <> sessionId) before ->
     let history :=
       before ++ {| id := id s; title := title'; messages := messages s |} :: after in
     exists w',
       updateSessionTitle sessionId title' w = Returned history w'
       /\ persistedSessions w' = history
       /\ state w' = state w)
  /\ (Forall (fun x => id x <> sessionId) (persistedSessions w) ->
      updateSessionTitle sessionId title' w = Returned (persistedSessions w) w).
Proof.
  assert (forall before rest,
            Forall (fun x => id x <> sessionId) before ->
            assignTitle sessionId title' (before ++ rest)
            = before ++ assignTitle sessionId title' rest
            /\ find (fun s => JsString.eqb (id s) sessionId) (before ++ rest)
               = find (fun s => JsString.eqb (id s) sessionId) rest) as Hskip.
  { intros before rest H. induction H as [|x l Hx Hl [IH1 IH2]]; [split; reflexivity|].
    cbn [Datatypes.app assignTitle find]. apply eqb_neq in Hx. rewrite Hx, IH1, IH2.
    split; reflexivity. }
  split.
  - intros before s after Hw Hs Hbefore. cbv zeta.
    rewrite updateSessionTitle_run, Hw.
    destruct (Hskip before (s :: after) Hbefore) as [-> ->].
    cbn [assignTitle find]. apply eqb_eq in Hs. rewrite Hs.
    eexists. split; [reflexivity|]. split; [apply persistedSessions_stored_chat|reflexivity].
  - intros Habsent. rewrite updateSessionTitle_run.
    destruct (Hskip (persistedSessions w) [] Habsent) as [H1 H2].
    rewrite app_nil_r in H1, H2. rewrite H1, H2. cbn [assignTitle find].
    rewrite app_nil_r. reflexivity.
Qed.

(** X3 (deleting a session).  [deleteSession] stores and returns the stored
    collection without the sessions of the given id: none of that id is
    left, every other session is kept in its place, and the state of the
    controller is untouched.  Deleting an id that no session has leaves the
    collection as it was, and deleting twice gives what deleting once
    gives. *)
Theorem deleteSession_removes_every_match (sessionId : jsstring) (w : World) :
  exists history w',
    deleteSession sessionId w = Returned history w'
    /\ persistedSessions w' = history
    /\ history = List.filter (fun s => negb (JsString.eqb (id s) sessionId))
                             (persistedSessions w)
    /\ Forall (fun s => id s <> sessionId) history
    /\ (forall s, In s (persistedSessions w) -> id s <> sessionId -> In s history)
    /\ (Forall (fun s => id s <> sessionId) (persistedSessions w) ->
        history = persistedSessions w)
    /\ (exists w'', deleteSession sessionId w' = Returned history w''
                    /\ persistedSessions w'' = history)
    /\ state w' = state w.
Proof.
  rewrite deleteSession_run. cbv zeta. do 2 eexists. split; [reflexivity|].
  split; [apply persistedSessions_stored_chat|]. split; [reflexivity|].
  split; [|split; [|split; [|split]]].
  - eapply Forall_impl; [apply filter_kept|]. intros s Hs. apply differs_iff, Hs.
  - intros s Hin Hs. apply List.filter_In. split; [exact Hin|]. apply differs_iff, Hs.
  - intros H. apply filter_all. eapply Forall_impl; [exact H|].
    intros s Hs. apply differs_iff, Hs.
  - rewrite deleteSession_run. cbv zeta. rewrite persistedSessions_stored_chat.
    rewrite (filter_all _ (List.filter _ _)) by apply filter_kept.
    eexists. split; [reflexivity|]. apply persistedSessions_stored_chat.
  - reflexivity.
Qed.

(** X4 (creating a session and deleting it again).  Deleting the session
    that [createNewSession] has just returned leaves what was stored before
    without the sessions that carried the same id; when the clock reading
    was carried by no stored session, the stored collection is back to what
    it was. *)
Theorem createNewSession_then_deleteSession (now : jsstring) (w : World) :
  exists newSession w1 history w2,
    createNewSession now w = Returned newSession w1
    /\ deleteSession (id newSession) w1 = Returned history w2
    /\ persistedSessions w2 = history
    /\ history = List.filter (fun s => negb (JsString.eqb (id s) now)) (persistedSessions w)
    /\ (~ In now (map id (persistedSessions w)) -> history = persistedSessions w).
Proof.
  rewrite createNewSession_run. cbv zeta.
  exists {| id := now; title := js "Novo Chat"; messages := [] |}. eexists.
  do 2 eexists. split; [reflexivity|].
  rewrite deleteSession_run. cbv zeta. rewrite persistedSessions_stored_chat.
  cbn [List.filter id]. rewrite eqb_refl. cbn [negb].
  split; [reflexivity|].
  split; [apply persistedSessions_stored_chat|]. split; [reflexivity|].
  intros Hfresh. apply filter_all, List.Forall_forall. intros s Hs.
  apply differs_iff. intros E. apply Hfresh. rewrite <- E. apply in_map, Hs.
Qed.

(** X5 (deleting a search-history entry).  [deleteSearchHistoryEntry]
    stores and returns the stored list without the entries equal to the
    query, code unit by code unit: the query is no longer in the list, every
    other entry (also one that differs from the query by letter case only)
    is kept in its place, and the stored sessions are untouched. *)
Theorem deleteSearchHistoryEntry_removes_exact_matches (query : jsstring) (w : World) :
  exists history w',
    deleteSearchHistoryEntry query w = Returned history w'
    /\ persistedSearchHistory w' = history
    /\ history = List.filter (fun item => negb (JsString.eqb item query))
                             (persistedSearchHistory w)
    /\ ~ In query history
    /\ (forall item, In item (persistedSearchHistory w) -> item <> query -> In item history)
    /\ persistedSessions w' = persistedSessions w
    /\ state w' = state w.
Proof.
  rewrite deleteSearchHistoryEntry_run. cbv zeta. do 2 eexists. split; [reflexivity|].
  split; [apply persistedSearchHistory_stored_search|]. split; [reflexivity|].
  split; [|split; [|split]].
  - intros Hin. apply List.filter_In in Hin as [_ H]. apply differs_iff in H. apply H.
    reflexivity.
  - intros item Hin Hitem. apply List.filter_In. split; [exact Hin|].
    apply differs_iff, Hitem.
  - apply persistedSessions_stored_search.
  - reflexivity.
Qed.

(** X6 (clearing the search history).  After [clearSearchHistory] the stored
    search history is empty, whatever was stored before, and the stored
    sessions and the state of the controller are untouched. *)
Theorem clearSearchHistory_empties (w : World) :
  exists w',
    clearSearchHistory w = Returned tt w'
    /\ getSearchHistory w' = Returned [] w'
    /\ persistedSessions w' = persistedSessions w
    /\ state w' = state w.
Proof.
  unfold clearSearchHistory. rewrite saveSearchHistory_returns.
  eexists. split; [reflexivity|].
  rewrite getSearchHistory_returns, persistedSearchHistory_stored_search.
  split; [reflexivity|]. split; [apply persistedSessions_stored_search|reflexivity].
Qed.

(** X7 (the two stores do not touch each other).  Saving, creating, renaming
    and deleting sessions leave the stored search history as it was; adding,
    deleting and clearing search-history entries leave the stored sessions
    as they were. *)
Theorem stores_are_independent (toLowerCase : jsstring -> jsstring) (w : World) :
  (forall history,
     persistedSearchHistory (worldOf (saveChatHistory history w)) = persistedSearchHistory w)
  /\ (forall now,
        persistedSearchHistory (worldOf (createNewSession now w)) = persistedSearchHistory w)
  /\ (forall sessionId title',
        persistedSearchHistory (worldOf (updateSessionTitle sessionId title' w))
        = persistedSearchHistory w)
  /\ (forall sessionId,
        persistedSearchHistory (worldOf (deleteSession sessionId w))
        = persistedSearchHistory w)
  /\ (forall query,
        persistedSessions (worldOf (addSearchHistoryEntry toLowerCase query w))
        = persistedSessions w)
  /\ (forall query,
        persistedSessions (worldOf (deleteSearchHistoryEntry query w)) = persistedSessions w)
  /\ persistedSessions (worldOf (clearSearchHistory w)) = persistedSessions w.
Proof.
  split; [|split; [|split; [|split; [|split; [|split]]]]].
  - intros history. rewrite saveChatHistory_returns. apply persistedSearchHistory_stored_chat.
  - intros now. rewrite createNewSession_run. apply persistedSearchHistory_stored_chat.
  - intros sessionId title'. rewrite updateSessionTitle_run. cbn [worldOf].
    destruct (find _ _); [apply persistedSearchHistory_stored_chat|reflexivity].
  - intros sessionId. rewrite deleteSession_run. apply persistedSearchHistory_stored_chat.
  - intros query. destruct query as [|c query]; [reflexivity|].
    rewrite addSearchHistoryEntry_returns by reflexivity.
    apply persistedSessions_stored_search.
  - intros query. rewrite deleteSearchHistoryEntry_run. apply persistedSessions_stored_search.
  - unfold clearSearchHistory. rewrite saveSearchHistory_returns.
    apply persistedSessions_stored_search.
Qed.

Section SearchEntries.

Variable toLowerCase : jsstring -> jsstring.

(** The entries that [addSearchHistoryEntry] keeps: those that differ from
    the query when both are lower-cased. *)
Local Abbreviation others query :=
  (List.filter (fun item => negb (JsString.eqb (toLowerCase item) (toLowerCase query)))).

Lemma addSearchHistoryEntry_stores query w :
  query <> [] ->
  exists w',
    addSearchHistoryEntry toLowerCase query w = Returned tt w'
    /\ persistedSearchHistory w' = query :: take 99 (others query (persistedSearchHistory w))
    /\ persistedSessions w' = persistedSessions w
    /\ state w' = state w.
Proof.
  intros Hq. eexists.
  rewrite addSearchHistoryEntry_returns by (destruct query; [contradiction|reflexivity]).
  split; [reflexivity|]. rewrite persistedSearchHistory_stored_search.
  split; [reflexivity|]. split; [apply persistedSessions_stored_search|reflexivity].
Qed.

Lemma others_take_others query n l :
  others query (take n (others query l)) = take n (others query l).
Proof. apply filter_all, Forall_take', filter_kept. Qed.

Lemma filter_none {A : Type} (p : A -> bool) (l : list A) :
  Forall (fun x => p x = false) l -> List.filter p l = [].
Proof.
  induction l as [|x l IH]; intros H; [reflexivity|].
  apply Forall_cons_1 in H as [Hx Hl]. cbn [List.filter]. rewrite Hx. apply IH, Hl.
Qed.

Lemma NoDup_map_filter {A B : Type} (f : A -> B) (p : A -> bool) (l : list A) :
  NoDup (map f l) -> NoDup (map f (List.filter p l)).
Proof.
  induction l as [|x l IH]; intros H; [constructor|].
  cbn [map] in H. apply NoDup_cons in H as [Hx Hl]. cbn [List.filter].
  destruct (p x); [|apply IH, Hl].
  cbn [map]. apply NoDup_cons. split; [|apply IH, Hl].
  intros Hin. apply Hx. apply list_elem_of_In in Hin. apply list_elem_of_In.
  apply in_map_iff in Hin as (y & Hy & Hin). apply in_map_iff. exists y.
  split; [exact Hy|]. apply List.filter_In in Hin. apply Hin.
Qed.

Lemma In_take' {A : Type} (x : A) (n : nat) (l : list A) : In x (take n l) -> In x l.
Proof.
  revert n. induction l as [|y l IH]; intros [|n] H; cbn [take] in H; try contradiction.
  destruct H as [->|H]; [left; reflexivity|right; eapply IH, H].
Qed.

Lemma NoDup_map_take {A B : Type} (f : A -> B) (n : nat) (l : list A) :
  NoDup (map f l) -> NoDup (map f (take n l)).
Proof.
  revert n. induction l as [|x l IH]; intros [|n] H; cbn [take map]; try constructor.
  - cbn [map] in H. apply NoDup_cons in H as [Hx Hl].
    intros Hin. apply Hx. apply list_elem_of_In in Hin. apply list_elem_of_In.
    apply in_map_iff in Hin as (y & Hy & Hin). apply in_map_iff. exists y.
    split; [exact Hy|]. eapply In_take', Hin.
  - cbn [map] in H. apply NoDup_cons in H as [Hx Hl]. apply IH, Hl.
Qed.

End SearchEntries.

(** X8 (one entry per query).  After [addSearchHistoryEntry] with a
    non-empty query, the query is the first stored entry and the only one
    that equals it when both are lower-cased.  When no two stored entries
    were equal lower-cased before, none are afterwards.  Adding the same
    query once more leaves the stored list as it is. *)
Theorem addSearchHistoryEntry_keeps_one_entry_per_query
    (toLowerCase : jsstring -> jsstring) (query : jsstring) (w : World) :
  query <> [] ->
  exists w',
    addSearchHistoryEntry toLowerCase query w = Returned tt w'
    /\ head (persistedSearchHistory w') = Some query
    /\ List.filter (fun item => JsString.eqb (toLowerCase item) (toLowerCase query))
                   (persistedSearchHistory w') = [query]
    /\ (NoDup (map toLowerCase (persistedSearchHistory w)) ->
        NoDup (map toLowerCase (persistedSearchHistory w')))
    /\ (exists w'',
          addSearchHistoryEntry toLowerCase query w' = Returned tt w''
          /\ persistedSearchHistory w'' = persistedSearchHistory w').
Proof.
  intros Hq.
  destruct (addSearchHistoryEntry_stores toLowerCase query w Hq) as (w' & Hrun & Hnew & _).
  exists w'. split; [exact Hrun|]. rewrite Hnew.
  assert (Forall (fun item => JsString.eqb (toLowerCase item) (toLowerCase query) = false)
                 (take 99 (List.filter
                             (fun item => negb (JsString.eqb (toLowerCase item)
                                                             (toLowerCase query)))
                             (persistedSearchHistory w)))) as Hothers.
  { apply Forall_take'. eapply Forall_impl; [apply filter_kept|].
    intros item H. apply negb_true_iff, H. }
  split; [reflexivity|]. split; [|split].
  - cbn [List.filter]. rewrite eqb_refl. f_equal. apply filter_none, Hothers.
  - intros Hdistinct. cbn [map]. apply NoDup_cons. split.
    + intros Hin. apply list_elem_of_In, in_map_iff in Hin as (item & Hitem & Hin).
      rewrite List.Forall_forall in Hothers. specialize (Hothers item Hin).
      apply eqb_neq in Hothers. contradiction.
    + apply NoDup_map_take, NoDup_map_filter, Hdistinct.
  - destruct (addSearchHistoryEntry_stores toLowerCase query w' Hq) as (w'' & Hrun' & Hnew' & _).
    exists w''. split; [exact Hrun'|]. rewrite Hnew', Hnew.
    cbn [List.filter]. rewrite eqb_refl. cbn [negb].
    rewrite others_take_others, take_take. reflexivity.
Qed.

(** X9 (adding an entry and deleting it again).  Deleting a non-empty query
    right after adding it leaves the earlier entries that differ from it
    lower-cased, cut to the first 99: the earlier entries that matched the
    query in another letter case are not brought back. *)
Theorem addSearchHistoryEntry_then_delete
    (toLowerCase : jsstring -> jsstring) (query : jsstring) (w : World) :
  query <> [] ->
  exists w1 history w2,
    addSearchHistoryEntry toLowerCase query w = Returned tt w1
    /\ deleteSearchHistoryEntry query w1 = Returned history w2
    /\ persistedSearchHistory w2 = history
    /\ history = take 99 (List.filter
                            (fun item => negb (JsString.eqb (toLowerCase item)
                                                            (toLowerCase query)))
                            (persistedSearchHistory w)).
Proof.
  intros Hq.
  destruct (addSearchHistoryEntry_stores toLowerCase query w Hq) as (w1 & Hrun & Hnew & _).
  exists w1. rewrite deleteSearchHistoryEntry_run. cbv zeta. rewrite Hnew.
  cbn [List.filter]. rewrite eqb_refl. cbn [negb].
  do 2 eexists. split; [exact Hrun|]. split; [reflexivity|].
  split; [apply persistedSearchHistory_stored_search|].
  apply filter_all, Forall_take'. eapply Forall_impl; [apply filter_kept|].
  intros item H. apply differs_iff. intros ->. rewrite eqb_refl in H. discriminate H.
Qed.

(** * Further properties: the generation client *)

(** Two worlds built by logging, with the same trace. *)
Ltac same_trace :=
  unfold logged, withLog; cbn [log state localStorage Datatypes.app];
  rewrite <- ?app_assoc; reflexivity.

Section ClientFacts.

Lemma truthy_nonempty (s : jsstring) : truthy s = true <-> s <> [].
Proof. destruct s; cbn; split; intros H; congruence. Qed.

Lemma yielded_nonempty delivered : Forall (fun fragment => fragment <> []) (yielded delivered).
Proof.
  induction delivered as [|[t|] rest IH]; cbn [yielded]; [constructor| |exact IH].
  destruct (truthy t) eqn:Ht; [|exact IH].
  constructor; [apply truthy_nonempty, Ht|exact IH].
Qed.

Lemma concat_yielded delivered :
  concat (yielded delivered) = concat (map (default []) delivered).
Proof.
  induction delivered as [|[t|] rest IH]; cbn [yielded map concat default]; [reflexivity| |].
  - destruct t as [|c t]; cbn [truthy concat Datatypes.app]; rewrite IH; reflexivity.
  - cbn [Datatypes.app]. exact IH.
Qed.

(** The texts that [handleApiError] answers a rejected request with. *)
Lemma no_image_is_unexpected :
  handleApiError (newError (js "A API não retornou uma imagem válida."))
                 (js "geração de imagem")
  = newError (unexpectedMessage (js "geração de imagem")).
Proof. vm_compute. reflexivity. Qed.

Lemma no_link_is_unexpected :
  handleApiError (newError (js "A API não retornou um link de vídeo válido."))
                 (js "geração de vídeo")
  = newError (unexpectedMessage (js "geração de vídeo")).
Proof. vm_compute. reflexivity. Qed.

Lemma generateImage_run prompt script w :
  generateImage prompt script w =
  let w1 := logged (Call (GenerateImages (js "imagen-4.0-generate-001") prompt)) w in
  match script with
  | Fulfilled imageBytes =>
    if truthyOpt imageBytes then Returned (default [] imageBytes) w1
    else Thrown (newError (unexpectedMessage (js "geração de imagem"))) w1
  | Rejected e => Thrown (handleApiError e (js "geração de imagem")) w1
  | NeverSettles => Pending w1
  end.
Proof.
  unfold generateImage, tryCatch, call, bind, emit, modify, await. cbv zeta.
  destruct script as [imageBytes|e|]; cbn [ret throw]; [|reflexivity|reflexivity].
  destruct (truthyOpt imageBytes); cbn [ret throw]; [reflexivity|].
  rewrite no_image_is_unexpected. reflexivity.
Qed.

Lemma call_run {A B : Type} (c : ProviderCall) (answer : Settled A) (k : A -> Async B) w :
  bind (call c answer) k w = bind (await answer) k (logged (Call c) w).
Proof. reflexivity. Qed.

Lemma poll_rounds waiting : forall operation next later w,
  done operation = false ->
  Forall (fun o => done o = false) waiting ->
  poll operation (map Fulfilled waiting ++ next :: later) w
  = (final <- await next ;; poll final later)
      (withLog (log w ++ rounds (operation :: waiting)) w).
Proof.
  induction waiting as [|o waiting IH]; intros operation next later w Hd Hw.
  - cbn [map Datatypes.app poll]. rewrite Hd. run. rewrite call_run. f_equal.
    unfold rounds. cbn [flat_map Datatypes.app]. same_trace.
  - apply Forall_cons_1 in Hw as [Ho Hw].
    cbn [map Datatypes.app poll]. rewrite Hd. run.
    rewrite (IH o next later _ Ho Hw). f_equal.
    unfold rounds. cbn [flat_map]. same_trace.
Qed.

End ClientFacts.

(** X10 (the fragments of a streamed answer).  [generateContentStream]
    never yields an empty fragment; the fragments, put together in the
    order they are yielded, are the texts of all the chunks the provider
    delivered, put together; and the stream ends in an error only when the
    provider's stream does, with the error classified for the chat
    context. *)
Theorem generateContentStream_yields_the_text
    (prompt : jsstring) (history : list Message) (imagePart : option Part)
    (language : jsstring) (script : ChatScript) :
  let stream := generateContentStream prompt history imagePart language script in
  Forall (fun fragment => fragment <> []) (snd (fst stream))
  /\ concat (snd (fst stream)) = concat (map (default []) (chunks script))
  /\ (snd stream = Fulfilled tt <-> ending script = Fulfilled tt)
  /\ (forall e, ending script = Rejected e ->
        snd stream = Rejected (handleApiError e (js "resposta do chat"))).
Proof.
  cbv zeta. unfold generateContentStream. cbn [fst snd].
  split; [apply yielded_nonempty|]. split; [apply concat_yielded|]. split.
  - destruct (ending script) as [[]|e|]; split; intros H; try reflexivity; discriminate H.
  - intros e ->. reflexivity.
Qed.

(** X11 (the request of a chat turn).  For a history that ends with the
    current message, the request of [generateContentStream] holds one
    content per earlier message, with the role and the text of the message
    and nothing else (no image or video of an earlier message is sent), and
    then one user content for the current turn: the image part, when there
    is one, before the prompt.  The current message of the history is not
    sent a second time.  The system instruction asks for Portuguese exactly
    when the language is pt-BR. *)
Theorem generateContentStream_request
    (prompt : jsstring) (earlier : list Message) (current : Message)
    (imagePart : option Part) (language : jsstring) (script : ChatScript) :
  exists contents systemInstruction,
    fst (fst (generateContentStream prompt (earlier ++ [current]) imagePart language script))
    = GenerateContentStream (js "gemini-2.5-flash") contents systemInstruction
    /\ contents
       = map (fun m => {| role := sender m; parts := [TextPart (text m)] |}) earlier
         ++ [{| role := user;
                parts := match imagePart with
                         | Some part => [part; TextPart prompt]
                         | None => [TextPart prompt]
                         end |}]
    /\ length contents = length (earlier ++ [current])
    /\ (language = js "pt-BR" -> systemInstruction = js "Responda em português do Brasil.")
    /\ (language <> js "pt-BR" -> systemInstruction = js "Respond in English.").
Proof.
  unfold generateContentStream. cbn [fst snd]. do 2 eexists. split; [reflexivity|].
  rewrite length_app. cbn [length]. rewrite Nat.add_sub.
  rewrite take_app_length.
  split; [destruct imagePart; reflexivity|].
  split; [rewrite length_app, length_map; reflexivity|].
  split.
  - intros ->. rewrite eqb_refl. reflexivity.
  - intros H. apply eqb_neq in H. rewrite H. reflexivity.
Qed.

(** X12 (the outcomes of an image request).  [generateImage] sends one
    request and nothing else.  It returns the image data when the provider
    answers with data that is not empty, and never returns an empty string.
    When the answer holds no image data it throws the generic error of the
    image context: the text about the missing image, thrown inside the
    [try], is itself classified and does not reach the caller.  When the
    provider rejects, it throws the classified error; while the provider
    does not answer, it stays suspended. *)
Theorem generateImage_outcomes
    (prompt : jsstring) (script : Settled (option jsstring)) (w : World) :
  let w1 := logged (Call (GenerateImages (js "imagen-4.0-generate-001") prompt)) w in
  (forall imageBytes, script = Fulfilled (Some imageBytes) -> imageBytes <> [] ->
     generateImage prompt script w = Returned imageBytes w1)
  /\ (script = Fulfilled None \/ script = Fulfilled (Some []) ->
      generateImage prompt script w
      = Thrown (newError (unexpectedMessage (js "geração de imagem"))) w1)
  /\ (forall e, script = Rejected e ->
      generateImage prompt script w
      = Thrown (handleApiError e (js "geração de imagem")) w1)
  /\ (script = NeverSettles -> generateImage prompt script w = Pending w1)
  /\ (forall imageBytes w', generateImage prompt script w = Returned imageBytes w' ->
      imageBytes <> [])
  /\ worldOf (generateImage prompt script w) = w1.
Proof.
  cbv zeta. rewrite generateImage_run. cbv zeta.
  split; [|split; [|split; [|split; [|split]]]].
  - intros imageBytes -> H. apply truthy_nonempty in H. cbn [truthyOpt]. rewrite H.
    reflexivity.
  - intros [-> | ->]; reflexivity.
  - intros e ->. reflexivity.
  - intros ->. reflexivity.
  - intros imageBytes w'. destruct script as [[bytes|]|e|]; cbn [truthyOpt]; try discriminate.
    destruct (truthy bytes) eqn:Hb; [|discriminate]. cbn [default].
    intros H. injection H as <- _. apply truthy_nonempty, Hb.
  - destruct script as [imageBytes|e|]; [destruct (truthyOpt imageBytes)|..]; reflexivity.
Qed.

(** X13 (polling a video operation).  [generateVideo] asks for the status of
    the operation once for every operation it has seen that is not done,
    each time after a timer of ten seconds, and stops at the first one that
    is done: answers after that one are not asked for.  With a download
    link that is not empty it returns the link followed by [&key=] and the
    API key; without one it throws the generic error of the video context.
    A status request that is rejected ends the polling with the classified
    error. *)
Theorem generateVideo_polls_until_done
    (API_KEY prompt : jsstring) (operation : Operation) (waiting : list Operation)
    (later : list (Settled Operation)) (w : World) :
  let request := Call (GenerateVideos (js "veo-2.0-generate-001") prompt) in
  let result (final : Operation) (w' : World) : Outcome jsstring :=
    match uri final with
    | Some downloadLink =>
      if truthy downloadLink then Returned (downloadLink ++ js "&key=" ++ API_KEY) w'
      else Thrown (newError (unexpectedMessage (js "geração de vídeo"))) w'
    | None => Thrown (newError (unexpectedMessage (js "geração de vídeo"))) w'
    end in
  (done operation = true ->
   generateVideo API_KEY prompt {| started := Fulfilled operation; checks := later |} w
   = result operation (logged request w))
  /\ (forall final,
        done operation = false ->
        Forall (fun o => done o = false) waiting ->
        done final = true ->
        generateVideo API_KEY prompt
          {| started := Fulfilled operation;
             checks := map Fulfilled waiting ++ Fulfilled final :: later |} w
        = result final (withLog (log w ++ request :: rounds (operation :: waiting)) w))
  /\ (forall e,
        done operation = false ->
        Forall (fun o => done o = false) waiting ->
        generateVideo API_KEY prompt
          {| started := Fulfilled operation;
             checks := map Fulfilled waiting ++ Rejected e :: later |} w
        = Thrown (handleApiError e (js "geração de vídeo"))
                 (withLog (log w ++ request :: rounds (operation :: waiting)) w)).
Proof.
  cbv zeta.
  assert (forall final later' W, done final = true ->
            tryCatch
              (fun W0 =>
                 (operation0 <- poll final later' ;;
                  if truthyOpt (uri operation0)
                  then ret (default [] (uri operation0) ++ js "&key=" ++ API_KEY)
                  else throw (newError (js "A API não retornou um link de vídeo válido.")))
                 W0)
              (fun error => throw (handleApiError error (js "geração de vídeo"))) W
            = match uri final with
              | Some downloadLink =>
                if truthy downloadLink
                then Returned (downloadLink ++ js "&key=" ++ API_KEY) W
                else Thrown (newError (unexpectedMessage (js "geração de vídeo"))) W
              | None => Thrown (newError (unexpectedMessage (js "geração de vídeo"))) W
              end) as Hdone.
  { intros final later' W Hd. rewrite tryCatch_unfold, bind_unfold.
    assert (poll final later' W = Returned final W) as ->
      by (destruct later'; cbn [poll]; rewrite Hd; reflexivity).
    destruct (uri final) as [link|]; cbn [truthyOpt default];
      [destruct (truthy link)|]; cbn [ret throw]; try reflexivity;
      rewrite no_link_is_unexpected; reflexivity. }
  split; [|split].
  - intros Hd. unfold generateVideo. cbn [started checks].
    rewrite tryCatch_unfold, bind_unfold. run.
    specialize (Hdone operation later
                  (logged (Call (GenerateVideos (js "veo-2.0-generate-001") prompt)) w) Hd).
    rewrite tryCatch_unfold in Hdone. rewrite Hdone.
    destruct (uri operation) as [link|]; [destruct (truthy link)|]; reflexivity.
  - intros final Hd Hw Hf. unfold generateVideo. cbn [started checks].
    rewrite tryCatch_unfold, bind_unfold. run.
    rewrite bind_unfold, (poll_rounds waiting operation (Fulfilled final) later _ Hd Hw).
    rewrite bind_unfold. cbn [await ret].
    specialize (Hdone final later
                  (withLog
                     (log (logged (Call (GenerateVideos (js "veo-2.0-generate-001") prompt)) w)
                      ++ rounds (operation :: waiting))
                     (logged (Call (GenerateVideos (js "veo-2.0-generate-001") prompt)) w))
                  Hf).
    rewrite tryCatch_unfold, bind_unfold in Hdone. rewrite withLog_logged in Hdone |- *.
    rewrite Hdone.
    destruct (uri final) as [link|]; [destruct (truthy link)|]; reflexivity.
  - intros e Hd Hw. unfold generateVideo. cbn [started checks].
    rewrite tryCatch_unfold, bind_unfold. run.
    rewrite bind_unfold, (poll_rounds waiting operation (Rejected e) later _ Hd Hw).
    rewrite bind_unfold. cbn [await throw]. rewrite withLog_logged. reflexivity.
Qed.

(** * Further properties: the turns of the controller *)

Section TurnOutcomes.

Variable toLowerCase : jsstring -> jsstring.
Variable API_KEY : jsstring.

Lemma titles_updatedSessions sessions0 sessionId newMessages :
  map title (updatedSessions sessions0 sessionId newMessages) = map title sessions0.
Proof.
  unfold updatedSessions. rewrite map_map. apply map_ext.
  intros s. destruct (JsString.eqb (id s) sessionId); reflexivity.
Qed.

Lemma titles_assignTitle_updatedSessions sessionId t sessions0 sessionId' newMessages :
  map title (assignTitle sessionId t (updatedSessions sessions0 sessionId' newMessages))
  = map title (assignTitle sessionId t sessions0).
Proof.
  unfold updatedSessions.
  induction sessions0 as [|s rest IH]; [reflexivity|]. cbn [map assignTitle].
  assert (id (if JsString.eqb (id s) sessionId'
              then {| id := id s; title := title s; messages := newMessages |}
              else s) = id s) as Hid by (destruct (JsString.eqb (id s) sessionId'); reflexivity).
  rewrite Hid. destruct (JsString.eqb (id s) sessionId).
  - cbn [map title]. f_equal. rewrite map_map. apply map_ext.
    intros x. destruct (JsString.eqb (id x) sessionId'); reflexivity.
  - cbn [map]. rewrite IH. f_equal.
    destruct (JsString.eqb (id s) sessionId'); reflexivity.
Qed.

(** The sessions in which a chat turn ends, by the end of its stream.  The
    last write is made from the sessions of the world the turn started
    in. *)
Lemma handleSendMessage_settles
    (messageText : jsstring) (imageFile : option File)
    (titleScript : Settled (option jsstring)) (chatScript : ChatScript)
    (w : World) (sid : jsstring) :
  activeSessionId (state w) = Some sid ->
  truthy sid = true ->
  isLoading (state w) = false ->
  (forall file, imageFile = Some file -> exists read, fileToBase64 file = Fulfilled read) ->
  truthy (outgoingText messageText imageFile) = true ->
  titleScript <> NeverSettles ->
  ending chatScript <> NeverSettles ->
  let fullResponse := concat (yielded (chunks chatScript)) in
  let current := currentMessages w (outgoingMessage messageText imageFile) in
  let sessions0 := sessions (state w) in
  exists t c,
    (forall W, generateChatTitle (outgoingText messageText imageFile) (language (state w))
                                 titleScript W = Returned t (logged (Call c) W))
    /\ exists w',
    handleSendMessage toLowerCase messageText imageFile titleScript chatScript w
    = Returned tt w'
    /\ sessions (state w')
       = match ending chatScript with
         | Rejected e =>
           updatedSessions sessions0 sid
             (current ++ [errorMessage
                            (errorMessageOf (handleApiError e (js "resposta do chat")))])
         | _ =>
           if truthy fullResponse
           then updatedSessions sessions0 sid (current ++ [modelMessage fullResponse])
           else if startsSession w
                then assignTitle sid t (updatedSessions sessions0 sid current)
                else updatedSessions sessions0 sid current
         end
    /\ persistedSessions w' = sessions (state w')
    /\ isLoading (state w') = false
    /\ streamingMessage (state w') = None.
Proof.
  intros Ha Hsid Hl Hfile Ht Htitle Hend. cbv zeta.
  destruct (generateChatTitle_settles (outgoingText messageText imageFile)
              (language (state w)) titleScript Htitle) as (t & c & Hc & Htitled).
  exists t, c. split; [exact Htitled|].
  unfold handleSendMessage. rewrite Ha, Hsid, Hl. cbn [negb orb].
  assert (exists imagePart,
    (match imageFile with
     | Some file =>
       read <- await (fileToBase64 file) ;;
       ret (Some (InlineData (fst read) (snd read)),
            if truthy messageText then messageText else js "Descreva esta imagem.")
     | None => ret (None, messageText)
     end) w = Returned (imagePart, outgoingText messageText imageFile) w) as [imagePart Hprep].
  { destruct imageFile as [file|]; [|eexists; reflexivity].
    destruct (Hfile file eq_refl) as [read ->]. eexists. reflexivity. }
  rewrite (bind_run _ _ _ _ _ Hprep). cbn [fst snd]. rewrite Ht. cbn [negb].
  step_search_by Ht. run.
  change (match activeSession w with
          | Some s => messages s ++ [?m]
          | None => [?m]
          end) with (currentMessages w m).
  change {| sender := user; text := outgoingText messageText imageFile;
            imageUrl := option_map createObjectURL imageFile; videoUrl := None |}
    with (outgoingMessage messageText imageFile).
  rewrite length_currentMessages.
  set (current := currentMessages w (outgoingMessage messageText imageFile)).
  set (U1 := updatedSessions (sessions (state w)) sid current).
  match goal with
  | |- context [bind _ _ ?W] =>
    assert (sessions (state W) = U1) as HsW by reflexivity;
    assert (persistedSessions W = U1) as HpW
      by (rewrite !persistedSessions_withState; apply persistedSessions_stored_chat);
    set (W1 := W) in *; clearbody W1
  end.
  match goal with
  | |- context [bind ?m ?k W1] =>
    assert (exists W2 U,
              m W1 = Returned tt W2
              /\ sessions (state W2) = U /\ persistedSessions W2 = U
              /\ U = if startsSession w then assignTitle sid t U1 else U1)
      as (W2 & U & Hrun & HsU & HpU & HU);
      [|rewrite (bind_run m k W1 tt W2 Hrun); clear Hrun]
  end.
  { destruct (startsSession w) eqn:Hs.
    - rewrite bind_unfold, Htitled. rewrite bind_unfold, updateSessionTitle_run.
      cbn [setState modify]. do 2 eexists. split; [reflexivity|].
      rewrite persistedSessions_logged, HpW.
      split; [reflexivity|]. split; [|reflexivity].
      rewrite persistedSessions_withState. destruct (find _ U1) eqn:Hfind.
      + apply persistedSessions_stored_chat.
      + rewrite persistedSessions_logged, HpW.
        symmetry. apply assignTitle_absent, Hfind.
    - exists W1, U1. repeat split; assumption. }
  clear HsW HpW W1.
  rewrite tryFinally_unfold, tryCatch_unfold. run.
  rewrite bind_unfold.
  match goal with
  | |- context [consume ?fs ?acc ?W] => destruct (consume_run fs acc W) as [streaming ->]
  end.
  unfold generateContentStream. cbn [fst snd].
  destruct (ending chatScript) as [[]|e|]; [| |contradiction]; run.
  - cbn [Datatypes.app].
    destruct (truthy (concat (yielded (chunks chatScript)))) eqn:Hfull; run.
    + eexists. split; [reflexivity|]. split; [reflexivity|].
      split; [|split; reflexivity].
      rewrite !persistedSessions_withState. apply persistedSessions_stored_chat.
    + eexists. split; [reflexivity|].
      cbn [state sessions withState setStreamingMessage setIsLoading].
      rewrite state_logged.
      split; [rewrite HsU; exact HU|].
      split; [|split; reflexivity].
      rewrite !persistedSessions_withState, persistedSessions_logged. congruence.
  - rewrite instanceofError_handleApiError.
    eexists. split; [reflexivity|]. split; [reflexivity|].
    split; [|split; reflexivity].
    rewrite !persistedSessions_withState. apply persistedSessions_stored_chat.
Qed.

Lemma thrown_by_generateImage_is_error prompt script w e w' :
  generateImage prompt script w = Thrown e w' -> instanceofError e = true.
Proof.
  intros H. apply generateImage_throws_classified in H as [raw ->].
  apply instanceofError_handleApiError.
Qed.

Lemma thrown_by_generateVideo_is_error prompt script w e w' :
  generateVideo API_KEY prompt script w = Thrown e w' -> instanceofError e = true.
Proof.
  unfold generateVideo. intros H. apply tryCatch_rethrow in H as [raw ->].
  apply instanceofError_handleApiError.
Qed.

End TurnOutcomes.

(** X14 (a chat turn whose stream fails).  When the stream of an accepted
    chat turn ends in an error, whatever fragments it yielded before, the
    transcript of the active session becomes the earlier messages, the
    user's message and one model message that carries the text of the
    classified error after the warning prefix: the partial answer is not
    committed.  The sessions are stored as they are in the state, and the
    loading and streaming state are cleared. *)
Theorem handleSendMessage_failure_commits_error
    (toLowerCase : jsstring -> jsstring)
    (messageText : jsstring) (imageFile : option File)
    (titleScript : Settled (option jsstring)) (chatScript : ChatScript)
    (w : World) (sid : jsstring) (e : Exception) :
  activeSessionId (state w) = Some sid ->
  truthy sid = true ->
  isLoading (state w) = false ->
  (forall file, imageFile = Some file -> exists read, fileToBase64 file = Fulfilled read) ->
  truthy (outgoingText messageText imageFile) = true ->
  titleScript <> NeverSettles ->
  ending chatScript = Rejected e ->
  let current :=
    currentMessages w
      {| sender := user; text := outgoingText messageText imageFile;
         imageUrl := option_map createObjectURL imageFile; videoUrl := None |} in
  let failure :=
    {| sender := model;
       text := js "⚠️ **Erro:** "
               ++ errorMessageOf (handleApiError e (js "resposta do chat"));
       imageUrl := None; videoUrl := None |} in
  exists w',
    handleSendMessage toLowerCase messageText imageFile titleScript chatScript w
    = Returned tt w'
    /\ transcripts sid (sessions (state w'))
       = map (fun _ => current ++ [failure]) (transcripts sid (sessions (state w)))
    /\ map id (sessions (state w')) = map id (sessions (state w))
    /\ persistedSessions w' = sessions (state w')
    /\ isLoading (state w') = false
    /\ streamingMessage (state w') = None.
Proof.
  intros Ha Hsid Hl Hfile Ht Htitle Hend. cbv zeta.
  destruct (handleSendMessage_settles toLowerCase messageText imageFile titleScript
              chatScript w sid Ha Hsid Hl Hfile Ht Htitle)
    as (t & c & _ & w' & Hrun & Hsessions & Hp & Hloading & Hstreaming).
  { rewrite Hend. discriminate. }
  rewrite Hend in Hsessions.
  exists w'. split; [exact Hrun|]. rewrite Hsessions.
  split; [apply transcripts_updatedSessions|].
  split; [apply ids_updatedSessions|].
  split; [rewrite <- Hsessions; exact Hp|]. split; assumption.
Qed.

(** X15 (the title of a first turn and the last write of the turn).  In an
    accepted turn that is the first of its session, the title that
    [generateChatTitle] returns is stored when it arrives.  The write that
    ends the turn is made from the sessions of the render in which the turn
    started: when the turn commits a model message, every session has the
    title it had when the turn started, in the state and in storage; the
    generated title is the title of the session only when the stream
    completes without any text. *)
Theorem handleSendMessage_last_write_uses_first_sessions
    (toLowerCase : jsstring -> jsstring)
    (messageText : jsstring) (imageFile : option File)
    (titleScript : Settled (option jsstring)) (chatScript : ChatScript)
    (w : World) (sid : jsstring) :
  activeSessionId (state w) = Some sid ->
  truthy sid = true ->
  isLoading (state w) = false ->
  (forall file, imageFile = Some file -> exists read, fileToBase64 file = Fulfilled read) ->
  truthy (outgoingText messageText imageFile) = true ->
  startsSession w = true ->
  titleScript <> NeverSettles ->
  ending chatScript = Fulfilled tt ->
  let fullResponse := concat (yielded (chunks chatScript)) in
  exists t c,
    (forall W, generateChatTitle (outgoingText messageText imageFile) (language (state w))
                                 titleScript W = Returned t (logged (Call c) W))
    /\ exists w',
    handleSendMessage toLowerCase messageText imageFile titleScript chatScript w
    = Returned tt w'
    /\ (fullResponse <> [] ->
        map title (sessions (state w')) = map title (sessions (state w)))
    /\ (fullResponse = [] ->
        map title (sessions (state w')) = map title (assignTitle sid t (sessions (state w))))
    /\ persistedSessions w' = sessions (state w').
Proof.
  intros Ha Hsid Hl Hfile Ht Hfirst Htitle Hend. cbv zeta.
  destruct (handleSendMessage_settles toLowerCase messageText imageFile titleScript
              chatScript w sid Ha Hsid Hl Hfile Ht Htitle)
    as (t & c & Htitled & w' & Hrun & Hsessions & Hp & _).
  { rewrite Hend. discriminate. }
  rewrite Hend, Hfirst in Hsessions.
  exists t, c. split; [exact Htitled|]. exists w'. split; [exact Hrun|].
  split; [|split; [|exact Hp]].
  - intros Hfull. apply truthy_nonempty in Hfull. rewrite Hfull in Hsessions.
    rewrite Hsessions. apply titles_updatedSessions.
  - intros Hfull. rewrite Hfull in Hsessions. cbn [truthy] in Hsessions.
    rewrite Hsessions. apply titles_assignTitle_updatedSessions.
Qed.

(** X16 (turns are not accepted while one is running).  While the loading
    flag is on, or while no session is active, the three turn handlers
    return at once and leave the world as it was: nothing is stored, no
    request is sent, the transcript is untouched. *)
Theorem turn_handlers_reject_while_loading
    (toLowerCase : jsstring -> jsstring) (API_KEY : jsstring) (w : World) :
  isLoading (state w) = true \/ activeSessionId (state w) = None
  \/ activeSessionId (state w) = Some [] ->
  (forall messageText imageFile titleScript chatScript,
     handleSendMessage toLowerCase messageText imageFile titleScript chatScript w
     = Returned tt w)
  /\ (forall prompt script, handleGenerateImage toLowerCase prompt script w = Returned tt w)
  /\ (forall prompt script,
        handleGenerateVideo toLowerCase API_KEY prompt script w = Returned tt w).
Proof.
  intros H. unfold handleSendMessage, handleGenerateImage, handleGenerateVideo.
  destruct H as [H|[H|H]]; rewrite H; repeat split; intros;
    first [ reflexivity
          | destruct (activeSessionId (state w)); reflexivity
          | destruct (isLoading (state w)); reflexivity ].
Qed.

(** X17 (an attachment that cannot be read).  When reading the attached
    file fails, an accepted chat turn ends with that very error, thrown to
    the caller, and the world is as it was: the read comes before the [try]
    of the handler, so no error message is appended, nothing is stored and
    the loading flag was never set.  While the read does not settle the
    turn stays suspended in the same world. *)
Theorem handleSendMessage_unreadable_attachment
    (toLowerCase : jsstring -> jsstring)
    (messageText : jsstring) (file : File)
    (titleScript : Settled (option jsstring)) (chatScript : ChatScript)
    (w : World) (sid : jsstring) :
  activeSessionId (state w) = Some sid ->
  truthy sid = true ->
  isLoading (state w) = false ->
  (forall e, fileToBase64 file = Rejected e ->
     handleSendMessage toLowerCase messageText (Some file) titleScript chatScript w
     = Thrown e w)
  /\ (fileToBase64 file = NeverSettles ->
      handleSendMessage toLowerCase messageText (Some file) titleScript chatScript w
      = Pending w).
Proof.
  intros Ha Hsid Hl. unfold handleSendMessage. rewrite Ha, Hsid, Hl. cbn [negb orb].
  split.
  - intros e He. rewrite bind_unfold, bind_unfold, He. reflexivity.
  - intros He. rewrite bind_unfold, bind_unfold, He. reflexivity.
Qed.

(** X18 (an image turn that succeeds).  An accepted image turn whose
    provider answers with image data stores the user's request, sends one
    request to the provider, and then writes the transcript of the active
    session as the earlier messages, the request and one model message
    whose image is the data as a [data:image/png;base64,] URL.  The sessions
    are stored as they are in the state, the feature stays available, the
    dialog is closed and the loading flag is cleared. *)
Theorem handleGenerateImage_commits_image
    (toLowerCase : jsstring -> jsstring) (prompt imageBytes : jsstring)
    (w : World) (sid : jsstring) :
  activeSessionId (state w) = Some sid ->
  truthy sid = true ->
  isLoading (state w) = false ->
  isImageGenAvailable (state w) = true ->
  imageBytes <> [] ->
  let request := userRequest (js "Gerar imagem: " ++ [34] ++ prompt ++ [34]) in
  let current := currentMessages w request in
  let answer :=
    {| sender := model; text := js "Imagem gerada para: " ++ [34] ++ prompt ++ [34];
       imageUrl := Some (js "data:image/png;base64," ++ imageBytes); videoUrl := None |} in
  let written messages' :=
    SetItem CHAT_HISTORY_KEY
      (JSON.stringify (sessionsToJson (updatedSessions (sessions (state w)) sid messages'))) in
  exists w' searchValue,
    handleGenerateImage toLowerCase prompt (Fulfilled (Some imageBytes)) w = Returned tt w'
    /\ transcripts sid (sessions (state w'))
       = map (fun _ => current ++ [answer]) (transcripts sid (sessions (state w)))
    /\ persistedSessions w' = sessions (state w')
    /\ log w' = log w ++ [SetItem SEARCH_HISTORY_KEY searchValue;
                          written current;
                          Call (GenerateImages (js "imagen-4.0-generate-001") prompt);
                          written (current ++ [answer])]
    /\ isImageGenAvailable (state w') = true
    /\ isCreateImageModalOpen (state w') = false
    /\ isLoading (state w') = false.
Proof.
  intros Ha Hsid Hl Hf Hbytes. cbv zeta. apply truthy_nonempty in Hbytes.
  unfold handleGenerateImage. rewrite Ha, Hsid, Hl, Hf. run. step_search. run.
  rewrite tryFinally_unfold, tryCatch_unfold, bind_unfold, generateImage_run. cbv zeta.
  cbn [truthyOpt default]. rewrite Hbytes. run.
  do 2 eexists. split; [reflexivity|].
  split; [apply transcripts_updatedSessions|].
  split; [rewrite !persistedSessions_withState; apply persistedSessions_stored_chat|].
  split; [traces|].
  split; [exact Hf|]. split; reflexivity.
Qed.

(** X19 (an image turn that fails).  When the image request of an accepted
    image turn throws, the transcript of the active session becomes the
    earlier messages, the request and one model message with the text of the
    error after the warning prefix.  The feature is switched off exactly
    when the error is a [BillingError]: after any other failure it stays
    available.  The loading flag is cleared. *)
Theorem handleGenerateImage_failure_commits_error
    (toLowerCase : jsstring -> jsstring) (prompt : jsstring)
    (script : Settled (option jsstring)) (w : World) (sid : jsstring) (e : Exception) :
  activeSessionId (state w) = Some sid ->
  truthy sid = true ->
  isLoading (state w) = false ->
  isImageGenAvailable (state w) = true ->
  (forall w1, exists w2, generateImage prompt script w1 = Thrown e w2) ->
  let request :=
    {| sender := user; text := js "Gerar imagem: " ++ [34] ++ prompt ++ [34];
       imageUrl := None; videoUrl := None |} in
  let current := currentMessages w request in
  let failure :=
    {| sender := model; text := js "⚠️ **Erro:** " ++ errorMessageOf e;
       imageUrl := None; videoUrl := None |} in
  exists w',
    handleGenerateImage toLowerCase prompt script w = Returned tt w'
    /\ transcripts sid (sessions (state w'))
       = map (fun _ => current ++ [failure]) (transcripts sid (sessions (state w)))
    /\ persistedSessions w' = sessions (state w')
    /\ isImageGenAvailable (state w') = negb (instanceofBillingError e)
    /\ isLoading (state w') = false.
Proof.
  intros Ha Hsid Hl Hf Hthrow. cbv zeta.
  unfold handleGenerateImage. rewrite Ha, Hsid, Hl, Hf. run. step_search. run.
  rewrite tryFinally_unfold, tryCatch_unfold.
  match goal with |- context [bind (generateImage prompt script) ?k ?w1] =>
    destruct (Hthrow w1) as [w2 Hw2];
    pose proof (thrown_by_generateImage_is_error _ _ _ _ _ Hw2) as He;
    pose proof (generateImage_run prompt script w1) as Hworld;
    rewrite Hw2 in Hworld;
    rewrite (bind_unfold (generateImage prompt script) k w1), Hw2
  end.
  assert (state w2 = state
            (withState (setIsLoading true
               (state (withState (setSessions
                  (updatedSessions (sessions (state w)) sid
                     (currentMessages w
                        (userRequest (js "Gerar imagem: " ++ [34] ++ prompt ++ [34]))))
                  (setCreateImageModalOpen false (state w))) w))) w)) as Hstate.
  { cbv zeta in Hworld. destruct script as [bytes|raw|]; [destruct (truthyOpt bytes)|..];
      try discriminate Hworld; injection Hworld as _ ->; reflexivity. }
  rewrite He. destruct (instanceofBillingError e); run.
  - eexists. split; [reflexivity|].
    split; [apply transcripts_updatedSessions|].
    split; [rewrite !persistedSessions_withState; apply persistedSessions_stored_chat|].
    split; reflexivity.
  - eexists. split; [reflexivity|].
    split; [apply transcripts_updatedSessions|].
    split; [rewrite !persistedSessions_withState; apply persistedSessions_stored_chat|].
    split; [|reflexivity].
    cbn [state withState isImageGenAvailable setIsLoading setSessions]. rewrite Hstate.
    exact Hf.
Qed.

(** X20 (a video turn that fails).  When the video request of an accepted
    video turn throws, the placeholder that was appended before the request
    is replaced by the error: the transcript of the active session becomes
    the earlier messages, the request and one model message with the text
    of the error after the warning prefix.  The feature is switched off
    exactly when the error is a [BillingError], and the loading flag is
    cleared. *)
Theorem handleGenerateVideo_failure_replaces_placeholder
    (toLowerCase : jsstring -> jsstring) (API_KEY prompt : jsstring)
    (script : VideoScript) (w : World) (sid : jsstring) (e : Exception) :
  activeSessionId (state w) = Some sid ->
  truthy sid = true ->
  isLoading (state w) = false ->
  isVideoGenAvailable (state w) = true ->
  (forall w1, exists w2, generateVideo API_KEY prompt script w1 = Thrown e w2) ->
  let request := userRequest (js "Gerar vídeo: " ++ [34] ++ prompt ++ [34]) in
  let current := currentMessages w request in
  let failure := modelMessage (js "⚠️ **Erro:** " ++ errorMessageOf e) in
  exists w',
    handleGenerateVideo toLowerCase API_KEY prompt script w = Returned tt w'
    /\ transcripts sid (sessions (state w'))
       = map (fun _ => current ++ [failure]) (transcripts sid (sessions (state w)))
    /\ waitingMessage <> failure
    /\ persistedSessions w' = sessions (state w')
    /\ isVideoGenAvailable (state w') = negb (instanceofBillingError e)
    /\ isLoading (state w') = false.
Proof.
  intros Ha Hsid Hl Hf Hthrow. cbv zeta.
  destruct (generateVideo_run API_KEY prompt script) as (trace & result & _ & Hrun).
  assert (result = Rejected e) as ->.
  { destruct (Hthrow w) as [w2 H2]. rewrite Hrun in H2.
    destruct result as [a|e'|]; cbn [await ret throw] in H2;
      [discriminate H2 | injection H2 as -> _; reflexivity | discriminate H2]. }
  assert (instanceofError e = true) as He.
  { destruct (Hthrow w) as [w2 H2]. eapply thrown_by_generateVideo_is_error, H2. }
  unfold handleGenerateVideo. rewrite Ha, Hsid, Hl, Hf. run. step_search. run.
  rewrite tryFinally_unfold, tryCatch_unfold, bind_unfold, Hrun. cbn [await throw].
  rewrite He. destruct (instanceofBillingError e); run.
  - eexists. split; [reflexivity|].
    split; [apply transcripts_updatedSessions|].
    split; [unfold waitingMessage, modelMessage; intros H; injection H as H; discriminate H|].
    split; [rewrite !persistedSessions_withState; apply persistedSessions_stored_chat|].
    split; reflexivity.
  - eexists. split; [reflexivity|].
    split; [apply transcripts_updatedSessions|].
    split; [unfold waitingMessage, modelMessage; intros H; injection H as H; discriminate H|].
    split; [rewrite !persistedSessions_withState; apply persistedSessions_stored_chat|].
    split; [exact Hf|reflexivity].
Qed.

(** * Further properties: sessions, start and reload *)

Section SessionManagement.

Lemma handleNewSession_run now w :
  handleNewSession now w =
  let newSession := {| id := now; title := js "Novo Chat"; messages := [] |} in
  let w1 := stored CHAT_HISTORY_KEY
              (JSON.stringify (sessionsToJson (newSession :: persistedSessions w))) w in
  Returned tt
    (withState
       (setIsSidebarOpen false
          (setActiveSessionId (Some now)
             (setSessions (newSession :: sessions (state w)) (state w))))
       w1).
Proof.
  unfold handleNewSession. rewrite bind_unfold, createNewSession_run. reflexivity.
Qed.

End SessionManagement.

(** X21 (a new session).  [handleNewSession] puts a session with the clock
    reading as its id, the title Novo Chat and no message in front of the
    sessions of the state and in front of the stored ones, makes it the
    active session and closes the sidebar.  When the state held the stored
    sessions before, it does afterwards. *)
Theorem handleNewSession_activates_the_new_session (now : jsstring) (w : World) :
  let newSession := {| id := now; title := js "Novo Chat"; messages := [] |} in
  exists w',
    handleNewSession now w = Returned tt w'
    /\ sessions (state w') = newSession :: sessions (state w)
    /\ persistedSessions w' = newSession :: persistedSessions w
    /\ activeSessionId (state w') = Some now
    /\ activeSession w' = Some newSession
    /\ isSidebarOpen (state w') = false
    /\ (persistedSessions w = sessions (state w) ->
        persistedSessions w' = sessions (state w')).
Proof.
  cbv zeta. rewrite handleNewSession_run. cbv zeta. eexists. split; [reflexivity|].
  split; [reflexivity|].
  assert (persistedSessions
            (withState
               (setIsSidebarOpen false
                  (setActiveSessionId (Some now)
                     (setSessions ({| id := now; title := js "Novo Chat"; messages := [] |}
                                   :: sessions (state w)) (state w))))
               (stored CHAT_HISTORY_KEY
                  (JSON.stringify
                     (sessionsToJson ({| id := now; title := js "Novo Chat"; messages := [] |}
                                      :: persistedSessions w))) w))
          = {| id := now; title := js "Novo Chat"; messages := [] |} :: persistedSessions w)
    as Hp by (rewrite persistedSessions_withState; apply persistedSessions_stored_chat).
  split; [exact Hp|]. split; [reflexivity|]. split.
  - unfold activeSession. cbn [state withState activeSessionId sessions setIsSidebarOpen
                               setActiveSessionId setSessions find id].
    rewrite eqb_refl. reflexivity.
  - split; [reflexivity|]. intros Hsync. rewrite Hp, Hsync. reflexivity.
Qed.

(** X22 (deleting a session in the controller).  [handleDeleteSession]
    leaves in the state and in storage the stored sessions without those of
    the given id.  When the deleted id was not the active one, the active
    session stays; when it was, the first remaining session becomes active;
    and when none remains, a new empty session is created and becomes the
    only and active session. *)
Theorem handleDeleteSession_keeps_a_session_active (id' now : jsstring) (w : World) :
  let remaining :=
    List.filter (fun s => negb (JsString.eqb (id s) id')) (persistedSessions w) in
  let newSession := {| id := now; title := js "Novo Chat"; messages := [] |} in
  exists w',
    handleDeleteSession id' now w = Returned tt w'
    /\ persistedSessions w' = sessions (state w')
    /\ (activeSessionId (state w) <> Some id' ->
        sessions (state w') = remaining
        /\ activeSessionId (state w') = activeSessionId (state w))
    /\ (activeSessionId (state w) = Some id' ->
        forall first rest, remaining = first :: rest ->
        sessions (state w') = remaining
        /\ activeSessionId (state w') = Some (id first))
    /\ (activeSessionId (state w) = Some id' ->
        remaining = [] ->
        sessions (state w') = [newSession]
        /\ activeSessionId (state w') = Some now).
Proof.
  cbv zeta. unfold handleDeleteSession. rewrite bind_unfold, deleteSession_run. cbv zeta.
  set (remaining := List.filter (fun s => negb (JsString.eqb (id s) id'))
                                (persistedSessions w)).
  run.
  destruct (activeSessionId (state w)) as [activeId|] eqn:Ha.
  - destruct (JsString.eqb activeId id') eqn:Hid.
    + apply eqb_eq in Hid. subst activeId. run.
      destruct remaining as [|first rest] eqn:Hr; cbn [length Nat.eqb head option_map].
      * rewrite handleNewSession_run. cbv zeta.
        eexists. split; [reflexivity|].
        split; [rewrite persistedSessions_withState, persistedSessions_stored_chat,
                  persistedSessions_withState, persistedSessions_withState,
                  persistedSessions_stored_chat; reflexivity|].
        split; [intros H; contradiction H; reflexivity|].
        split; [intros _ first rest H; discriminate H|].
        intros _ _. split; reflexivity.
      * eexists. split; [reflexivity|].
        split; [rewrite !persistedSessions_withState; apply persistedSessions_stored_chat|].
        split; [intros H; contradiction H; reflexivity|].
        split; [|intros _ H; discriminate H].
        intros _ first' rest' H. injection H as <- <-. split; reflexivity.
    + run. eexists. split; [reflexivity|].
      split; [rewrite !persistedSessions_withState; apply persistedSessions_stored_chat|].
      split; [intros _; split; [reflexivity|exact Ha]|].
      apply eqb_neq in Hid.
      split; [intros H; injection H as H; contradiction|].
      intros H; injection H as H; contradiction.
  - run. eexists. split; [reflexivity|].
    split; [rewrite !persistedSessions_withState; apply persistedSessions_stored_chat|].
    split; [intros _; split; [reflexivity|exact Ha]|].
    split; intros H; discriminate H.
Qed.

(** X23 (clearing all chats).  After [handleClearAllHistory], whatever the
    sessions were, the state and the storage hold one session, new and
    empty, which is active, and the two dialogs are closed.  The stored
    search history is not cleared. *)
Theorem handleClearAllHistory_leaves_one_empty_session (now : jsstring) (w : World) :
  let newSession := {| id := now; title := js "Novo Chat"; messages := [] |} in
  exists w',
    handleClearAllHistory now w = Returned tt w'
    /\ sessions (state w') = [newSession]
    /\ persistedSessions w' = [newSession]
    /\ activeSessionId (state w') = Some now
    /\ isConfirmClearModalOpen (state w') = false
    /\ isSettingsModalOpen (state w') = false
    /\ persistedSearchHistory w' = persistedSearchHistory w.
Proof.
  cbv zeta. unfold handleClearAllHistory. run.
  rewrite bind_unfold, createNewSession_run. cbv zeta.
  rewrite persistedSessions_stored_chat. run.
  eexists. split; [reflexivity|]. split; [reflexivity|].
  split; [rewrite !persistedSessions_withState; apply persistedSessions_stored_chat|].
  split; [reflexivity|]. split; [reflexivity|]. split; [reflexivity|].
  rewrite !persistedSearchHistory_withState, !persistedSearchHistory_stored_chat.
  apply persistedSearchHistory_withState.
Qed.

Section Reload.

Lemma language_key_is_no_history_key : CHAT_HISTORY_KEY <> js "app_language".
Proof. vm_compute. discriminate. Qed.

Lemma persistedSessions_initialWorld w :
  persistedSessions (initialWorld (localStorage w)) = persistedSessions w.
Proof. apply persistedSessions_lookup. reflexivity. Qed.

(** The language that the mount effect finds stored. *)
Lemma mount_run (now : jsstring) (storage : gmap jsstring jsstring) :
  exists w1,
    (match persistedSessions (initialWorld storage) with
     | first :: rest =>
       w1 = withState (setActiveSessionId (Some (id first))
                         (setSessions (first :: rest) initialState))
                      (initialWorld storage)
     | [] =>
       w1 = worldOf (handleNewSession now
                       (withState (setSessions [] initialState) (initialWorld storage)))
     end)
    /\ localStorage w1 !! js "app_language" = storage !! js "app_language"
    /\ language (state w1) = js "pt-BR"
    /\ mount now (initialWorld storage) =
       Returned tt
         (match storage !! js "app_language" with
          | Some savedLang =>
            if truthy savedLang then withState (setLanguage savedLang (state w1)) w1 else w1
          | None => w1
          end).
Proof.
  unfold mount. rewrite bind_unfold, getChatHistory_returns.
  destruct (persistedSessions (initialWorld storage)) as [|first rest] eqn:Hp.
  - eexists. split; [reflexivity|].
    rewrite handleNewSession_run. cbv zeta. cbn [worldOf].
    split.
    { cbn [localStorage withState]. rewrite lookup_stored.
      apply decide_False, language_key_is_no_history_key. }
    split; [reflexivity|].
    run. rewrite bind_unfold, handleNewSession_run. cbv beta iota zeta.
    rewrite bind_unfold. unfold getItem.
    cbn [localStorage withState]. rewrite lookup_stored.
    rewrite decide_False by apply language_key_is_no_history_key.
    cbn [localStorage withState initialWorld].
    destruct (storage !! js "app_language") as [savedLang|]; cbn [truthyOpt default];
      [destruct (truthy savedLang)|]; reflexivity.
  - eexists. split; [reflexivity|]. split; [reflexivity|]. split; [reflexivity|].
    run. rewrite bind_unfold. unfold getItem. cbn [localStorage withState initialWorld].
    destruct (storage !! js "app_language") as [savedLang|]; cbn [truthyOpt default];
      [destruct (truthy savedLang)|]; reflexivity.
Qed.

End Reload.

Lemma mount_settles (now : jsstring) (storage : gmap jsstring jsstring) :
  let newSession := {| id := now; title := js "Novo Chat"; messages := [] |} in
  exists w',
    mount now (initialWorld storage) = Returned tt w'
    /\ persistedSessions w' = sessions (state w')
    /\ (forall first rest,
          persistedSessions (initialWorld storage) = first :: rest ->
          sessions (state w') = first :: rest
          /\ activeSessionId (state w') = Some (id first)
          /\ localStorage w' = storage
          /\ log w' = [])
    /\ (persistedSessions (initialWorld storage) = [] ->
        sessions (state w') = [newSession]
        /\ activeSessionId (state w') = Some now)
    /\ (forall lang, storage !! js "app_language" = Some lang -> lang <> [] ->
          language (state w') = lang)
    /\ (storage !! js "app_language" = None \/ storage !! js "app_language" = Some [] ->
        language (state w') = js "pt-BR").
Proof.
  cbv zeta. destruct (mount_run now storage) as (w1 & Hw1 & Hlookup & Hlang & Hrun).
  rewrite Hrun. eexists. split; [reflexivity|].
  assert (forall w2, (w2 = w1 \/ exists lang, w2 = withState (setLanguage lang (state w1)) w1) ->
            persistedSessions w2 = persistedSessions w1
            /\ sessions (state w2) = sessions (state w1)
            /\ activeSessionId (state w2) = activeSessionId (state w1)
            /\ localStorage w2 = localStorage w1 /\ log w2 = log w1) as Hsame.
  { intros w2 [->|[lang ->]]; [repeat split|].
    rewrite persistedSessions_withState. repeat split. }
  match goal with
  | |- persistedSessions ?W = _ /\ _ =>
    assert (W = w1 \/ exists lang, W = withState (setLanguage lang (state w1)) w1) as Hcase
      by (destruct (storage !! js "app_language") as [savedLang|];
          [destruct (truthy savedLang); [right; eexists; reflexivity|left; reflexivity]
          |left; reflexivity]);
    destruct (Hsame W Hcase) as (Hp & Hs & Ha & Hl & Hlog)
  end.
  rewrite Hp, Hs, Ha, Hl, Hlog.
  destruct (persistedSessions (initialWorld storage)) as [|first rest] eqn:Hstored.
  - rewrite handleNewSession_run in Hw1. cbv zeta in Hw1. cbn [worldOf] in Hw1.
    split.
    { subst w1. rewrite persistedSessions_withState, persistedSessions_stored_chat.
      rewrite persistedSessions_withState, Hstored. reflexivity. }
    split; [intros first rest H; discriminate H|].
    split; [intros _; subst w1; split; reflexivity|].
    split.
    + intros lang Hsaved Hnonempty. rewrite Hsaved. apply truthy_nonempty in Hnonempty.
      rewrite Hnonempty. reflexivity.
    + intros [Hsaved|Hsaved]; rewrite Hsaved; exact Hlang.
  - split.
    { subst w1. rewrite persistedSessions_withState. exact Hstored. }
    split.
    { intros first' rest' H. injection H as <- <-. subst w1. repeat split. }
    split; [intros H; discriminate H|].
    split.
    + intros lang Hsaved Hnonempty. rewrite Hsaved. apply truthy_nonempty in Hnonempty.
      rewrite Hnonempty. reflexivity.
    + intros [Hsaved|Hsaved]; rewrite Hsaved; exact Hlang.
Qed.

(** X24 (starting the application).  Over a storage that holds a collection
    of sessions saved by the application, or none yet, the mount effect of
    the first render loads the stored sessions into the state.  When there
    are some, the first one becomes active and nothing is written.  When
    there are none, a new empty session is created, stored and made active.
    The language is the stored one when a non-empty language is stored, and
    pt-BR otherwise.  The state holds the stored sessions afterwards. *)
Theorem mount_restores_or_creates
    (now : jsstring) (existing : list ChatSession) (storage : gmap jsstring jsstring) :
  storesSessions existing (initialWorld storage) ->
  let newSession := {| id := now; title := js "Novo Chat"; messages := [] |} in
  exists w',
    mount now (initialWorld storage) = Returned tt w'
    /\ persistedSessions w' = sessions (state w')
    /\ (forall first rest,
          existing = first :: rest ->
          sessions (state w') = existing
          /\ activeSessionId (state w') = Some (id first)
          /\ localStorage w' = storage
          /\ log w' = [])
    /\ (existing = [] ->
        sessions (state w') = [newSession]
        /\ activeSessionId (state w') = Some now
        /\ storesSessions [newSession] w')
    /\ (forall lang, storage !! js "app_language" = Some lang -> lang <> [] ->
          language (state w') = lang)
    /\ (storage !! js "app_language" = None \/ storage !! js "app_language" = Some [] ->
        language (state w') = js "pt-BR").
Proof.
  intros Hstored. cbv zeta. pose proof (persistedSessions_storesSessions _ _ Hstored) as Hp.
  destruct (mount_settles now storage) as (w' & Hrun & Hmirror & Hsome & Hnone & Hsaved & Hnot).
  exists w'. split; [exact Hrun|]. split; [exact Hmirror|].
  split; [|split; [|split; [exact Hsaved|exact Hnot]]].
  - intros first rest Hexisting. rewrite Hexisting in *. apply Hsome, Hp.
  - intros Hexisting. rewrite Hexisting in *. destruct (Hnone Hp) as [Hs Ha].
    split; [exact Hs|]. split; [exact Ha|].
    destruct (mount_run now storage) as (w1 & Hw1 & _ & _ & Hrun1).
    rewrite Hp in Hw1. rewrite Hrun in Hrun1. injection Hrun1 as ->.
    assert (storesSessions [{| id := now; title := js "Novo Chat"; messages := [] |}] w1)
      as H1.
    { subst w1. rewrite handleNewSession_run. cbv zeta. cbn [worldOf].
      unfold storesSessions. cbn [localStorage withState].
      rewrite lookup_stored, decide_True by reflexivity.
      rewrite persistedSessions_withState, Hp. reflexivity. }
    destruct (storage !! js "app_language") as [savedLang|]; [|exact H1].
    destruct (truthy savedLang); exact H1.
Qed.

(** X25 (the language survives a reload).  After [handleLanguageChange] with
    a non-empty language, the language of the state is that language, and
    so is the language of the state when the application is started again
    over the storage the change left; the stored sessions are the ones the
    restarted application shows. *)
Theorem handleLanguageChange_survives_reload (lang now : jsstring) (w : World) :
  lang <> [] ->
  exists w1 w2,
    handleLanguageChange lang w = Returned tt w1
    /\ language (state w1) = lang
    /\ persistedSessions w1 = persistedSessions w
    /\ mount now (initialWorld (localStorage w1)) = Returned tt w2
    /\ language (state w2) = lang
    /\ (persistedSessions w <> [] -> sessions (state w2) = persistedSessions w).
Proof.
  intros Hlang. unfold handleLanguageChange. run.
  set (w1 := stored (js "app_language") lang (withState (setLanguage lang (state w)) w)).
  assert (persistedSessions w1 = persistedSessions w) as Hp.
  { subst w1. rewrite persistedSessions_stored_other, persistedSessions_withState;
      [reflexivity|].
    intros H. apply language_key_is_no_history_key. symmetry. exact H. }
  assert (localStorage w1 !! js "app_language" = Some lang) as Hsaved
    by (subst w1; rewrite lookup_stored, decide_True; reflexivity).
  destruct (mount_run now (localStorage w1)) as (v & Hv & _ & _ & Hrun).
  rewrite Hsaved in Hrun. apply truthy_nonempty in Hlang. rewrite Hlang in Hrun.
  exists w1. eexists. split; [reflexivity|]. split; [reflexivity|].
  split; [exact Hp|]. split; [exact Hrun|]. split; [reflexivity|].
  intros Hnonempty. rewrite persistedSessions_initialWorld, Hp in Hv.
  destruct (persistedSessions w) as [|first rest]; [contradiction|].
  subst v. reflexivity.
Qed.

(** * Further properties: state and storage, study and learn, suggestions *)

Section Mirror.

Variable toLowerCase : jsstring -> jsstring.
Variable API_KEY : jsstring.

Lemma staysMirrored_refl w : staysMirrored w w.
Proof. intros H. exact H. Qed.

Lemma staysMirrored_trans w1 w2 w3 :
  staysMirrored w1 w2 -> staysMirrored w2 w3 -> staysMirrored w1 w3.
Proof. intros H1 H2 H. apply H2, H1, H. Qed.

Lemma staysMirrored_logged e w : staysMirrored w (logged e w).
Proof. unfold staysMirrored, mirrorsStorage. rewrite persistedSessions_logged. auto. Qed.

Lemma staysMirrored_stored key value w :
  key <> CHAT_HISTORY_KEY -> staysMirrored w (stored key value w).
Proof.
  intros Hkey. unfold staysMirrored, mirrorsStorage.
  rewrite persistedSessions_stored_other by exact Hkey. auto.
Qed.

Lemma staysMirrored_withState a w :
  sessions a = sessions (state w) -> staysMirrored w (withState a w).
Proof.
  intros Ha. unfold staysMirrored, mirrorsStorage.
  rewrite persistedSessions_withState. cbn [state withState]. congruence.
Qed.

(** Whatever the world, the state shows the stored sessions in this one. *)
Lemma staysMirrored_established w w' : mirrorsStorage w' -> staysMirrored w w'.
Proof. intros H _. exact H. Qed.

Lemma mirrored_updateMessages sessions0 sessionId newMessages :
  steps staysMirrored (updateMessages sessions0 sessionId newMessages).
Proof.
  intros w. apply staysMirrored_established. unfold updateMessages, mirrorsStorage. run.
  rewrite persistedSessions_stored_chat. reflexivity.
Qed.

Lemma mirrored_title sessionId title' :
  steps staysMirrored
        (updatedSessions <- updateSessionTitle sessionId title' ;;
         setState (setSessions updatedSessions)).
Proof.
  intros w Hw. unfold mirrorsStorage in *.
  rewrite bind_unfold, updateSessionTitle_run. run.
  rewrite persistedSessions_withState.
  destruct (find _ (persistedSessions w)) eqn:Hfind.
  - apply persistedSessions_stored_chat.
  - symmetry. apply assignTitle_absent, Hfind.
Qed.

Lemma mirrored_handleNewSession now : steps staysMirrored (handleNewSession now).
Proof.
  intros w Hw. unfold mirrorsStorage in *. rewrite handleNewSession_run. cbv zeta.
  cbn [worldOf]. rewrite persistedSessions_withState, persistedSessions_stored_chat, Hw.
  reflexivity.
Qed.

Lemma mirrored_handleDeleteSession id' now : steps staysMirrored (handleDeleteSession id' now).
Proof.
  intros w. apply staysMirrored_established. unfold mirrorsStorage, handleDeleteSession.
  rewrite bind_unfold, deleteSession_run. cbv zeta. run.
  destruct (match activeSessionId (state w) with
            | Some activeId => JsString.eqb activeId id'
            | None => false
            end); run.
  - destruct (List.filter _ (persistedSessions w)) as [|first rest];
      cbn [length Nat.eqb head option_map].
    + rewrite handleNewSession_run. cbv zeta. cbn [worldOf].
      rewrite persistedSessions_withState, persistedSessions_stored_chat,
        persistedSessions_withState, persistedSessions_withState,
        persistedSessions_stored_chat.
      reflexivity.
    + cbn [worldOf ret]. rewrite !persistedSessions_withState.
      apply persistedSessions_stored_chat.
  - cbn [worldOf]. rewrite !persistedSessions_withState. apply persistedSessions_stored_chat.
Qed.

Lemma mirrored_handleClearAllHistory now : steps staysMirrored (handleClearAllHistory now).
Proof.
  intros w. apply staysMirrored_established. unfold mirrorsStorage, handleClearAllHistory.
  run. rewrite bind_unfold, createNewSession_run. cbv zeta.
  rewrite persistedSessions_stored_chat. run. cbn [worldOf].
  rewrite !persistedSessions_withState. apply persistedSessions_stored_chat.
Qed.

(** [steps staysMirrored m] by the structure of [m]: the writes of the
    sessions are taken together with the store that follows them. *)
Ltac mirrored rec :=
  repeat (cbv beta zeta;
    lazymatch goal with
    | |- forall _, _ => intro
    | |- steps _ (updateMessages _ _ _) => apply mirrored_updateMessages
    | |- steps _ (bind (updateSessionTitle _ _) _) => apply mirrored_title
    | |- steps _ (handleNewSession _) => apply mirrored_handleNewSession
    | |- steps _ (consume _ _) => rec
    | |- steps _ (poll _ _) => rec
    | |- steps _ (handleSendMessage _ _ _ _ _) => rec
    | |- steps _ (ret _) => apply (steps_ret _ staysMirrored_refl staysMirrored_trans)
    | |- steps _ (throw _) => apply (steps_throw _ staysMirrored_refl staysMirrored_trans)
    | |- steps _ (await _) => apply (steps_await _ staysMirrored_refl staysMirrored_trans)
    | |- steps _ (getItem _) => apply (steps_getItem _ staysMirrored_refl staysMirrored_trans)
    | |- steps _ (modify _) =>
      apply (steps_modify _ staysMirrored_refl staysMirrored_trans); intro; cbv beta;
      lazymatch goal with
      | |- staysMirrored ?w (logged _ ?w) => apply staysMirrored_logged
      | |- staysMirrored ?w (stored _ _ ?w) =>
        apply staysMirrored_stored; vm_compute; discriminate
      | |- staysMirrored ?w (withState _ ?w) => apply staysMirrored_withState; reflexivity
      end
    | |- steps _ (bind _ _) => apply (steps_bind _ staysMirrored_refl staysMirrored_trans)
    | |- steps _ (tryCatch _ _) =>
      apply (steps_tryCatch _ staysMirrored_refl staysMirrored_trans)
    | |- steps _ (tryFinally _ _) =>
      apply (steps_tryFinally _ staysMirrored_refl staysMirrored_trans)
    | |- steps _ (match ?x with _ => _ end) => destruct x
    | |- steps _ ?m => let h := head_of m in unfold h
    end).

Lemma mirrored_consume fragments : forall fullResponse,
  steps staysMirrored (consume fragments fullResponse).
Proof.
  induction fragments as [|chunk rest IH]; intro; cbn [consume]; mirrored ltac:(apply IH).
Qed.

Lemma mirrored_poll answers : forall operation, steps staysMirrored (poll operation answers).
Proof.
  induction answers as [|answer rest IH]; intro; cbn [poll]; mirrored ltac:(apply IH).
Qed.

Lemma mirrored_handleSendMessage messageText imageFile titleScript chatScript :
  steps staysMirrored
        (handleSendMessage toLowerCase messageText imageFile titleScript chatScript).
Proof.
  unfold handleSendMessage. handler staysMirrored_refl.
  mirrored ltac:(apply mirrored_consume).
Qed.

Lemma mirrored_handleGenerateImage prompt script :
  steps staysMirrored (handleGenerateImage toLowerCase prompt script).
Proof.
  unfold handleGenerateImage. handler staysMirrored_refl. mirrored fail.
Qed.

Lemma mirrored_handleGenerateVideo prompt script :
  steps staysMirrored (handleGenerateVideo toLowerCase API_KEY prompt script).
Proof.
  unfold handleGenerateVideo. handler staysMirrored_refl.
  mirrored ltac:(apply mirrored_poll).
Qed.

Lemma mirrored_perform a : steps staysMirrored (perform toLowerCase API_KEY a).
Proof.
  destruct a; cbn [perform];
    lazymatch goal with
    | |- steps _ (handleGenerateImage _ _ _) => apply mirrored_handleGenerateImage
    | |- steps _ (handleGenerateVideo _ _ _ _) => apply mirrored_handleGenerateVideo
    | |- steps _ (handleSendMessage _ _ _ _ _) => apply mirrored_handleSendMessage
    | |- steps _ (handleDeleteSession _ _) => apply mirrored_handleDeleteSession
    | |- steps _ (handleClearAllHistory _) => apply mirrored_handleClearAllHistory
    | |- steps _ onMenuClick => unfold onMenuClick; handler staysMirrored_refl; mirrored fail
    | |- _ => mirrored ltac:(apply mirrored_handleSendMessage)
    end.
Qed.

Lemma mirrored_performAll actions : forall w,
  staysMirrored w (performAll toLowerCase API_KEY actions w).
Proof.
  induction actions as [|a rest IH]; intros w; cbn [performAll].
  - apply staysMirrored_refl.
  - eapply staysMirrored_trans; [apply mirrored_perform | apply IH].
Qed.

End Mirror.

Section Suggestions.

Lemma mount_mirrors (now : jsstring) (storage : gmap jsstring jsstring) :
  mirrorsStorage (worldOf (mount now (initialWorld storage))).
Proof.
  destruct (mount_run now storage) as (w1 & Hw1 & _ & _ & Hrun). rewrite Hrun.
  cbn [worldOf]. unfold mirrorsStorage.
  assert (persistedSessions w1 = sessions (state w1)) as H1.
  { destruct (persistedSessions (initialWorld storage)) as [|first rest] eqn:Hstored;
      subst w1.
    - rewrite handleNewSession_run. cbv zeta. cbn [worldOf].
      rewrite persistedSessions_withState, persistedSessions_stored_chat.
      rewrite persistedSessions_withState, Hstored. reflexivity.
    - rewrite persistedSessions_withState. exact Hstored. }
  destruct (storage !! js "app_language") as [savedLang|]; [|exact H1].
  destruct (truthy savedLang); [|exact H1].
  rewrite persistedSessions_withState. exact H1.
Qed.

End Suggestions.

(** X26 (the state shows the stored sessions).  Over a storage that holds
    what the application saved (a collection of sessions and a search
    history, or none yet), and with every write to the storage succeeding:
    when the sessions of the state are the stored ones, they still are after
    any sequence of operations of the controller run one after the other,
    each to wherever it gets (returned, thrown or suspended).  This holds
    from the start: after the mount effect, and then after any sequence of
    operations. *)
Theorem performAll_keeps_state_and_storage_together
    (toLowerCase : jsstring -> jsstring) (API_KEY : jsstring) :
  (forall actions existing searches w,
     storesSessions existing w ->
     storesSearchHistory searches w ->
     sessions (state w) = existing ->
     let w' := performAll toLowerCase API_KEY actions w in
     persistedSessions w' = sessions (state w'))
  /\ (forall now storage existing searches actions,
        storesSessions existing (initialWorld storage) ->
        storesSearchHistory searches (initialWorld storage) ->
        let w' := performAll toLowerCase API_KEY actions
                             (worldOf (mount now (initialWorld storage))) in
        persistedSessions w' = sessions (state w')).
Proof.
  split.
  - intros actions existing searches w Hstored _ Hstate.
    apply (mirrored_performAll toLowerCase API_KEY actions w).
    unfold mirrorsStorage. rewrite Hstate. apply persistedSessions_storesSessions, Hstored.
  - intros now storage existing searches actions _ _.
    apply (mirrored_performAll toLowerCase API_KEY actions _ (mount_mirrors now storage)).
Qed.

(** X27 (study and learn).  [handleStudy] and [handleLearn] send, as a chat
    turn, the content between two lines of dashes after their fixed request;
    the text sent is never empty, whatever the content, so the turn is not
    dropped by the guard on empty text.  When the turn is accepted and its
    stream completes, the transcript of the active session becomes the
    earlier messages, a user message with that text and, if the answer has
    text, one model message whose text is the answer. *)
Theorem handleStudy_and_handleLearn_send_the_content
    (toLowerCase : jsstring -> jsstring) (content : jsstring)
    (titleScript : Settled (option jsstring)) (chatScript : ChatScript)
    (w : World) (sid : jsstring) :
  activeSessionId (state w) = Some sid ->
  truthy sid = true ->
  isLoading (state w) = false ->
  titleScript <> NeverSettles ->
  ending chatScript = Fulfilled tt ->
  let wrapped := [10; 10] ++ js "---" ++ [10] ++ content ++ [10] ++ js "---" in
  let study :=
    js "Por favor, estude o seguinte texto e me diga o que você aprendeu ou resuma-o:"
    ++ wrapped in
  let learn :=
    js "Por favor, aprenda a seguinte informação para usar em nossa conversa:" ++ wrapped in
  let sent := fun prompt =>
    {| sender := user; text := prompt; imageUrl := None; videoUrl := None |} in
  let fullResponse := concat (yielded (chunks chatScript)) in
  let committed :=
    if truthy fullResponse
    then [{| sender := model; text := fullResponse; imageUrl := None; videoUrl := None |}]
    else [] in
  (exists w',
     handleStudy toLowerCase content titleScript chatScript w = Returned tt w'
     /\ transcripts sid (sessions (state w'))
        = map (fun _ => currentMessages w (sent study) ++ committed)
              (transcripts sid (sessions (state w))))
  /\ (exists w',
        handleLearn toLowerCase content titleScript chatScript w = Returned tt w'
        /\ transcripts sid (sessions (state w'))
           = map (fun _ => currentMessages w (sent learn) ++ committed)
                 (transcripts sid (sessions (state w)))).
Proof.
  intros Ha Hsid Hl Htitle Hend. cbv zeta.
  assert (forall (prompt : jsstring) (a : AppState),
            truthy prompt = true ->
            sessions a = sessions (state w) ->
            activeSessionId a = activeSessionId (state w) ->
            isLoading a = isLoading (state w) ->
            exists w',
              handleSendMessage toLowerCase prompt None titleScript chatScript (withState a w)
              = Returned tt w'
              /\ transcripts sid (sessions (state w'))
                 = map (fun _ =>
                          currentMessages w (userRequest prompt)
                          ++ (if truthy (concat (yielded (chunks chatScript)))
                              then [modelMessage (concat (yielded (chunks chatScript)))]
                              else []))
                       (transcripts sid (sessions (state w)))) as Hturn.
  { intros prompt a Hprompt Hs Hactive Hloading.
    assert (activeSessionId (state (withState a w)) = Some sid) as Ha'
      by (cbn [state withState]; congruence).
    assert (isLoading (state (withState a w)) = false) as Hl'
      by (cbn [state withState]; congruence).
    assert (forall file : File, @None File = Some file ->
              exists read, fileToBase64 file = Fulfilled read) as Hfile
      by (intros file H; discriminate H).
    assert (ending chatScript <> NeverSettles) as Hsettles
      by (rewrite Hend; discriminate).
    destruct (handleSendMessage_settles toLowerCase prompt None titleScript chatScript
                (withState a w) sid Ha' Hsid Hl' Hfile Hprompt Htitle Hsettles)
      as (t & c & _ & w' & Hrun & Hsessions & _).
    exists w'. split; [exact Hrun|].
    rewrite Hsessions, Hend. cbn [state withState]. rewrite Hs.
    assert (currentMessages (withState a w) (outgoingMessage prompt None)
            = currentMessages w (userRequest prompt)) as ->.
    { unfold currentMessages, activeSession. cbn [state withState].
      rewrite Hs, Hactive. reflexivity. }
    destruct (truthy (concat (yielded (chunks chatScript)))).
    - apply transcripts_updatedSessions.
    - rewrite app_nil_r.
      destruct (startsSession (withState a w));
        [rewrite transcripts_assignTitle|]; apply transcripts_updatedSessions. }
  split.
  - unfold handleStudy. run. apply Hturn; reflexivity.
  - unfold handleLearn. run. apply Hturn; reflexivity.
Qed.

(** X28 (the suggestions under the input).  For the list it is given,
    [filteredHistory] returns, in the order of the list, the entries whose
    lower-cased text contains the lower-cased input and no other, and the
    whole list while the input is empty. *)
Theorem filteredHistory_shows_matching_entries
    (toLowerCase : jsstring -> jsstring) (input : jsstring)
    (searchHistory : list jsstring) :
  sublist (MessageInput.filteredHistory toLowerCase input searchHistory) searchHistory
  /\ (forall item,
        In item (MessageInput.filteredHistory toLowerCase input searchHistory)
        <-> In item searchHistory
            /\ (input = [] \/ includes (toLowerCase input) (toLowerCase item) = true))
  /\ (forall kept dropped,
        searchHistory = kept ++ dropped ->
        MessageInput.filteredHistory toLowerCase input searchHistory
        = MessageInput.filteredHistory toLowerCase input kept
          ++ MessageInput.filteredHistory toLowerCase input dropped)
  /\ MessageInput.filteredHistory toLowerCase [] searchHistory = searchHistory.
Proof.
  unfold MessageInput.filteredHistory. split; [|split; [|split]].
  - destruct input as [|c input]; cbn [truthy negb]; [reflexivity|].
    induction searchHistory as [|item rest IH]; cbn [List.filter]; [constructor|].
    destruct (includes _ _); [apply sublist_skip|apply sublist_cons]; exact IH.
  - intros item. destruct input as [|c input]; cbn [truthy negb].
    + split; [intros H; split; [exact H|left; reflexivity]|intros [H _]; exact H].
    + rewrite List.filter_In. split; intros [Hin H]; (split; [exact Hin|]).
      * right. exact H.
      * destruct H as [H|H]; [discriminate H|exact H].
  - intros kept dropped ->. destruct input as [|c input]; cbn [truthy negb];
      [reflexivity|]. apply List.filter_app.
  - reflexivity.
Qed.

Section Blank.

Lemma dropWhile_nil_iff (p : N -> bool) (s : jsstring) :
  dropWhile p s = [] <-> forallb p s = true.
Proof.
  induction s as [|c s IH]; cbn [dropWhile forallb]; [split; reflexivity|].
  destruct (p c); cbn [andb]; [exact IH|]. split; intros H; discriminate H.
Qed.

Lemma dropWhile_dropWhile (p : N -> bool) (s : jsstring) :
  forallb p (dropWhile p s) = true -> dropWhile p s = [].
Proof.
  induction s as [|c s IH]; cbn [dropWhile]; [reflexivity|].
  destruct (p c) eqn:Hc; [exact IH|]. cbn [forallb]. rewrite Hc. intros H. discriminate H.
Qed.

Lemma forallb_rev (p : N -> bool) (s : jsstring) : forallb p (rev s) = forallb p s.
Proof.
  induction s as [|c s IH]; [reflexivity|]. cbn [rev forallb].
  rewrite forallb_app, IH. cbn [forallb]. rewrite andb_true_r. apply andb_comm.
Qed.

Lemma trim_nil_iff (s : jsstring) : trim s = [] <-> forallb isWhiteSpace s = true.
Proof.
  unfold trim, dropWhileEnd. split.
  - intros H. apply dropWhile_nil_iff, dropWhile_dropWhile.
    rewrite <- forallb_rev. apply dropWhile_nil_iff.
    apply (f_equal (@rev N)) in H. rewrite rev_involutive in H. exact H.
  - intros H. apply dropWhile_nil_iff in H. rewrite H. reflexivity.
Qed.

End Blank.

(** X29 (the dialogs do not submit blank content).  [handleSubmit] of an
    action dialog does nothing when the content is empty or holds white
    space only, and otherwise passes the content on as it was typed, white
    space at its ends included.  So a blank text in the study dialog or a
    blank prompt in the image dialog leaves the world as it was, and any
    other prompt reaches [handleGenerateImage] unchanged. *)
Theorem handleSubmit_ignores_blank_content
    (toLowerCase : jsstring -> jsstring) (content : jsstring) (w : World) :
  (forallb isWhiteSpace content = true ->
   (forall onSubmit, ActionModal.handleSubmit content onSubmit w = Returned tt w)
   /\ (forall titleScript chatScript,
         ActionModal.handleSubmit content
           (fun content' => handleStudy toLowerCase content' titleScript chatScript) w
         = Returned tt w))
  /\ (forallb isWhiteSpace content = false ->
      (forall onSubmit, ActionModal.handleSubmit content onSubmit w = onSubmit content w)
      /\ (forall script,
            ActionModal.handleSubmit content
              (fun prompt => handleGenerateImage toLowerCase prompt script) w
            = handleGenerateImage toLowerCase content script w)).
Proof.
  unfold ActionModal.handleSubmit. split.
  - intros H. apply trim_nil_iff in H. rewrite H. split; reflexivity.
  - intros H. destruct (trim content) as [|c rest] eqn:Htrim.
    + apply trim_nil_iff in Htrim. congruence.
    + split; reflexivity.
Qed.

(** * Further scenarios *)


(** X2: the stored session of the worked example is renamed. *)
Lemma updateSessionTitle_by_theorem :
  exists w',
    updateSessionTitle stamp (js "Kyoto") crowded
    = Returned [{| id := stamp; title := js "Kyoto";
                   messages := [userRequest (js "Plan a trip to Japan")] |}] w'.
Proof.
  destruct (proj1 (updateSessionTitle_renames_first_match stamp (js "Kyoto") crowded)
              []
              {| id := stamp; title := js "Trip to Japan";
                 messages := [userRequest (js "Plan a trip to Japan")] |}
              [])
    as (w' & Hrun & _).
  - vm_compute. reflexivity.
  - reflexivity.
  - constructor.
  - exists w'. rewrite Hrun. vm_compute. reflexivity.
Defined.

(** X8: [add("Cat")] then [add("cat")] then [add("cat")]. *)
Lemma addSearchHistoryEntry_once_more_by_theorem :
  exists w',
    addSearchHistoryEntry asciiToLowerCase (js "cat") searched = Returned tt w'
    /\ head (persistedSearchHistory w') = Some (js "cat")
    /\ exists w'',
         addSearchHistoryEntry asciiToLowerCase (js "cat") w' = Returned tt w''
         /\ persistedSearchHistory w'' = persistedSearchHistory w'.
Proof.
  destruct (addSearchHistoryEntry_keeps_one_entry_per_query asciiToLowerCase (js "cat")
              searched)
    as (w' & Hrun & Hhead & _ & _ & Hagain).
  - vm_compute. discriminate.
  - exists w'. split; [exact Hrun|]. split; [exact Hhead|exact Hagain].
Defined.

(** X9: [add("Cat")], [add("cat")], [delete("cat")]: nothing is left. *)
Lemma addSearchHistoryEntry_then_delete_by_theorem :
  exists w1 w2,
    addSearchHistoryEntry asciiToLowerCase (js "cat") searched = Returned tt w1
    /\ deleteSearchHistoryEntry (js "cat") w1 = Returned [] w2.
Proof.
  destruct (addSearchHistoryEntry_then_delete asciiToLowerCase (js "cat") searched)
    as (w1 & history & w2 & Hadd & Hdelete & _ & Hhistory).
  - vm_compute. discriminate.
  - exists w1, w2. split; [exact Hadd|]. rewrite Hdelete. f_equal.
    rewrite Hhistory. vm_compute. reflexivity.
Defined.

(** X13: the video scenario: not done twice, then done. *)
Lemma generateVideo_by_theorem :
  generateVideo key (js "a cat") (twoChecks resultUri) fresh
  = Returned (resultUri ++ js "&key=" ++ key)
      (withLog (log fresh
                ++ [Call (GenerateVideos (js "veo-2.0-generate-001") (js "a cat"));
                    Timeout 10000; Call GetVideosOperation;
                    Timeout 10000; Call GetVideosOperation])
               fresh).
Proof.
  destruct (generateVideo_polls_until_done key (js "a cat") running [running] [] fresh)
    as (_ & H & _).
  cbv zeta in H. apply (H (finished resultUri)).
  - reflexivity.
  - repeat constructor.
  - reflexivity.
Defined.

(** X14: the stream fails after the fragment Hi. *)
Lemma failing_stream_by_theorem :
  exists w',
    handleSendMessage asciiToLowerCase (js "Hello") None
                      (Fulfilled (Some (js "Title: Greeting"))) dropped fresh
    = Returned tt w'
    /\ transcripts stamp (sessions (state w'))
       = [[{| sender := user; text := js "Hello"; imageUrl := None; videoUrl := None |};
           {| sender := model;
              text := js "⚠️ **Erro:** Você atingiu sua cota de uso da API. Por favor, verifique seu plano ou tente novamente mais tarde.";
              imageUrl := None; videoUrl := None |}]].
Proof.
  destruct (handleSendMessage_failure_commits_error asciiToLowerCase (js "Hello") None
              (Fulfilled (Some (js "Title: Greeting"))) dropped fresh stamp quotaExhausted)
    as (w' & Hrun & Htranscripts & _).
  - vm_compute. reflexivity.
  - vm_compute. reflexivity.
  - vm_compute. reflexivity.
  - intros file H. discriminate H.
  - vm_compute. reflexivity.
  - discriminate.
  - reflexivity.
  - exists w'. split; [exact Hrun|]. rewrite Htranscripts. vm_compute. reflexivity.
Defined.

(** X15: after the first turn of the streaming scenario the session is
    still called Novo Chat. *)
Lemma first_turn_keeps_title_by_theorem :
  exists w',
    handleSendMessage asciiToLowerCase (js "Hello") None
                      (Fulfilled (Some (js "Title: Greeting"))) hiThere fresh
    = Returned tt w'
    /\ map title (sessions (state w')) = [js "Novo Chat"]
    /\ map title (persistedSessions w') = [js "Novo Chat"].
Proof.
  destruct (handleSendMessage_last_write_uses_first_sessions asciiToLowerCase (js "Hello")
              None (Fulfilled (Some (js "Title: Greeting"))) hiThere fresh stamp)
    as (t & c & _ & w' & Hrun & Hkept & _ & Hstored).
  - vm_compute. reflexivity.
  - vm_compute. reflexivity.
  - vm_compute. reflexivity.
  - intros file H. discriminate H.
  - vm_compute. reflexivity.
  - vm_compute. reflexivity.
  - discriminate.
  - reflexivity.
  - exists w'. split; [exact Hrun|]. rewrite Hstored, Hkept.
    + split; vm_compute; reflexivity.
    + vm_compute. discriminate.
Defined.

(** X16: a message sent while a turn is running. *)
Lemma busy_controller_by_theorem :
  handleSendMessage asciiToLowerCase (js "Hello") None (Fulfilled None) hiThere busy
  = Returned tt busy.
Proof.
  apply (turn_handlers_reject_while_loading asciiToLowerCase key busy).
  left. reflexivity.
Defined.

(** X17: a message with a file that cannot be read. *)
Lemma unreadable_attachment_by_theorem :
  handleSendMessage asciiToLowerCase (js "Hello") (Some unreadable) (Fulfilled None)
                    hiThere fresh
  = Thrown (newError (js "The file could not be read.")) fresh.
Proof.
  apply (handleSendMessage_unreadable_attachment asciiToLowerCase (js "Hello") unreadable
           (Fulfilled None) hiThere fresh stamp).
  - vm_compute. reflexivity.
  - vm_compute. reflexivity.
  - vm_compute. reflexivity.
  - reflexivity.
Defined.

(** X18: an image of a cat. *)
Lemma image_scenario_by_theorem :
  exists w',
    handleGenerateImage asciiToLowerCase (js "a cat") (Fulfilled (Some (js "iVBORw0KGgo=")))
                        fresh
    = Returned tt w'
    /\ transcripts stamp (sessions (state w'))
       = [[userRequest (js "Gerar imagem: " ++ [34] ++ js "a cat" ++ [34]);
           {| sender := model;
              text := js "Imagem gerada para: " ++ [34] ++ js "a cat" ++ [34];
              imageUrl := Some (js "data:image/png;base64,iVBORw0KGgo=");
              videoUrl := None |}]].
Proof.
  destruct (handleGenerateImage_commits_image asciiToLowerCase (js "a cat")
              (js "iVBORw0KGgo=") fresh stamp)
    as (w' & searchValue & Hrun & Htranscripts & _).
  - vm_compute. reflexivity.
  - vm_compute. reflexivity.
  - vm_compute. reflexivity.
  - vm_compute. reflexivity.
  - vm_compute. discriminate.
  - exists w'. split; [exact Hrun|]. rewrite Htranscripts. vm_compute. reflexivity.
Defined.

(** X19: an image request over the quota leaves the feature on. *)
Lemma image_quota_failure_by_theorem :
  exists w',
    handleGenerateImage asciiToLowerCase (js "a cat") (Rejected quotaExhausted) fresh
    = Returned tt w'
    /\ transcripts stamp (sessions (state w'))
       = [[{| sender := user; text := js "Gerar imagem: " ++ [34] ++ js "a cat" ++ [34];
              imageUrl := None; videoUrl := None |};
           {| sender := model;
              text := js "⚠️ **Erro:** Você atingiu sua cota de uso da API. Por favor, verifique seu plano ou tente novamente mais tarde.";
              imageUrl := None; videoUrl := None |}]]
    /\ isImageGenAvailable (state w') = true.
Proof.
  destruct (handleGenerateImage_failure_commits_error asciiToLowerCase (js "a cat")
              (Rejected quotaExhausted) fresh stamp (newError quotaMessage))
    as (w' & Hrun & Htranscripts & _ & Hflag & _).
  - vm_compute. reflexivity.
  - vm_compute. reflexivity.
  - vm_compute. reflexivity.
  - vm_compute. reflexivity.
  - intros w1. eexists. reflexivity.
  - exists w'. split; [exact Hrun|]. split; [|exact Hflag].
    rewrite Htranscripts. vm_compute. reflexivity.
Defined.

(** X20: a video request refused for billing: the placeholder gives way to
    the error and the feature is switched off. *)
Lemma video_billing_failure_by_theorem :
  exists w',
    handleGenerateVideo asciiToLowerCase key (js "a cat")
                        {| started := Rejected billedOnly; checks := [] |} fresh
    = Returned tt w'
    /\ transcripts stamp (sessions (state w'))
       = [[userRequest (js "Gerar vídeo: " ++ [34] ++ js "a cat" ++ [34]);
           modelMessage (js "⚠️ **Erro:** " ++ billingMessage (js "geração de vídeo"))]]
    /\ isVideoGenAvailable (state w') = false.
Proof.
  destruct (handleGenerateVideo_failure_replaces_placeholder asciiToLowerCase key (js "a cat")
              {| started := Rejected billedOnly; checks := [] |} fresh stamp
              (newBillingError (billingMessage (js "geração de vídeo"))))
    as (w' & Hrun & Htranscripts & _ & _ & Hflag & _).
  - vm_compute. reflexivity.
  - vm_compute. reflexivity.
  - vm_compute. reflexivity.
  - vm_compute. reflexivity.
  - intros w1. eexists. reflexivity.
  - exists w'. split; [exact Hrun|]. split; [|exact Hflag].
    rewrite Htranscripts. vm_compute. reflexivity.
Defined.

(** X24: the first start, over an empty storage. *)
Lemma mount_by_theorem :
  exists w',
    mount stamp (initialWorld ∅) = Returned tt w'
    /\ sessions (state w') = [{| id := stamp; title := js "Novo Chat"; messages := [] |}]
    /\ activeSessionId (state w') = Some stamp.
Proof.
  destruct (mount_restores_or_creates stamp [] ∅) as (w' & Hrun & _ & _ & Hnew & _).
  - vm_compute. reflexivity.
  - exists w'. split; [exact Hrun|]. destruct (Hnew eq_refl) as (Hs & Ha & _).
    split; assumption.
Defined.

(** X26: a new session, a message and a deleted session after the first
    start. *)
Lemma state_and_storage_by_theorem :
  let w' := performAll asciiToLowerCase key
              [NewSession (js "2024-01-02T00:00:00.000Z");
               SendMessage (js "Hello") None (Fulfilled None) hiThere;
               DeleteSession stamp (js "2024-01-03T00:00:00.000Z")]
              fresh in
  persistedSessions w' = sessions (state w').
Proof.
  apply (proj1 (performAll_keeps_state_and_storage_together asciiToLowerCase key) _
           [{| id := stamp; title := js "Novo Chat"; messages := [] |}] []).
  - vm_compute. reflexivity.
  - vm_compute. reflexivity.
  - vm_compute. reflexivity.
Defined.

(** X25: English, and a reload. *)
Lemma language_reload_by_theorem :
  exists w1 w2,
    handleLanguageChange (js "en-US") fresh = Returned tt w1
    /\ mount (js "2024-01-02T00:00:00.000Z") (initialWorld (localStorage w1)) = Returned tt w2
    /\ language (state w2) = js "en-US".
Proof.
  destruct (handleLanguageChange_survives_reload (js "en-US") (js "2024-01-02T00:00:00.000Z")
              fresh)
    as (w1 & w2 & Hchange & _ & _ & Hmount & Hlanguage & _).
  - vm_compute. discriminate.
  - exists w1, w2. split; [exact Hchange|]. split; [exact Hmount|exact Hlanguage].
Defined.

(** X27: studying an empty text is still a turn. *)
Lemma study_empty_content_by_theorem :
  exists w',
    handleStudy asciiToLowerCase [] (Fulfilled None) hiThere fresh = Returned tt w'
    /\ transcripts stamp (sessions (state w'))
       = [[userRequest
             (js "Por favor, estude o seguinte texto e me diga o que você aprendeu ou resuma-o:"
              ++ [10; 10] ++ js "---" ++ [10; 10] ++ js "---");
           {| sender := model; text := js "Hi there"; imageUrl := None;
              videoUrl := None |}]].
Proof.
  destruct (handleStudy_and_handleLearn_send_the_content asciiToLowerCase []
              (Fulfilled None) hiThere fresh stamp)
    as [(w' & Hrun & Htranscripts) _].
  - vm_compute. reflexivity.
  - vm_compute. reflexivity.
  - vm_compute. reflexivity.
  - discriminate.
  - reflexivity.
  - exists w'. split; [exact Hrun|]. rewrite Htranscripts. vm_compute. reflexivity.
Defined.

(** X28: with the input "he", "Hello" is suggested and "World" is not. *)
Lemma filteredHistory_by_theorem :
  let shown := MessageInput.filteredHistory asciiToLowerCase (js "he")
                 [js "World"; js "Hello"] in
  In (js "Hello") shown /\ ~ In (js "World") shown.
Proof.
  destruct (filteredHistory_shows_matching_entries asciiToLowerCase (js "he")
              [js "World"; js "Hello"]) as (_ & Hshown & _).
  split.
  - apply Hshown. split; [right; left; reflexivity|right; vm_compute; reflexivity].
  - intros Hin. apply Hshown in Hin as [_ [Hempty|Hmatch]].
    + discriminate Hempty.
    + vm_compute in Hmatch. discriminate Hmatch.
Defined.

(** X29: three spaces in the study dialog. *)
Lemma blank_study_by_theorem :
  ActionModal.handleSubmit (js "   ")
    (fun content => handleStudy asciiToLowerCase content (Fulfilled None) hiThere) fresh
  = Returned tt fresh.
Proof.
  apply (handleSubmit_ignores_blank_content asciiToLowerCase (js "   ") fresh).
  vm_compute. reflexivity.
Defined.
